(** * OpenSDL semantic layer: a shallow embedding of [opensdl_actions.c]

    The development follows [library/utility/opensdl_actions.c]: the
    conditional state machine ([sdl_conditional]), the tag resolver
    ([_sdl_get_tag]), the bitfield packer and layout engine
    ([_sdl_determine_offsets], [_sdl_check_bitfieldSizes], [_sdl_fill_bitfield],
    [_sdl_aggregate_size], [_sdl_create_bitfield_constants]) and the aggregate
    entry points of the dispatcher ([sdl_aggregate], [sdl_aggregate_member],
    [sdl_aggregate_compl]).

    Conventions of the embedding:
    - C integers are [Z].  The fields of the entities and the [int64_t]
      locals are 64 bits wide and take part in exact arithmetic (a signed
      overflow is undefined in C).  Where fewer bits are kept the wrap-around
      is written out: a value stored into an [int] local or handed to an
      [int] parameter goes through [to_int], the unsigned mask arithmetic
      through [uint64_t].
    - C strings are [string]; a [char *] that may be [NULL] is [option string].
    - The intrusive queues ([SDL_QUEUE], [SDL_INSQUE]) are lists in queue
      order: [flink] walks the list left to right, [blink] right to left,
      [SDL_INSQUE] appends at the tail.
    - A function whose C execution would dereference [NULL], divide by zero,
      shift by more bits than the operand has, use a value read outside an
      array or recurse without end has result [None].
    - Block allocation ([sdl_allocate_block]) and [sdl_strdup] are taken to
      succeed; an allocated block is zero-filled.
    - Source locations ([SDL_YYLTYPE]) only feed message inserts and are left
      out. *)

From Stdlib Require Import ZArith List String Ascii Bool Lia.
Import ListNotations.
Open Scope string_scope.
Open Scope list_scope.
Open Scope Z_scope.

(** ** Status codes (opensdl_message.h) *)

Inductive sdl_status : Type :=
| SDL_NORMAL
| SDL_ABORT
| SDL_ERREXIT
| SDL_SYMNOTDEF
| SDL_INVCONDST
| SDL_ZEROLEN
| SDL_NULLSTRUCT
| SDL_MATCHEND
| SDL_INVUNKLEN
| SDL_ADROBJBAS
| SDL_INVAGGRNAM.

Definition sdl_status_eqb (a b : sdl_status) : bool :=
  match a, b with
  | SDL_NORMAL, SDL_NORMAL | SDL_ABORT, SDL_ABORT | SDL_ERREXIT, SDL_ERREXIT
  | SDL_SYMNOTDEF, SDL_SYMNOTDEF | SDL_INVCONDST, SDL_INVCONDST
  | SDL_ZEROLEN, SDL_ZEROLEN | SDL_NULLSTRUCT, SDL_NULLSTRUCT
  | SDL_MATCHEND, SDL_MATCHEND | SDL_INVUNKLEN, SDL_INVUNKLEN
  | SDL_ADROBJBAS, SDL_ADROBJBAS | SDL_INVAGGRNAM, SDL_INVAGGRNAM => true
  | _, _ => false
  end.

(** ** A small option monad for the partial C operations *)

Definition bind {A B : Type} (m : option A) (k : A -> option B) : option B :=
  match m with
  | Some a => k a
  | None => None
  end.

Notation "x <- m ;; k" := (bind m (fun x => k))
  (at level 61, m at next level, right associativity).
Notation "' p <- m ;; k" := (bind m (fun x => let p := x in k))
  (at level 61, p pattern, m at next level, right associativity).

(** ** Conversion to [int]

    The value modulo 2^32, read as a two's complement number: what the
    compilers of the project make of a 64-bit value stored into an [int]. *)
Definition to_int (x : Z) : Z :=
  let u := x mod 2 ^ 32 in
  if u <? 2 ^ 31 then u else u - 2 ^ 32.

(** ** C character and string helpers *)

Definition isupper (c : ascii) : bool :=
  let n := N_of_ascii c in ((65 <=? n) && (n <=? 90))%N.

Definition islower (c : ascii) : bool :=
  let n := N_of_ascii c in ((97 <=? n) && (n <=? 122))%N.

Definition isalpha (c : ascii) : bool := isupper c || islower c.

Definition tolower (c : ascii) : ascii :=
  if isupper c then ascii_of_N (N_of_ascii c + 32) else c.

Fixpoint str_tolower (s : string) : string :=
  match s with
  | EmptyString => EmptyString
  | String c s' => String (tolower c) (str_tolower s')
  end.

Definition strlen (s : string) : Z := Z.of_nat (String.length s).

(** [strcmp (a, b) == 0] *)
Definition streq (a b : string) : bool := String.eqb a b.

(** [strcasecmp (a, b) == 0] *)
Definition strcaseeq (a b : string) : bool :=
  String.eqb (str_tolower a) (str_tolower b).

(** Modelled from the spec: [sdl_all_lower] lives in opensdl_utility.c, which
    is not part of the sources at hand.  The spec speaks of an id that is
    "all-lowercase"; the model reads this as: no alphabetic character of the
    id is upper case (a [NULL] id counts as all-lowercase). *)
Fixpoint all_lower_chars (s : string) : bool :=
  match s with
  | EmptyString => true
  | String c s' =>
      if isalpha c then (if islower c then all_lower_chars s' else false)
      else all_lower_chars s'
  end.

Definition sdl_all_lower (str : option string) : bool :=
  match str with
  | None => true
  | Some s => all_lower_chars s
  end.

(** [sprintf (idBuf, "filler_%03d", number)] for a non-negative [number]. *)
Definition digit_char (d : Z) : ascii := ascii_of_N (48 + Z.to_N d).

Fixpoint decimal_digits (fuel : nat) (n : Z) (acc : string) : string :=
  match fuel with
  | O => acc
  | S fuel' =>
      let acc' := String (digit_char (n mod 10)) acc in
      if n / 10 =? 0 then acc' else decimal_digits fuel' (n / 10) acc'
  end.

Definition fmt_03d (n : Z) : string :=
  let s := decimal_digits 20 n EmptyString in
  match String.length s with
  | 1%nat => String.append "00" s
  | 2%nat => String.append "0" s
  | _ => s
  end.

Definition filler_id (number : Z) : string :=
  String.append "filler_" (fmt_03d number).

(** A string with one more character at its end. *)
Definition snoc (s : string) (c : ascii) : string :=
  String.append s (String c EmptyString).

(** ** Data type codes (opensdl_defs.h)

    [_defaultTag] is indexed by the data type code, so the position of an
    entry in that table is the numeric value of its type; the codes below are
    read off the table in [opensdl_actions.c]. *)

Definition SDL_K_TYPE_NONE : Z := 0.
Definition SDL_K_TYPE_CONST : Z := 0.
Definition SDL_K_TYPE_BYTE : Z := 1.
Definition SDL_K_TYPE_INT_B : Z := 2.
Definition SDL_K_TYPE_WORD : Z := 3.
Definition SDL_K_TYPE_INT_W : Z := 4.
Definition SDL_K_TYPE_LONG : Z := 5.
Definition SDL_K_TYPE_INT_L : Z := 6.
Definition SDL_K_TYPE_INT : Z := 7.
Definition SDL_K_TYPE_INT_HW : Z := 8.
Definition SDL_K_TYPE_HW_INT : Z := 9.
Definition SDL_K_TYPE_QUAD : Z := 10.
Definition SDL_K_TYPE_INT_Q : Z := 11.
Definition SDL_K_TYPE_OCTA : Z := 12.
Definition SDL_K_TYPE_TFLT : Z := 13.
Definition SDL_K_TYPE_SFLT : Z := 15.
Definition SDL_K_TYPE_DECIMAL : Z := 27.
Definition SDL_K_TYPE_BITFLD : Z := 28.
Definition SDL_K_TYPE_BITFLD_B : Z := 29.
Definition SDL_K_TYPE_BITFLD_W : Z := 30.
Definition SDL_K_TYPE_BITFLD_L : Z := 31.
Definition SDL_K_TYPE_BITFLD_Q : Z := 32.
Definition SDL_K_TYPE_BITFLD_O : Z := 33.
Definition SDL_K_TYPE_CHAR : Z := 34.
Definition SDL_K_TYPE_CHAR_VARY : Z := 35.
Definition SDL_K_TYPE_CHAR_STAR : Z := 36.
Definition SDL_K_TYPE_ADDR : Z := 37.
Definition SDL_K_TYPE_ADDR_L : Z := 38.
Definition SDL_K_TYPE_ADDR_Q : Z := 39.
Definition SDL_K_TYPE_ADDR_HW : Z := 40.
Definition SDL_K_TYPE_HW_ADDR : Z := 41.
Definition SDL_K_TYPE_PTR : Z := 42.
Definition SDL_K_TYPE_PTR_L : Z := 43.
Definition SDL_K_TYPE_PTR_Q : Z := 44.
Definition SDL_K_TYPE_PTR_HW : Z := 45.
Definition SDL_K_TYPE_ANY : Z := 46.
Definition SDL_K_TYPE_VOID : Z := 47.
Definition SDL_K_TYPE_BOOL : Z := 48.
Definition SDL_K_TYPE_STRUCT : Z := 49.
Definition SDL_K_TYPE_UNION : Z := 50.
Definition SDL_K_TYPE_ENUM : Z := 51.
Definition SDL_K_TYPE_ENTRY : Z := 52.
Definition SDL_K_BASE_TYPE_MIN : Z := 1.
Definition SDL_K_BASE_TYPE_MAX : Z := 52.

(** Modelled from the spec: the remaining codes come from opensdl_defs.h,
    which is not part of the sources at hand.  The spec asks for a comment
    code outside the scalar codes and for "three disjoint contiguous ranges"
    of TypeIDs above the "reserved low range" of the scalar type tags; only
    the order of these values is used. *)
Definition SDL_K_TYPE_COMMENT : Z := 53.
Definition SDL_K_DECLARE_MIN : Z := 64.
Definition SDL_K_DECLARE_MAX : Z := 255.
Definition SDL_K_ITEM_MIN : Z := 256.
Definition SDL_K_ITEM_MAX : Z := 511.
Definition SDL_K_AGGREGATE_MIN : Z := 512.
Definition SDL_K_AGGREGATE_MAX : Z := 1023.

(** Modelled from the spec: alignment is "one of [NoAlign], [Align] =
    self-natural, or explicit power-of-two"; the two symbolic values
    (opensdl_defs.h) only have to differ from every explicit alignment. *)
Definition SDL_K_NOALIGN : Z := 0.
Definition SDL_K_ALIGN : Z := -1.

(** The table of default tags, in the order of the source. *)
Definition _defaultTag : list string :=
  [ "K"; "B"; "IB"; "W"; "IW"; "L"; "IL"; "IS"; "IH"; "HI"; "Q"; "IQ"; "O";
    "T"; "TC"; "S"; "SC"; "X"; "XC"; "F"; "FC"; "D"; "DC"; "G"; "GC"; "H";
    "HC"; "P"; "V"; "VB"; "VW"; "VL"; "VQ"; "VO"; "C"; "CV"; "CS"; "A"; "AL";
    "AQ"; "AH"; "HA"; "PS"; "PL"; "PQ"; "PH"; EmptyString; "Z"; "B"; "R"; "R"; "N";
    "E" ].

(** ** Entities *)

Inductive SDL_RADIX : Type := SDL_K_RADIX_DEC | SDL_K_RADIX_OCT | SDL_K_RADIX_HEX.

Inductive SDL_CONST_KIND : Type := SDL_K_CONST_NUM | SDL_K_CONST_STR.

Record SDL_CONSTANT : Type := mkConstant {
  const_id : string;
  const_prefix : option string;
  const_tag : string;
  const_comment : option string;
  const_typeName : option string;
  const_radix : SDL_RADIX;
  const_type : SDL_CONST_KIND;
  const_value : Z;
  const_string : option string;
  const_size : Z
}.

Record SDL_DECLARE : Type := mkDeclare {
  dec_id : string;
  dec_tag : string;
  dec_typeID : Z;
  dec_type : Z;
  dec_size : Z
}.

(** [SDL_ITEM]: a module-level ITEM and the item arm of an aggregate member. *)
Record SDL_ITEM : Type := mkItem {
  item_id : string;
  item_prefix : option string;
  item_tag : option string;
  item_typeID : Z;
  item_alignment : Z;
  item_type : Z;
  item_unsigned : bool;
  item_size : Z;
  item_typeDef : bool;
  item_fill : bool;
  item_offset : Z;
  item_length : Z;
  item_mask : bool;
  item_subType : Z;
  item_bitOffset : Z;
  item_dimension : bool;
  item_lbound : Z;
  item_hbound : Z;
  item_precision : Z;
  item_scale : Z;
  item_sizedBitfield : bool;
  item_parentAlignment : bool;
  item_tagSet : bool
}.

Record SDL_COMMENT : Type := mkComment {
  comment_comment : string;
  comment_endComment : bool;
  comment_lineComment : bool;
  comment_middleComment : bool;
  comment_startComment : bool
}.

(** The scalar fields of [SDL_SUBAGGR]; its member queue is carried by the
    member node, its [parent] and [self] pointers by the position of the node
    in the tree. *)
Record SDL_SUBAGGR : Type := mkSubaggr {
  sub_id : string;
  sub_prefix : option string;
  sub_tag : option string;
  sub_marker : option string;
  sub_aggType : Z;
  sub_alignment : Z;
  sub_type : Z;
  sub_unsigned : bool;
  sub_size : Z;
  sub_offset : Z;
  sub_typeDef : bool;
  sub_fill : bool;
  sub_dimension : bool;
  sub_lbound : Z;
  sub_hbound : Z;
  sub_parentAlignment : bool
}.

#[local] Set Warnings "-register-all".

(** [SDL_MEMBERS] is a C union discriminated by [member->type]; the
    constructor stands for the populated arm.  Every node carries
    [header.top]; items and subaggregates also [member->type] and
    [member->offset]. *)
Inductive SDL_MEMBERS : Type :=
| Member_Item (top : bool) (type : Z) (offset : Z) (item : SDL_ITEM)
| Member_Comment (top : bool) (comment : SDL_COMMENT)
| Member_Subaggr (top : bool) (type : Z) (offset : Z) (subaggr : SDL_SUBAGGR)
    (members : list SDL_MEMBERS).

Record SDL_AGGREGATE : Type := mkAggregate {
  agg_id : string;
  agg_prefix : option string;
  agg_tag : option string;
  agg_marker : option string;
  agg_basedPtrName : option string;
  agg_typeID : Z;
  agg_aggType : Z;
  agg_type : Z;
  agg_unsigned : bool;
  agg_alignment : Z;
  agg_alignmentPresent : bool;
  agg_origin_id : option string;
  agg_origin : option string;
  agg_dimension : bool;
  agg_lbound : Z;
  agg_hbound : Z;
  agg_commonDef : bool;
  agg_globalDef : bool;
  agg_typeDef : bool;
  agg_fill : bool;
  agg_size : Z;
  agg_members : list SDL_MEMBERS
}.

(** ** Parser options (the options buffer of the context) *)

Inductive SDL_OPTION_TYPE : Type :=
| Align | Alias | BaseAlign | Based | Common | Counter | Default | Dimension
| Enumerate | Fill | Global | OptIn | Increment | Length | Linkage | OptList
| Marker | Mask | Named | NoAlign | Optional | Origin | OptOut | Prefix | Radix
| Reference | ReturnsNamed | ReturnsType | Signed | SubType | Tag | TypeName
| Typedef | Value | OptVariable.

Record SDL_OPTION : Type := mkOption {
  opt_option : SDL_OPTION_TYPE;
  opt_value : Z;
  opt_string : option string
}.

Record SDL_DIMENSION : Type := mkDimension {
  dim_lbound : Z;
  dim_hbound : Z;
  dim_inUse : bool
}.

(** ** Conditional states *)

Inductive SDL_COND_STATES : Type :=
| CondNone | CondIfLang | CondIfSymb | CondElseIf | CondElse.

Inductive SDL_CONDITIONAL : Type :=
| SDL_K_COND_NONE
| SDL_K_COND_SYMB
| SDL_K_COND_LANG
| SDL_K_COND_ELSEIF
| SDL_K_COND_ELSE
| SDL_K_COND_END_SYMB
| SDL_K_COND_END_LANG.

(** ** The parsing context

    [symbols] is [argument[ArgSymbols].symbol->symbols[0 .. listUsed-1]],
    [languages] the [langStr] of [argument[ArgLanguage].languages
    [0 .. languagesSpecified-1]], [langCondList] the used part of the
    language list of the current IFLANGUAGE, [wordSize] is [argument[ArgWordSize].value].
    [condState] is the stack of conditional states above the [CondNone] entry
    at its bottom, innermost first.  [currentAggr] is not stored: while an
    aggregate is open it designates the aggregate at the tail of
    [aggregates] when [aggregateDepth] is 1, and otherwise the subaggregate
    found by following the last member [aggregateDepth - 1] times. *)
Record SDL_CONTEXT : Type := mkContext {
  processingEnabled : bool;
  condState : list SDL_COND_STATES;
  symbols : list (string * Z);
  languages : list string;
  langEnableVec : list bool;
  langCondList : list string;
  options : list SDL_OPTION;
  dimensions : list SDL_DIMENSION;
  declares : list SDL_DECLARE;
  items : list SDL_ITEM;
  aggregates : list SDL_AGGREGATE;
  aggregates_nextID : Z;
  constants : list SDL_CONSTANT;
  aggregateDepth : Z;
  fillerCount : Z;
  precision : Z;
  scale : Z;
  wordSize : Z
}.

(** ** Field updates (C assignments to one field of a block) *)

Definition set_processingEnabled (c : SDL_CONTEXT) v : SDL_CONTEXT :=
  mkContext v (condState c) (symbols c) (languages c) (langEnableVec c)
    (langCondList c) (options c) (dimensions c) (declares c) (items c)
    (aggregates c) (aggregates_nextID c) (constants c) (aggregateDepth c)
    (fillerCount c) (precision c) (scale c) (wordSize c).

Definition set_condState (c : SDL_CONTEXT) v : SDL_CONTEXT :=
  mkContext (processingEnabled c) v (symbols c) (languages c) (langEnableVec
    c) (langCondList c) (options c) (dimensions c) (declares c) (items c)
    (aggregates c) (aggregates_nextID c) (constants c) (aggregateDepth c)
    (fillerCount c) (precision c) (scale c) (wordSize c).

Definition set_langEnableVec (c : SDL_CONTEXT) v : SDL_CONTEXT :=
  mkContext (processingEnabled c) (condState c) (symbols c) (languages c) v
    (langCondList c) (options c) (dimensions c) (declares c) (items c)
    (aggregates c) (aggregates_nextID c) (constants c) (aggregateDepth c)
    (fillerCount c) (precision c) (scale c) (wordSize c).

Definition set_langCondList (c : SDL_CONTEXT) v : SDL_CONTEXT :=
  mkContext (processingEnabled c) (condState c) (symbols c) (languages c)
    (langEnableVec c) v (options c) (dimensions c) (declares c) (items c)
    (aggregates c) (aggregates_nextID c) (constants c) (aggregateDepth c)
    (fillerCount c) (precision c) (scale c) (wordSize c).

Definition set_options (c : SDL_CONTEXT) v : SDL_CONTEXT :=
  mkContext (processingEnabled c) (condState c) (symbols c) (languages c)
    (langEnableVec c) (langCondList c) v (dimensions c) (declares c) (items
    c) (aggregates c) (aggregates_nextID c) (constants c) (aggregateDepth c)
    (fillerCount c) (precision c) (scale c) (wordSize c).

Definition set_dimensions (c : SDL_CONTEXT) v : SDL_CONTEXT :=
  mkContext (processingEnabled c) (condState c) (symbols c) (languages c)
    (langEnableVec c) (langCondList c) (options c) v (declares c) (items c)
    (aggregates c) (aggregates_nextID c) (constants c) (aggregateDepth c)
    (fillerCount c) (precision c) (scale c) (wordSize c).

Definition set_aggregates (c : SDL_CONTEXT) v : SDL_CONTEXT :=
  mkContext (processingEnabled c) (condState c) (symbols c) (languages c)
    (langEnableVec c) (langCondList c) (options c) (dimensions c) (declares
    c) (items c) v (aggregates_nextID c) (constants c) (aggregateDepth c)
    (fillerCount c) (precision c) (scale c) (wordSize c).

Definition set_aggregates_nextID (c : SDL_CONTEXT) v : SDL_CONTEXT :=
  mkContext (processingEnabled c) (condState c) (symbols c) (languages c)
    (langEnableVec c) (langCondList c) (options c) (dimensions c) (declares
    c) (items c) (aggregates c) v (constants c) (aggregateDepth c)
    (fillerCount c) (precision c) (scale c) (wordSize c).

Definition set_constants (c : SDL_CONTEXT) v : SDL_CONTEXT :=
  mkContext (processingEnabled c) (condState c) (symbols c) (languages c)
    (langEnableVec c) (langCondList c) (options c) (dimensions c) (declares
    c) (items c) (aggregates c) (aggregates_nextID c) v (aggregateDepth c)
    (fillerCount c) (precision c) (scale c) (wordSize c).

Definition set_aggregateDepth (c : SDL_CONTEXT) v : SDL_CONTEXT :=
  mkContext (processingEnabled c) (condState c) (symbols c) (languages c)
    (langEnableVec c) (langCondList c) (options c) (dimensions c) (declares
    c) (items c) (aggregates c) (aggregates_nextID c) (constants c) v
    (fillerCount c) (precision c) (scale c) (wordSize c).

Definition set_fillerCount (c : SDL_CONTEXT) v : SDL_CONTEXT :=
  mkContext (processingEnabled c) (condState c) (symbols c) (languages c)
    (langEnableVec c) (langCondList c) (options c) (dimensions c) (declares
    c) (items c) (aggregates c) (aggregates_nextID c) (constants c)
    (aggregateDepth c) v (precision c) (scale c) (wordSize c).

Definition set_item_id (i : SDL_ITEM) v : SDL_ITEM :=
  mkItem v (item_prefix i) (item_tag i) (item_typeID i) (item_alignment i)
    (item_type i) (item_unsigned i) (item_size i) (item_typeDef i)
    (item_fill i) (item_offset i) (item_length i) (item_mask i)
    (item_subType i) (item_bitOffset i) (item_dimension i) (item_lbound i)
    (item_hbound i) (item_precision i) (item_scale i) (item_sizedBitfield i)
    (item_parentAlignment i) (item_tagSet i).

Definition set_item_prefix (i : SDL_ITEM) v : SDL_ITEM :=
  mkItem (item_id i) v (item_tag i) (item_typeID i) (item_alignment i)
    (item_type i) (item_unsigned i) (item_size i) (item_typeDef i)
    (item_fill i) (item_offset i) (item_length i) (item_mask i)
    (item_subType i) (item_bitOffset i) (item_dimension i) (item_lbound i)
    (item_hbound i) (item_precision i) (item_scale i) (item_sizedBitfield i)
    (item_parentAlignment i) (item_tagSet i).

Definition set_item_tag (i : SDL_ITEM) v : SDL_ITEM :=
  mkItem (item_id i) (item_prefix i) v (item_typeID i) (item_alignment i)
    (item_type i) (item_unsigned i) (item_size i) (item_typeDef i)
    (item_fill i) (item_offset i) (item_length i) (item_mask i)
    (item_subType i) (item_bitOffset i) (item_dimension i) (item_lbound i)
    (item_hbound i) (item_precision i) (item_scale i) (item_sizedBitfield i)
    (item_parentAlignment i) (item_tagSet i).

Definition set_item_typeID (i : SDL_ITEM) v : SDL_ITEM :=
  mkItem (item_id i) (item_prefix i) (item_tag i) v (item_alignment i)
    (item_type i) (item_unsigned i) (item_size i) (item_typeDef i)
    (item_fill i) (item_offset i) (item_length i) (item_mask i)
    (item_subType i) (item_bitOffset i) (item_dimension i) (item_lbound i)
    (item_hbound i) (item_precision i) (item_scale i) (item_sizedBitfield i)
    (item_parentAlignment i) (item_tagSet i).

Definition set_item_alignment (i : SDL_ITEM) v : SDL_ITEM :=
  mkItem (item_id i) (item_prefix i) (item_tag i) (item_typeID i) v
    (item_type i) (item_unsigned i) (item_size i) (item_typeDef i)
    (item_fill i) (item_offset i) (item_length i) (item_mask i)
    (item_subType i) (item_bitOffset i) (item_dimension i) (item_lbound i)
    (item_hbound i) (item_precision i) (item_scale i) (item_sizedBitfield i)
    (item_parentAlignment i) (item_tagSet i).

Definition set_item_type (i : SDL_ITEM) v : SDL_ITEM :=
  mkItem (item_id i) (item_prefix i) (item_tag i) (item_typeID i)
    (item_alignment i) v (item_unsigned i) (item_size i) (item_typeDef i)
    (item_fill i) (item_offset i) (item_length i) (item_mask i)
    (item_subType i) (item_bitOffset i) (item_dimension i) (item_lbound i)
    (item_hbound i) (item_precision i) (item_scale i) (item_sizedBitfield i)
    (item_parentAlignment i) (item_tagSet i).

Definition set_item_unsigned (i : SDL_ITEM) v : SDL_ITEM :=
  mkItem (item_id i) (item_prefix i) (item_tag i) (item_typeID i)
    (item_alignment i) (item_type i) v (item_size i) (item_typeDef i)
    (item_fill i) (item_offset i) (item_length i) (item_mask i)
    (item_subType i) (item_bitOffset i) (item_dimension i) (item_lbound i)
    (item_hbound i) (item_precision i) (item_scale i) (item_sizedBitfield i)
    (item_parentAlignment i) (item_tagSet i).

Definition set_item_size (i : SDL_ITEM) v : SDL_ITEM :=
  mkItem (item_id i) (item_prefix i) (item_tag i) (item_typeID i)
    (item_alignment i) (item_type i) (item_unsigned i) v (item_typeDef i)
    (item_fill i) (item_offset i) (item_length i) (item_mask i)
    (item_subType i) (item_bitOffset i) (item_dimension i) (item_lbound i)
    (item_hbound i) (item_precision i) (item_scale i) (item_sizedBitfield i)
    (item_parentAlignment i) (item_tagSet i).

Definition set_item_typeDef (i : SDL_ITEM) v : SDL_ITEM :=
  mkItem (item_id i) (item_prefix i) (item_tag i) (item_typeID i)
    (item_alignment i) (item_type i) (item_unsigned i) (item_size i) v
    (item_fill i) (item_offset i) (item_length i) (item_mask i)
    (item_subType i) (item_bitOffset i) (item_dimension i) (item_lbound i)
    (item_hbound i) (item_precision i) (item_scale i) (item_sizedBitfield i)
    (item_parentAlignment i) (item_tagSet i).

Definition set_item_fill (i : SDL_ITEM) v : SDL_ITEM :=
  mkItem (item_id i) (item_prefix i) (item_tag i) (item_typeID i)
    (item_alignment i) (item_type i) (item_unsigned i) (item_size i)
    (item_typeDef i) v (item_offset i) (item_length i) (item_mask i)
    (item_subType i) (item_bitOffset i) (item_dimension i) (item_lbound i)
    (item_hbound i) (item_precision i) (item_scale i) (item_sizedBitfield i)
    (item_parentAlignment i) (item_tagSet i).

Definition set_item_offset (i : SDL_ITEM) v : SDL_ITEM :=
  mkItem (item_id i) (item_prefix i) (item_tag i) (item_typeID i)
    (item_alignment i) (item_type i) (item_unsigned i) (item_size i)
    (item_typeDef i) (item_fill i) v (item_length i) (item_mask i)
    (item_subType i) (item_bitOffset i) (item_dimension i) (item_lbound i)
    (item_hbound i) (item_precision i) (item_scale i) (item_sizedBitfield i)
    (item_parentAlignment i) (item_tagSet i).

Definition set_item_length (i : SDL_ITEM) v : SDL_ITEM :=
  mkItem (item_id i) (item_prefix i) (item_tag i) (item_typeID i)
    (item_alignment i) (item_type i) (item_unsigned i) (item_size i)
    (item_typeDef i) (item_fill i) (item_offset i) v (item_mask i)
    (item_subType i) (item_bitOffset i) (item_dimension i) (item_lbound i)
    (item_hbound i) (item_precision i) (item_scale i) (item_sizedBitfield i)
    (item_parentAlignment i) (item_tagSet i).

Definition set_item_mask (i : SDL_ITEM) v : SDL_ITEM :=
  mkItem (item_id i) (item_prefix i) (item_tag i) (item_typeID i)
    (item_alignment i) (item_type i) (item_unsigned i) (item_size i)
    (item_typeDef i) (item_fill i) (item_offset i) (item_length i) v
    (item_subType i) (item_bitOffset i) (item_dimension i) (item_lbound i)
    (item_hbound i) (item_precision i) (item_scale i) (item_sizedBitfield i)
    (item_parentAlignment i) (item_tagSet i).

Definition set_item_subType (i : SDL_ITEM) v : SDL_ITEM :=
  mkItem (item_id i) (item_prefix i) (item_tag i) (item_typeID i)
    (item_alignment i) (item_type i) (item_unsigned i) (item_size i)
    (item_typeDef i) (item_fill i) (item_offset i) (item_length i)
    (item_mask i) v (item_bitOffset i) (item_dimension i) (item_lbound i)
    (item_hbound i) (item_precision i) (item_scale i) (item_sizedBitfield i)
    (item_parentAlignment i) (item_tagSet i).

Definition set_item_bitOffset (i : SDL_ITEM) v : SDL_ITEM :=
  mkItem (item_id i) (item_prefix i) (item_tag i) (item_typeID i)
    (item_alignment i) (item_type i) (item_unsigned i) (item_size i)
    (item_typeDef i) (item_fill i) (item_offset i) (item_length i)
    (item_mask i) (item_subType i) v (item_dimension i) (item_lbound i)
    (item_hbound i) (item_precision i) (item_scale i) (item_sizedBitfield i)
    (item_parentAlignment i) (item_tagSet i).

Definition set_item_dimension (i : SDL_ITEM) v : SDL_ITEM :=
  mkItem (item_id i) (item_prefix i) (item_tag i) (item_typeID i)
    (item_alignment i) (item_type i) (item_unsigned i) (item_size i)
    (item_typeDef i) (item_fill i) (item_offset i) (item_length i)
    (item_mask i) (item_subType i) (item_bitOffset i) v (item_lbound i)
    (item_hbound i) (item_precision i) (item_scale i) (item_sizedBitfield i)
    (item_parentAlignment i) (item_tagSet i).

Definition set_item_lbound (i : SDL_ITEM) v : SDL_ITEM :=
  mkItem (item_id i) (item_prefix i) (item_tag i) (item_typeID i)
    (item_alignment i) (item_type i) (item_unsigned i) (item_size i)
    (item_typeDef i) (item_fill i) (item_offset i) (item_length i)
    (item_mask i) (item_subType i) (item_bitOffset i) (item_dimension i) v
    (item_hbound i) (item_precision i) (item_scale i) (item_sizedBitfield i)
    (item_parentAlignment i) (item_tagSet i).

Definition set_item_hbound (i : SDL_ITEM) v : SDL_ITEM :=
  mkItem (item_id i) (item_prefix i) (item_tag i) (item_typeID i)
    (item_alignment i) (item_type i) (item_unsigned i) (item_size i)
    (item_typeDef i) (item_fill i) (item_offset i) (item_length i)
    (item_mask i) (item_subType i) (item_bitOffset i) (item_dimension i)
    (item_lbound i) v (item_precision i) (item_scale i) (item_sizedBitfield
    i) (item_parentAlignment i) (item_tagSet i).

Definition set_item_precision (i : SDL_ITEM) v : SDL_ITEM :=
  mkItem (item_id i) (item_prefix i) (item_tag i) (item_typeID i)
    (item_alignment i) (item_type i) (item_unsigned i) (item_size i)
    (item_typeDef i) (item_fill i) (item_offset i) (item_length i)
    (item_mask i) (item_subType i) (item_bitOffset i) (item_dimension i)
    (item_lbound i) (item_hbound i) v (item_scale i) (item_sizedBitfield i)
    (item_parentAlignment i) (item_tagSet i).

Definition set_item_scale (i : SDL_ITEM) v : SDL_ITEM :=
  mkItem (item_id i) (item_prefix i) (item_tag i) (item_typeID i)
    (item_alignment i) (item_type i) (item_unsigned i) (item_size i)
    (item_typeDef i) (item_fill i) (item_offset i) (item_length i)
    (item_mask i) (item_subType i) (item_bitOffset i) (item_dimension i)
    (item_lbound i) (item_hbound i) (item_precision i) v (item_sizedBitfield
    i) (item_parentAlignment i) (item_tagSet i).

Definition set_item_sizedBitfield (i : SDL_ITEM) v : SDL_ITEM :=
  mkItem (item_id i) (item_prefix i) (item_tag i) (item_typeID i)
    (item_alignment i) (item_type i) (item_unsigned i) (item_size i)
    (item_typeDef i) (item_fill i) (item_offset i) (item_length i)
    (item_mask i) (item_subType i) (item_bitOffset i) (item_dimension i)
    (item_lbound i) (item_hbound i) (item_precision i) (item_scale i) v
    (item_parentAlignment i) (item_tagSet i).

Definition set_item_parentAlignment (i : SDL_ITEM) v : SDL_ITEM :=
  mkItem (item_id i) (item_prefix i) (item_tag i) (item_typeID i)
    (item_alignment i) (item_type i) (item_unsigned i) (item_size i)
    (item_typeDef i) (item_fill i) (item_offset i) (item_length i)
    (item_mask i) (item_subType i) (item_bitOffset i) (item_dimension i)
    (item_lbound i) (item_hbound i) (item_precision i) (item_scale i)
    (item_sizedBitfield i) v (item_tagSet i).

Definition set_item_tagSet (i : SDL_ITEM) v : SDL_ITEM :=
  mkItem (item_id i) (item_prefix i) (item_tag i) (item_typeID i)
    (item_alignment i) (item_type i) (item_unsigned i) (item_size i)
    (item_typeDef i) (item_fill i) (item_offset i) (item_length i)
    (item_mask i) (item_subType i) (item_bitOffset i) (item_dimension i)
    (item_lbound i) (item_hbound i) (item_precision i) (item_scale i)
    (item_sizedBitfield i) (item_parentAlignment i) v.

Definition set_sub_id (s : SDL_SUBAGGR) v : SDL_SUBAGGR :=
  mkSubaggr v (sub_prefix s) (sub_tag s) (sub_marker s) (sub_aggType s)
    (sub_alignment s) (sub_type s) (sub_unsigned s) (sub_size s) (sub_offset
    s) (sub_typeDef s) (sub_fill s) (sub_dimension s) (sub_lbound s)
    (sub_hbound s) (sub_parentAlignment s).

Definition set_sub_prefix (s : SDL_SUBAGGR) v : SDL_SUBAGGR :=
  mkSubaggr (sub_id s) v (sub_tag s) (sub_marker s) (sub_aggType s)
    (sub_alignment s) (sub_type s) (sub_unsigned s) (sub_size s) (sub_offset
    s) (sub_typeDef s) (sub_fill s) (sub_dimension s) (sub_lbound s)
    (sub_hbound s) (sub_parentAlignment s).

Definition set_sub_tag (s : SDL_SUBAGGR) v : SDL_SUBAGGR :=
  mkSubaggr (sub_id s) (sub_prefix s) v (sub_marker s) (sub_aggType s)
    (sub_alignment s) (sub_type s) (sub_unsigned s) (sub_size s) (sub_offset
    s) (sub_typeDef s) (sub_fill s) (sub_dimension s) (sub_lbound s)
    (sub_hbound s) (sub_parentAlignment s).

Definition set_sub_marker (s : SDL_SUBAGGR) v : SDL_SUBAGGR :=
  mkSubaggr (sub_id s) (sub_prefix s) (sub_tag s) v (sub_aggType s)
    (sub_alignment s) (sub_type s) (sub_unsigned s) (sub_size s) (sub_offset
    s) (sub_typeDef s) (sub_fill s) (sub_dimension s) (sub_lbound s)
    (sub_hbound s) (sub_parentAlignment s).

Definition set_sub_aggType (s : SDL_SUBAGGR) v : SDL_SUBAGGR :=
  mkSubaggr (sub_id s) (sub_prefix s) (sub_tag s) (sub_marker s) v
    (sub_alignment s) (sub_type s) (sub_unsigned s) (sub_size s) (sub_offset
    s) (sub_typeDef s) (sub_fill s) (sub_dimension s) (sub_lbound s)
    (sub_hbound s) (sub_parentAlignment s).

Definition set_sub_alignment (s : SDL_SUBAGGR) v : SDL_SUBAGGR :=
  mkSubaggr (sub_id s) (sub_prefix s) (sub_tag s) (sub_marker s)
    (sub_aggType s) v (sub_type s) (sub_unsigned s) (sub_size s) (sub_offset
    s) (sub_typeDef s) (sub_fill s) (sub_dimension s) (sub_lbound s)
    (sub_hbound s) (sub_parentAlignment s).

Definition set_sub_type (s : SDL_SUBAGGR) v : SDL_SUBAGGR :=
  mkSubaggr (sub_id s) (sub_prefix s) (sub_tag s) (sub_marker s)
    (sub_aggType s) (sub_alignment s) v (sub_unsigned s) (sub_size s)
    (sub_offset s) (sub_typeDef s) (sub_fill s) (sub_dimension s)
    (sub_lbound s) (sub_hbound s) (sub_parentAlignment s).

Definition set_sub_unsigned (s : SDL_SUBAGGR) v : SDL_SUBAGGR :=
  mkSubaggr (sub_id s) (sub_prefix s) (sub_tag s) (sub_marker s)
    (sub_aggType s) (sub_alignment s) (sub_type s) v (sub_size s)
    (sub_offset s) (sub_typeDef s) (sub_fill s) (sub_dimension s)
    (sub_lbound s) (sub_hbound s) (sub_parentAlignment s).

Definition set_sub_size (s : SDL_SUBAGGR) v : SDL_SUBAGGR :=
  mkSubaggr (sub_id s) (sub_prefix s) (sub_tag s) (sub_marker s)
    (sub_aggType s) (sub_alignment s) (sub_type s) (sub_unsigned s) v
    (sub_offset s) (sub_typeDef s) (sub_fill s) (sub_dimension s)
    (sub_lbound s) (sub_hbound s) (sub_parentAlignment s).

Definition set_sub_offset (s : SDL_SUBAGGR) v : SDL_SUBAGGR :=
  mkSubaggr (sub_id s) (sub_prefix s) (sub_tag s) (sub_marker s)
    (sub_aggType s) (sub_alignment s) (sub_type s) (sub_unsigned s)
    (sub_size s) v (sub_typeDef s) (sub_fill s) (sub_dimension s)
    (sub_lbound s) (sub_hbound s) (sub_parentAlignment s).

Definition set_sub_typeDef (s : SDL_SUBAGGR) v : SDL_SUBAGGR :=
  mkSubaggr (sub_id s) (sub_prefix s) (sub_tag s) (sub_marker s)
    (sub_aggType s) (sub_alignment s) (sub_type s) (sub_unsigned s)
    (sub_size s) (sub_offset s) v (sub_fill s) (sub_dimension s) (sub_lbound
    s) (sub_hbound s) (sub_parentAlignment s).

Definition set_sub_fill (s : SDL_SUBAGGR) v : SDL_SUBAGGR :=
  mkSubaggr (sub_id s) (sub_prefix s) (sub_tag s) (sub_marker s)
    (sub_aggType s) (sub_alignment s) (sub_type s) (sub_unsigned s)
    (sub_size s) (sub_offset s) (sub_typeDef s) v (sub_dimension s)
    (sub_lbound s) (sub_hbound s) (sub_parentAlignment s).

Definition set_sub_dimension (s : SDL_SUBAGGR) v : SDL_SUBAGGR :=
  mkSubaggr (sub_id s) (sub_prefix s) (sub_tag s) (sub_marker s)
    (sub_aggType s) (sub_alignment s) (sub_type s) (sub_unsigned s)
    (sub_size s) (sub_offset s) (sub_typeDef s) (sub_fill s) v (sub_lbound
    s) (sub_hbound s) (sub_parentAlignment s).

Definition set_sub_lbound (s : SDL_SUBAGGR) v : SDL_SUBAGGR :=
  mkSubaggr (sub_id s) (sub_prefix s) (sub_tag s) (sub_marker s)
    (sub_aggType s) (sub_alignment s) (sub_type s) (sub_unsigned s)
    (sub_size s) (sub_offset s) (sub_typeDef s) (sub_fill s) (sub_dimension
    s) v (sub_hbound s) (sub_parentAlignment s).

Definition set_sub_hbound (s : SDL_SUBAGGR) v : SDL_SUBAGGR :=
  mkSubaggr (sub_id s) (sub_prefix s) (sub_tag s) (sub_marker s)
    (sub_aggType s) (sub_alignment s) (sub_type s) (sub_unsigned s)
    (sub_size s) (sub_offset s) (sub_typeDef s) (sub_fill s) (sub_dimension
    s) (sub_lbound s) v (sub_parentAlignment s).

Definition set_sub_parentAlignment (s : SDL_SUBAGGR) v : SDL_SUBAGGR :=
  mkSubaggr (sub_id s) (sub_prefix s) (sub_tag s) (sub_marker s)
    (sub_aggType s) (sub_alignment s) (sub_type s) (sub_unsigned s)
    (sub_size s) (sub_offset s) (sub_typeDef s) (sub_fill s) (sub_dimension
    s) (sub_lbound s) (sub_hbound s) v.

Definition set_agg_id (a : SDL_AGGREGATE) v : SDL_AGGREGATE :=
  mkAggregate v (agg_prefix a) (agg_tag a) (agg_marker a) (agg_basedPtrName
    a) (agg_typeID a) (agg_aggType a) (agg_type a) (agg_unsigned a)
    (agg_alignment a) (agg_alignmentPresent a) (agg_origin_id a) (agg_origin
    a) (agg_dimension a) (agg_lbound a) (agg_hbound a) (agg_commonDef a)
    (agg_globalDef a) (agg_typeDef a) (agg_fill a) (agg_size a) (agg_members
    a).

Definition set_agg_prefix (a : SDL_AGGREGATE) v : SDL_AGGREGATE :=
  mkAggregate (agg_id a) v (agg_tag a) (agg_marker a) (agg_basedPtrName a)
    (agg_typeID a) (agg_aggType a) (agg_type a) (agg_unsigned a)
    (agg_alignment a) (agg_alignmentPresent a) (agg_origin_id a) (agg_origin
    a) (agg_dimension a) (agg_lbound a) (agg_hbound a) (agg_commonDef a)
    (agg_globalDef a) (agg_typeDef a) (agg_fill a) (agg_size a) (agg_members
    a).

Definition set_agg_tag (a : SDL_AGGREGATE) v : SDL_AGGREGATE :=
  mkAggregate (agg_id a) (agg_prefix a) v (agg_marker a) (agg_basedPtrName
    a) (agg_typeID a) (agg_aggType a) (agg_type a) (agg_unsigned a)
    (agg_alignment a) (agg_alignmentPresent a) (agg_origin_id a) (agg_origin
    a) (agg_dimension a) (agg_lbound a) (agg_hbound a) (agg_commonDef a)
    (agg_globalDef a) (agg_typeDef a) (agg_fill a) (agg_size a) (agg_members
    a).

Definition set_agg_marker (a : SDL_AGGREGATE) v : SDL_AGGREGATE :=
  mkAggregate (agg_id a) (agg_prefix a) (agg_tag a) v (agg_basedPtrName a)
    (agg_typeID a) (agg_aggType a) (agg_type a) (agg_unsigned a)
    (agg_alignment a) (agg_alignmentPresent a) (agg_origin_id a) (agg_origin
    a) (agg_dimension a) (agg_lbound a) (agg_hbound a) (agg_commonDef a)
    (agg_globalDef a) (agg_typeDef a) (agg_fill a) (agg_size a) (agg_members
    a).

Definition set_agg_basedPtrName (a : SDL_AGGREGATE) v : SDL_AGGREGATE :=
  mkAggregate (agg_id a) (agg_prefix a) (agg_tag a) (agg_marker a) v
    (agg_typeID a) (agg_aggType a) (agg_type a) (agg_unsigned a)
    (agg_alignment a) (agg_alignmentPresent a) (agg_origin_id a) (agg_origin
    a) (agg_dimension a) (agg_lbound a) (agg_hbound a) (agg_commonDef a)
    (agg_globalDef a) (agg_typeDef a) (agg_fill a) (agg_size a) (agg_members
    a).

Definition set_agg_typeID (a : SDL_AGGREGATE) v : SDL_AGGREGATE :=
  mkAggregate (agg_id a) (agg_prefix a) (agg_tag a) (agg_marker a)
    (agg_basedPtrName a) v (agg_aggType a) (agg_type a) (agg_unsigned a)
    (agg_alignment a) (agg_alignmentPresent a) (agg_origin_id a) (agg_origin
    a) (agg_dimension a) (agg_lbound a) (agg_hbound a) (agg_commonDef a)
    (agg_globalDef a) (agg_typeDef a) (agg_fill a) (agg_size a) (agg_members
    a).

Definition set_agg_aggType (a : SDL_AGGREGATE) v : SDL_AGGREGATE :=
  mkAggregate (agg_id a) (agg_prefix a) (agg_tag a) (agg_marker a)
    (agg_basedPtrName a) (agg_typeID a) v (agg_type a) (agg_unsigned a)
    (agg_alignment a) (agg_alignmentPresent a) (agg_origin_id a) (agg_origin
    a) (agg_dimension a) (agg_lbound a) (agg_hbound a) (agg_commonDef a)
    (agg_globalDef a) (agg_typeDef a) (agg_fill a) (agg_size a) (agg_members
    a).

Definition set_agg_type (a : SDL_AGGREGATE) v : SDL_AGGREGATE :=
  mkAggregate (agg_id a) (agg_prefix a) (agg_tag a) (agg_marker a)
    (agg_basedPtrName a) (agg_typeID a) (agg_aggType a) v (agg_unsigned a)
    (agg_alignment a) (agg_alignmentPresent a) (agg_origin_id a) (agg_origin
    a) (agg_dimension a) (agg_lbound a) (agg_hbound a) (agg_commonDef a)
    (agg_globalDef a) (agg_typeDef a) (agg_fill a) (agg_size a) (agg_members
    a).

Definition set_agg_unsigned (a : SDL_AGGREGATE) v : SDL_AGGREGATE :=
  mkAggregate (agg_id a) (agg_prefix a) (agg_tag a) (agg_marker a)
    (agg_basedPtrName a) (agg_typeID a) (agg_aggType a) (agg_type a) v
    (agg_alignment a) (agg_alignmentPresent a) (agg_origin_id a) (agg_origin
    a) (agg_dimension a) (agg_lbound a) (agg_hbound a) (agg_commonDef a)
    (agg_globalDef a) (agg_typeDef a) (agg_fill a) (agg_size a) (agg_members
    a).

Definition set_agg_alignment (a : SDL_AGGREGATE) v : SDL_AGGREGATE :=
  mkAggregate (agg_id a) (agg_prefix a) (agg_tag a) (agg_marker a)
    (agg_basedPtrName a) (agg_typeID a) (agg_aggType a) (agg_type a)
    (agg_unsigned a) v (agg_alignmentPresent a) (agg_origin_id a)
    (agg_origin a) (agg_dimension a) (agg_lbound a) (agg_hbound a)
    (agg_commonDef a) (agg_globalDef a) (agg_typeDef a) (agg_fill a)
    (agg_size a) (agg_members a).

Definition set_agg_alignmentPresent (a : SDL_AGGREGATE) v : SDL_AGGREGATE :=
  mkAggregate (agg_id a) (agg_prefix a) (agg_tag a) (agg_marker a)
    (agg_basedPtrName a) (agg_typeID a) (agg_aggType a) (agg_type a)
    (agg_unsigned a) (agg_alignment a) v (agg_origin_id a) (agg_origin a)
    (agg_dimension a) (agg_lbound a) (agg_hbound a) (agg_commonDef a)
    (agg_globalDef a) (agg_typeDef a) (agg_fill a) (agg_size a) (agg_members
    a).

Definition set_agg_origin_id (a : SDL_AGGREGATE) v : SDL_AGGREGATE :=
  mkAggregate (agg_id a) (agg_prefix a) (agg_tag a) (agg_marker a)
    (agg_basedPtrName a) (agg_typeID a) (agg_aggType a) (agg_type a)
    (agg_unsigned a) (agg_alignment a) (agg_alignmentPresent a) v
    (agg_origin a) (agg_dimension a) (agg_lbound a) (agg_hbound a)
    (agg_commonDef a) (agg_globalDef a) (agg_typeDef a) (agg_fill a)
    (agg_size a) (agg_members a).

Definition set_agg_origin (a : SDL_AGGREGATE) v : SDL_AGGREGATE :=
  mkAggregate (agg_id a) (agg_prefix a) (agg_tag a) (agg_marker a)
    (agg_basedPtrName a) (agg_typeID a) (agg_aggType a) (agg_type a)
    (agg_unsigned a) (agg_alignment a) (agg_alignmentPresent a)
    (agg_origin_id a) v (agg_dimension a) (agg_lbound a) (agg_hbound a)
    (agg_commonDef a) (agg_globalDef a) (agg_typeDef a) (agg_fill a)
    (agg_size a) (agg_members a).

Definition set_agg_dimension (a : SDL_AGGREGATE) v : SDL_AGGREGATE :=
  mkAggregate (agg_id a) (agg_prefix a) (agg_tag a) (agg_marker a)
    (agg_basedPtrName a) (agg_typeID a) (agg_aggType a) (agg_type a)
    (agg_unsigned a) (agg_alignment a) (agg_alignmentPresent a)
    (agg_origin_id a) (agg_origin a) v (agg_lbound a) (agg_hbound a)
    (agg_commonDef a) (agg_globalDef a) (agg_typeDef a) (agg_fill a)
    (agg_size a) (agg_members a).

Definition set_agg_lbound (a : SDL_AGGREGATE) v : SDL_AGGREGATE :=
  mkAggregate (agg_id a) (agg_prefix a) (agg_tag a) (agg_marker a)
    (agg_basedPtrName a) (agg_typeID a) (agg_aggType a) (agg_type a)
    (agg_unsigned a) (agg_alignment a) (agg_alignmentPresent a)
    (agg_origin_id a) (agg_origin a) (agg_dimension a) v (agg_hbound a)
    (agg_commonDef a) (agg_globalDef a) (agg_typeDef a) (agg_fill a)
    (agg_size a) (agg_members a).

Definition set_agg_hbound (a : SDL_AGGREGATE) v : SDL_AGGREGATE :=
  mkAggregate (agg_id a) (agg_prefix a) (agg_tag a) (agg_marker a)
    (agg_basedPtrName a) (agg_typeID a) (agg_aggType a) (agg_type a)
    (agg_unsigned a) (agg_alignment a) (agg_alignmentPresent a)
    (agg_origin_id a) (agg_origin a) (agg_dimension a) (agg_lbound a) v
    (agg_commonDef a) (agg_globalDef a) (agg_typeDef a) (agg_fill a)
    (agg_size a) (agg_members a).

Definition set_agg_commonDef (a : SDL_AGGREGATE) v : SDL_AGGREGATE :=
  mkAggregate (agg_id a) (agg_prefix a) (agg_tag a) (agg_marker a)
    (agg_basedPtrName a) (agg_typeID a) (agg_aggType a) (agg_type a)
    (agg_unsigned a) (agg_alignment a) (agg_alignmentPresent a)
    (agg_origin_id a) (agg_origin a) (agg_dimension a) (agg_lbound a)
    (agg_hbound a) v (agg_globalDef a) (agg_typeDef a) (agg_fill a)
    (agg_size a) (agg_members a).

Definition set_agg_globalDef (a : SDL_AGGREGATE) v : SDL_AGGREGATE :=
  mkAggregate (agg_id a) (agg_prefix a) (agg_tag a) (agg_marker a)
    (agg_basedPtrName a) (agg_typeID a) (agg_aggType a) (agg_type a)
    (agg_unsigned a) (agg_alignment a) (agg_alignmentPresent a)
    (agg_origin_id a) (agg_origin a) (agg_dimension a) (agg_lbound a)
    (agg_hbound a) (agg_commonDef a) v (agg_typeDef a) (agg_fill a)
    (agg_size a) (agg_members a).

Definition set_agg_typeDef (a : SDL_AGGREGATE) v : SDL_AGGREGATE :=
  mkAggregate (agg_id a) (agg_prefix a) (agg_tag a) (agg_marker a)
    (agg_basedPtrName a) (agg_typeID a) (agg_aggType a) (agg_type a)
    (agg_unsigned a) (agg_alignment a) (agg_alignmentPresent a)
    (agg_origin_id a) (agg_origin a) (agg_dimension a) (agg_lbound a)
    (agg_hbound a) (agg_commonDef a) (agg_globalDef a) v (agg_fill a)
    (agg_size a) (agg_members a).

Definition set_agg_fill (a : SDL_AGGREGATE) v : SDL_AGGREGATE :=
  mkAggregate (agg_id a) (agg_prefix a) (agg_tag a) (agg_marker a)
    (agg_basedPtrName a) (agg_typeID a) (agg_aggType a) (agg_type a)
    (agg_unsigned a) (agg_alignment a) (agg_alignmentPresent a)
    (agg_origin_id a) (agg_origin a) (agg_dimension a) (agg_lbound a)
    (agg_hbound a) (agg_commonDef a) (agg_globalDef a) (agg_typeDef a) v
    (agg_size a) (agg_members a).

Definition set_agg_size (a : SDL_AGGREGATE) v : SDL_AGGREGATE :=
  mkAggregate (agg_id a) (agg_prefix a) (agg_tag a) (agg_marker a)
    (agg_basedPtrName a) (agg_typeID a) (agg_aggType a) (agg_type a)
    (agg_unsigned a) (agg_alignment a) (agg_alignmentPresent a)
    (agg_origin_id a) (agg_origin a) (agg_dimension a) (agg_lbound a)
    (agg_hbound a) (agg_commonDef a) (agg_globalDef a) (agg_typeDef a)
    (agg_fill a) v (agg_members a).

Definition set_agg_members (a : SDL_AGGREGATE) v : SDL_AGGREGATE :=
  mkAggregate (agg_id a) (agg_prefix a) (agg_tag a) (agg_marker a)
    (agg_basedPtrName a) (agg_typeID a) (agg_aggType a) (agg_type a)
    (agg_unsigned a) (agg_alignment a) (agg_alignmentPresent a)
    (agg_origin_id a) (agg_origin a) (agg_dimension a) (agg_lbound a)
    (agg_hbound a) (agg_commonDef a) (agg_globalDef a) (agg_typeDef a)
    (agg_fill a) (agg_size a) v.

Definition set_dim_inUse (d : SDL_DIMENSION) v : SDL_DIMENSION :=
  mkDimension (dim_lbound d) (dim_hbound d) v.

(** * The dispatcher and its collaborators *)

(** A message vector that records every message and back ends that have
    nothing to report, for the runs of whole declarations. *)
Definition message_recorded (code : sdl_status) : sdl_status := SDL_NORMAL.

Definition backend_normal (aggr : SDL_AGGREGATE) (ending : bool) : sdl_status :=
  SDL_NORMAL.

Section Dispatcher.

(** The message vector and the language back ends are external
    collaborators.  [sdl_set_message] receives the status being reported and
    answers [SDL_NORMAL] when the message was recorded; [sdl_call_aggregate]
    answers the status of the back ends for the beginning ([false]) or the
    end ([true]) of the aggregate handed to it. *)
Variable sdl_set_message : sdl_status -> sdl_status.
Variable sdl_call_aggregate : SDL_AGGREGATE -> bool -> sdl_status.

(** The depth granted to the recursion of [_sdl_get_tag] beyond its first
    call, for the calls made by the dispatcher. *)
Variable tag_depth : nat.

(** [retVal = code; if (sdl_set_message (...) != SDL_NORMAL) retVal = other;] *)
Definition report (code other : sdl_status) : sdl_status :=
  if sdl_status_eqb (sdl_set_message code) SDL_NORMAL then code else other.

(** ** Conditional state machine: [sdl_conditional] *)

(** Modelled from the spec: the macros [SDL_CUR_COND_STATE],
    [SDL_PUSH_COND_STATE] and [SDL_POP_COND_STATE] come from opensdl_defs.h,
    which is not part of the sources at hand.  The spec describes a stack of
    states whose transitions push, replace or "pop"; the empty stack stands
    for the initial [CondNone] entry. *)
Definition SDL_CUR_COND_STATE (context : SDL_CONTEXT) : SDL_COND_STATES :=
  match condState context with
  | [] => CondNone
  | s :: _ => s
  end.

Definition SDL_PUSH_COND_STATE (context : SDL_CONTEXT) (s : SDL_COND_STATES)
  : SDL_CONTEXT :=
  set_condState context (s :: condState context).

Definition SDL_POP_COND_STATE (context : SDL_CONTEXT) : SDL_CONTEXT :=
  set_condState context (tl (condState context)).

Definition cond_state_eqb (a b : SDL_COND_STATES) : bool :=
  match a, b with
  | CondNone, CondNone | CondIfLang, CondIfLang | CondIfSymb, CondIfSymb
  | CondElseIf, CondElseIf | CondElse, CondElse => true
  | _, _ => false
  end.

(** The [expr] argument: [NULL], the symbol of an IFSYMBOL or ELSE_IFSYMBOL,
    or the address of the context's language list ([sdl_get_language]). *)
Inductive SDL_COND_EXPR : Type :=
| ExprNull
| ExprSymbol (symbol : string)
| ExprLangs.

(** The symbol loop shared by IFSYMBOL and ELSE_IFSYMBOL: walks the symbol
    table until the first entry named [symbol]; answers the new
    [processingEnabled] and [done]. *)
Fixpoint symbol_loop (symbol : string) (syms : list (string * Z))
  (enabled : bool) : bool * bool :=
  match syms with
  | [] => (enabled, false)
  | (name, value) :: rest =>
      if streq symbol name then
        (if value =? 0
         then (if enabled then false else enabled)
         else (if enabled then enabled else true),
         true)
      else symbol_loop symbol rest enabled
  end.

(** [for (ii = 0; ii < n; ii++) vec[ii] = f (vec[ii]);] *)
Fixpoint map_first {A : Type} (f : A -> A) (n : nat) (vec : list A) : list A :=
  match n, vec with
  | S n', x :: vec' => f x :: map_first f n' vec'
  | _, _ => vec
  end.

(** The inner loop of IFLANGUAGE for one requested language: every
    specified language equal to it, case apart, is switched on. *)
Fixpoint enable_language (lang : string) (langs : list string)
  (vec : list bool) : list bool :=
  match langs, vec with
  | l :: langs', b :: vec' =>
      (if strcaseeq lang l then true else b) :: enable_language lang langs' vec'
  | _, _ => vec
  end.

Definition enable_languages (requested langs : list string) (vec : list bool)
  : list bool :=
  fold_left (fun v lang => enable_language lang langs v) requested vec.

Definition languagesSpecified (context : SDL_CONTEXT) : nat :=
  List.length (languages context).

Definition sdl_conditional (context : SDL_CONTEXT)
  (conditional : SDL_CONDITIONAL) (expr : SDL_COND_EXPR)
  : option (SDL_CONTEXT * sdl_status) :=
  let cur := SDL_CUR_COND_STATE context in
  match conditional with
  | SDL_K_COND_SYMB =>
      if cond_state_eqb cur CondNone || cond_state_eqb cur CondIfLang
         || cond_state_eqb cur CondElse
      then
        match expr with
        | ExprSymbol symbol =>
            let context := SDL_PUSH_COND_STATE context CondIfSymb in
            let '(enabled, done) :=
              symbol_loop symbol (symbols context) (processingEnabled context) in
            let context := set_processingEnabled context enabled in
            if done then Some (context, SDL_NORMAL)
            else Some (context, report SDL_SYMNOTDEF SDL_ERREXIT)
        | _ => None
        end
      else Some (context, report SDL_INVCONDST SDL_ERREXIT)
  | SDL_K_COND_LANG =>
      match expr with
      | ExprLangs =>
          let '(context, retVal) :=
            if processingEnabled context then
              if cond_state_eqb cur CondNone || cond_state_eqb cur CondIfLang
                 || cond_state_eqb cur CondIfSymb
                 || cond_state_eqb cur CondElseIf
                 || cond_state_eqb cur CondElse
              then
                let context := SDL_PUSH_COND_STATE context CondIfLang in
                let vec :=
                  map_first (fun _ => false) (languagesSpecified context)
                    (langEnableVec context) in
                let vec :=
                  enable_languages (langCondList context) (languages context)
                    vec in
                (set_langEnableVec context vec, SDL_NORMAL)
              else (context, report SDL_INVCONDST SDL_ERREXIT)
            else (context, SDL_NORMAL) in
          Some (set_langCondList context [], retVal)
      | _ => None
      end
  | SDL_K_COND_ELSEIF =>
      if cond_state_eqb cur CondIfSymb
      then
        match expr with
        | ExprSymbol symbol =>
            let context := SDL_POP_COND_STATE context in
            let context := SDL_PUSH_COND_STATE context CondElseIf in
            let '(enabled, _) :=
              symbol_loop symbol (symbols context) (processingEnabled context) in
            Some (set_processingEnabled context enabled, SDL_NORMAL)
        | _ => None
        end
      else Some (context, report SDL_INVCONDST SDL_ERREXIT)
  | SDL_K_COND_ELSE =>
      if cond_state_eqb cur CondIfLang && processingEnabled context
      then
        let context := SDL_POP_COND_STATE context in
        let context := SDL_PUSH_COND_STATE context CondElse in
        Some (set_langEnableVec context
                (map_first negb (languagesSpecified context)
                   (langEnableVec context)),
              SDL_NORMAL)
      else if cond_state_eqb cur CondIfSymb || cond_state_eqb cur CondElseIf
      then
        let context := SDL_POP_COND_STATE context in
        let context := SDL_PUSH_COND_STATE context CondElse in
        Some (set_processingEnabled context (negb (processingEnabled context)),
              SDL_NORMAL)
      else if processingEnabled context
      then Some (context, report SDL_INVCONDST SDL_ERREXIT)
      else Some (context, SDL_NORMAL)
  | SDL_K_COND_END_SYMB =>
      if cond_state_eqb cur CondIfSymb || cond_state_eqb cur CondElseIf
         || cond_state_eqb cur CondElse
      then
        let context := SDL_POP_COND_STATE context in
        Some (set_processingEnabled context true, SDL_NORMAL)
      else Some (context, report SDL_INVCONDST SDL_ERREXIT)
  | SDL_K_COND_END_LANG =>
      let '(context, retVal) :=
        if processingEnabled context then
          if cond_state_eqb cur CondIfLang || cond_state_eqb cur CondElse
          then
            let context := SDL_POP_COND_STATE context in
            (set_langEnableVec context
               (map_first (fun _ => true) (languagesSpecified context)
                  (langEnableVec context)),
             SDL_NORMAL)
          else (context, report SDL_INVCONDST SDL_ERREXIT)
        else (context, SDL_NORMAL) in
      match expr with
      | ExprNull => Some (context, retVal)
      | ExprLangs => Some (set_langCondList context [], retVal)
      | ExprSymbol _ => None
      end
  | SDL_K_COND_NONE => Some (context, report SDL_INVCONDST SDL_ERREXIT)
  end.

(** ** Type registry look-ups and sizes *)

(** Modelled from the spec: [sdl_get_declare], [sdl_get_item] and
    [sdl_get_aggregate] live in opensdl_utility.c, which is not part of the
    sources at hand.  The spec keys each namespace "by stable integer
    TypeID"; the look-up answers the first entity with that TypeID. *)
Definition sdl_get_declare (l : list SDL_DECLARE) (typeID : Z)
  : option SDL_DECLARE :=
  find (fun d => dec_typeID d =? typeID) l.

Definition sdl_get_item (l : list SDL_ITEM) (typeID : Z) : option SDL_ITEM :=
  find (fun i => item_typeID i =? typeID) l.

Definition sdl_get_aggregate (l : list SDL_AGGREGATE) (typeID : Z)
  : option SDL_AGGREGATE :=
  find (fun a => agg_typeID a =? typeID) l.

Definition in_range (lo x hi : Z) : bool := (lo <=? x) && (x <=? hi).

Definition one_of (x : Z) (l : list Z) : bool := existsb (Z.eqb x) l.

(** Modelled from the spec: [sdl_sizeof] lives in opensdl_utility.c, which is
    not part of the sources at hand.  The spec gives every scalar type a
    "natural byte size", names the integers "from 8 to 128 bits", the
    bitfield hosts byte/word/long/quad/octa and lays two addresses out 8
    bytes apart; a user type has the size recorded in its entity.  Types the
    spec gives no size for have size 0 here. *)
Definition sdl_sizeof (context : SDL_CONTEXT) (item : Z) : Z :=
  if in_range SDL_K_BASE_TYPE_MIN item SDL_K_BASE_TYPE_MAX then
    if one_of item [SDL_K_TYPE_BYTE; SDL_K_TYPE_INT_B; SDL_K_TYPE_BITFLD;
                    SDL_K_TYPE_BITFLD_B; SDL_K_TYPE_CHAR; SDL_K_TYPE_BOOL]
    then 1
    else if one_of item [SDL_K_TYPE_WORD; SDL_K_TYPE_INT_W; SDL_K_TYPE_BITFLD_W]
    then 2
    else if one_of item [SDL_K_TYPE_LONG; SDL_K_TYPE_INT_L; SDL_K_TYPE_INT;
                         SDL_K_TYPE_BITFLD_L]
    then 4
    else if one_of item [SDL_K_TYPE_QUAD; SDL_K_TYPE_INT_Q; SDL_K_TYPE_INT_HW;
                         SDL_K_TYPE_HW_INT; SDL_K_TYPE_BITFLD_Q;
                         SDL_K_TYPE_ADDR; SDL_K_TYPE_ADDR_Q; SDL_K_TYPE_ADDR_HW;
                         SDL_K_TYPE_HW_ADDR; SDL_K_TYPE_PTR; SDL_K_TYPE_PTR_Q;
                         SDL_K_TYPE_PTR_HW]
    then 8
    else if one_of item [SDL_K_TYPE_ADDR_L; SDL_K_TYPE_PTR_L]
    then 4
    else if one_of item [SDL_K_TYPE_OCTA; SDL_K_TYPE_BITFLD_O]
    then 16
    else 0
  else if in_range SDL_K_DECLARE_MIN item SDL_K_DECLARE_MAX then
    match sdl_get_declare (declares context) item with
    | Some myDeclare => dec_size myDeclare
    | None => 0
    end
  else if in_range SDL_K_ITEM_MIN item SDL_K_ITEM_MAX then
    match sdl_get_item (items context) item with
    | Some myItem => item_size myItem
    | None => 0
    end
  else if in_range SDL_K_AGGREGATE_MIN item SDL_K_AGGREGATE_MAX then
    match sdl_get_aggregate (aggregates context) item with
    | Some myAggregate => agg_size myAggregate
    | None => 0
    end
  else 0.

(** Modelled from the spec: [sdl_isUnsigned] lives in opensdl_utility.c,
    which is not part of the sources at hand.  The dispatcher takes
    [abs (datatype)] as the type proper, so the sign of the value handed over
    by the parser carries the signedness; the call leaves the type proper in
    [datatype]. *)
Definition sdl_isUnsigned (datatype : Z) : bool * Z :=
  (datatype <? 0, Z.abs datatype).

(** ** Tag resolver: [_sdl_get_tag] *)

(** The loop over an explicit tag:
    [for (ii = len - 1; ((ii > 0) && (done == false)); ii--)], where storing
    ['\0'] at [ii] ends the C string there. *)
Fixpoint trim_tail_loop (ii : nat) (retVal : string) : string :=
  match ii with
  | O => retVal
  | S ii' =>
      match String.get ii retVal with
      | Some c =>
          if Ascii.eqb c "_"
          then trim_tail_loop ii' (String.substring 0 ii retVal)
          else retVal
      | None => retVal
      end
  end.

Definition default_tag (datatype : Z) : string :=
  nth (Z.to_nat datatype) _defaultTag EmptyString.

(** [fuel] bounds the depth of the recursion through user types; the result
    is [None] when the C function would read outside the tag ([len - 1]
    wraps for an empty explicit tag), call [strlen (NULL)], or when the depth
    is exhausted.  The inner option is the returned pointer. *)
Fixpoint _sdl_get_tag (fuel : nat) (context : SDL_CONTEXT)
  (tag : option string) (datatype : Z) (lower : bool)
  : option (option string) :=
  match fuel with
  | O => None
  | S fuel' =>
      match tag with
      | None =>
          retVal <-
            (if datatype =? SDL_K_TYPE_CONST then
               Some (Some (default_tag SDL_K_TYPE_CONST))
             else if in_range SDL_K_BASE_TYPE_MIN datatype SDL_K_BASE_TYPE_MAX
             then Some (Some (default_tag datatype))
             else if in_range SDL_K_DECLARE_MIN datatype SDL_K_DECLARE_MAX then
               match sdl_get_declare (declares context) datatype with
               | Some myDeclare =>
                   if 0 <? strlen (dec_tag myDeclare)
                   then Some (Some (dec_tag myDeclare))
                   else _sdl_get_tag fuel' context tag (dec_typeID myDeclare)
                          lower
               | None => Some (Some (default_tag SDL_K_TYPE_ANY))
               end
             else if in_range SDL_K_ITEM_MIN datatype SDL_K_ITEM_MAX then
               match sdl_get_item (items context) datatype with
               | Some myItem =>
                   myTag <- item_tag myItem ;;
                   if 0 <? strlen myTag
                   then Some (Some myTag)
                   else _sdl_get_tag fuel' context tag (item_typeID myItem)
                          lower
               | None => Some (Some (default_tag SDL_K_TYPE_ANY))
               end
             else if in_range SDL_K_AGGREGATE_MIN datatype SDL_K_AGGREGATE_MAX
             then
               match sdl_get_aggregate (aggregates context) datatype with
               | Some myAggregate =>
                   myTag <- agg_tag myAggregate ;;
                   if 0 <? strlen myTag
                   then Some (Some myTag)
                   else _sdl_get_tag fuel' context tag
                          (agg_typeID myAggregate) lower
               | None => Some (Some (default_tag SDL_K_TYPE_ANY))
               end
             else Some None) ;;
          if lower then
            match retVal with
            | Some s => Some (Some (str_tolower s))
            | None => None
            end
          else Some retVal
      | Some retVal =>
          match String.length retVal with
          | O => None
          | S last => Some (Some (trim_tail_loop last retVal))
          end
      end
  end.

(** The tag of the spec's first rule: the explicit tag without its trailing
    underscores. *)
Fixpoint strip_trailing_underscores (s : string) : string :=
  match s with
  | EmptyString => EmptyString
  | String c s' =>
      match strip_trailing_underscores s' with
      | EmptyString => if Ascii.eqb c "_" then EmptyString else String c EmptyString
      | t => String c t
      end
  end.

Fixpoint only_underscores (s : string) : bool :=
  match s with
  | EmptyString => true
  | String c s' => Ascii.eqb c "_" && only_underscores s'
  end.

(** ** Constants: [_sdl_create_constant] and [_sdl_queue_constant] *)

(** [size] is an [int] parameter. *)
Definition _sdl_create_constant (id : string) (prefix : option string)
  (tag : string) (comment typeName : option string) (radix : SDL_RADIX)
  (value : Z) (string : option string) (size : Z) : SDL_CONSTANT :=
  match string with
  | None =>
      mkConstant id prefix tag comment typeName radix SDL_K_CONST_NUM value
        None (to_int size)
  | Some _ =>
      mkConstant id prefix tag comment typeName radix SDL_K_CONST_STR 0
        string (to_int size)
  end.

(** The constant joins the tail of [context->constants]; the status of the
    back ends ([sdl_call_constant]) is the result, which every caller in the
    layout engine drops. *)
Definition _sdl_queue_constant (context : SDL_CONTEXT) (myConst : SDL_CONSTANT)
  : SDL_CONTEXT :=
  set_constants context (constants context ++ [myConst]).

(** ** Member predicates *)

(** Modelled from the spec: [sdl_isItem], [sdl_isComment] and
    [sdl_isBitfield] live in opensdl_utility.c, which is not part of the
    sources at hand.  A member is "a tagged variant of Item, Subaggregate or
    Comment"; the dispatcher tests [sdl_isComment] only under [sdl_isItem],
    so a comment counts as an item and only a subaggregate does not.  A
    bitfield is an item whose type is [bitfield], "generic and host-sized". *)
Definition sdl_isItem (member : SDL_MEMBERS) : bool :=
  match member with
  | Member_Subaggr _ _ _ _ _ => false
  | _ => true
  end.

Definition sdl_isComment (member : SDL_MEMBERS) : bool :=
  match member with
  | Member_Comment _ _ => true
  | _ => false
  end.

Definition sdl_isBitfield (member : SDL_MEMBERS) : bool :=
  match member with
  | Member_Item _ _ _ item =>
      one_of (item_type item)
        [SDL_K_TYPE_BITFLD; SDL_K_TYPE_BITFLD_B; SDL_K_TYPE_BITFLD_W;
         SDL_K_TYPE_BITFLD_L; SDL_K_TYPE_BITFLD_Q; SDL_K_TYPE_BITFLD_O]
  | _ => false
  end.

(** [member->offset] (a comment block is never given one). *)
Definition member_offset (member : SDL_MEMBERS) : Z :=
  match member with
  | Member_Item _ _ offset _ => offset
  | Member_Subaggr _ _ offset _ _ => offset
  | Member_Comment _ _ => 0
  end.

Definition member_top (member : SDL_MEMBERS) : bool :=
  match member with
  | Member_Item top _ _ _ => top
  | Member_Subaggr top _ _ _ _ => top
  | Member_Comment top _ => top
  end.

Definition member_item (member : SDL_MEMBERS) : option SDL_ITEM :=
  match member with
  | Member_Item _ _ _ item => Some item
  | _ => None
  end.

(** [member->item] read on a node whose populated arm is a comment or a
    subaggregate: the bytes of that arm seen through the layout of
    [SDL_ITEM].  The layout of the union is fixed by opensdl_defs.h, so the
    view is a parameter of the development. *)
Variable foreign_item : SDL_MEMBERS -> SDL_ITEM.

Definition item_arm (member : SDL_MEMBERS) : SDL_ITEM :=
  match member with
  | Member_Item _ _ _ item => item
  | _ => foreign_item member
  end.

(** The member at [memberList->blink] after the comments were stepped over,
    or [None] for [NULL]. *)
Definition last_member (memberList : list SDL_MEMBERS) : option SDL_MEMBERS :=
  find (fun m => negb (sdl_isComment m)) (rev memberList).

(** ** Sizes of members *)

(** The size of an item as the layout engine computes it in four places:
    size times length (or precision), plus the length word of a varying
    string or the sign byte of a decimal. *)
Definition item_real_size (item : SDL_ITEM) : Z :=
  let length :=
    if one_of (item_type item) [SDL_K_TYPE_CHAR; SDL_K_TYPE_CHAR_VARY]
    then item_length item
    else if item_type item =? SDL_K_TYPE_DECIMAL then item_precision item
    else 1 in
  let length := if length =? 0 then 1 else length in
  let realSize := item_size item * length in
  if item_type item =? SDL_K_TYPE_CHAR_VARY then realSize + 2
  else if item_type item =? SDL_K_TYPE_DECIMAL then realSize + 1
  else realSize.

(** [int dimension = 1; if (item.dimension == true) dimension =
    item.hbound - item.lbound + 1;]: the number of elements, kept in an
    [int]. *)
Definition item_cardinality (item : SDL_ITEM) : Z :=
  if item_dimension item
  then to_int (item_hbound item - item_lbound item + 1)
  else 1.

Definition subaggr_cardinality (subaggr : SDL_SUBAGGR) : Z :=
  if sub_dimension subaggr
  then to_int (sub_hbound subaggr - sub_lbound subaggr + 1)
  else 1.

(** [int availBits = (item.size * 8) - item.bitOffset - item.length;] *)
Definition availBits (item : SDL_ITEM) : Z :=
  to_int (item_size item * 8 - item_bitOffset item - item_length item).

(** ** Bitfield packer *)

(** [_sdl_fill_bitfield]: the filler is a copy of [member] with a new id, the
    given length, no mask and the bit offset [member->item.bitOffset + 1]; it
    joins the tail of the member list. *)
Definition _sdl_fill_bitfield (memberList : list SDL_MEMBERS)
  (member : SDL_MEMBERS) (bits number : Z) : option (list SDL_MEMBERS) :=
  match member with
  | Member_Item top type offset item =>
      let filler := set_item_id item (filler_id number) in
      let filler := set_item_length filler bits in
      let filler := set_item_mask filler false in
      let filler := set_item_bitOffset filler (item_bitOffset item + 1) in
      Some (memberList ++ [Member_Item top type offset filler])
  | _ => None
  end.

(** The four tests of [_sdl_check_bitfieldSizes] on the total [length]. *)
Definition resize_type (type length : Z) : Z :=
  let type :=
    if (type =? SDL_K_TYPE_BITFLD_B) && (length >? 8)
    then SDL_K_TYPE_BITFLD_W else type in
  let type :=
    if (type =? SDL_K_TYPE_BITFLD_W) && (length >? 16)
    then SDL_K_TYPE_BITFLD_L else type in
  let type :=
    if (type =? SDL_K_TYPE_BITFLD_L) && (length >? 32)
    then SDL_K_TYPE_BITFLD_Q else type in
  let type :=
    if (type =? SDL_K_TYPE_BITFLD_L) && (length >? 64)
    then SDL_K_TYPE_BITFLD_Q else type in
  type.

(** The four tests of [_sdl_determine_offsets] on the length of the first
    bitfield of a run. *)
Definition resize_first_type (type length : Z) : Z :=
  let type :=
    if (type =? SDL_K_TYPE_BITFLD_B) && (length >? 8)
    then SDL_K_TYPE_BITFLD_W else type in
  let type :=
    if (type =? SDL_K_TYPE_BITFLD_W) && (length >? 16)
    then SDL_K_TYPE_BITFLD_L else type in
  let type :=
    if (type =? SDL_K_TYPE_BITFLD_L) && (length >? 32)
    then SDL_K_TYPE_BITFLD_Q else type in
  let type :=
    if (type =? SDL_K_TYPE_BITFLD_L) && (length >? 32)
    then SDL_K_TYPE_BITFLD_Q else type in
  type.

(** [prevMember] is an item of one of the five host-sized bitfield types that
    the user did not size. *)
Definition resizable (prevMember : SDL_MEMBERS) : bool :=
  match prevMember with
  | Member_Item _ _ _ item =>
      one_of (item_type item)
        [SDL_K_TYPE_BITFLD_B; SDL_K_TYPE_BITFLD_W; SDL_K_TYPE_BITFLD_L;
         SDL_K_TYPE_BITFLD_Q; SDL_K_TYPE_BITFLD_O]
      && negb (item_sizedBitfield item)
  | _ => false
  end.

Definition map_item (f : SDL_ITEM -> SDL_ITEM) (member : SDL_MEMBERS)
  : SDL_MEMBERS :=
  match member with
  | Member_Item top type offset item => Member_Item top type offset (f item)
  | _ => member
  end.

Definition member_length (member : SDL_MEMBERS) : Z :=
  match member with
  | Member_Item _ _ _ item => item_length item
  | _ => 0
  end.

(** [member->item.type] is resized for [length] bits; [item.size] follows. *)
Definition resize_member (context : SDL_CONTEXT) (length : Z)
  (member : SDL_MEMBERS) : SDL_MEMBERS :=
  map_item
    (fun item =>
       let type := resize_type (item_type item) length in
       set_item_size (set_item_type item type) (sdl_sizeof context type))
    member.

(** [member->item.type = prevMember->item.type;
     member->item.size = prevMember->item.size;] *)
Definition copy_host (prevMember member : SDL_MEMBERS) : SDL_MEMBERS :=
  match prevMember with
  | Member_Item _ _ _ prev =>
      map_item
        (fun item =>
           set_item_size (set_item_type item (item_type prev)) (item_size prev))
        member
  | _ => member
  end.

(** [_sdl_check_bitfieldSizes] called for a [member] of the list.  [before]
    holds the members in front of [member], the nearest first (the order of
    the [blink] walk); [myUpdated] is the function's static flag, threaded
    through the calls.  The result is the members in front of [member] after
    the call, [member] itself and the flag. *)
Fixpoint check_bitfieldSizes_at (context : SDL_CONTEXT)
  (before : list SDL_MEMBERS) (member : SDL_MEMBERS) (length : Z)
  (myUpdated : bool) : option (list SDL_MEMBERS * SDL_MEMBERS * bool) :=
  match before with
  | [] =>
      if myUpdated then None
      else Some ([], resize_member context length member, true)
  | prevMember :: before' =>
      if sdl_isComment prevMember then
        '(before'', member', updated) <-
          check_bitfieldSizes_at context before' member length myUpdated ;;
        Some (prevMember :: before'', member', updated)
      else if resizable prevMember then
        let length := length + member_length prevMember in
        '(before'', prevMember', updated) <-
          check_bitfieldSizes_at context before' prevMember length myUpdated ;;
        if updated
        then Some (prevMember' :: before'', copy_host prevMember' member, true)
        else Some (prevMember' :: before'',
                   resize_member context length member, true)
      else Some (before, member, myUpdated)
  end.

(** The first call, with [member == NULL]: the walk starts at the tail of
    the list and [newMember] takes over the host of the last bitfield. *)
Fixpoint check_bitfieldSizes_first (context : SDL_CONTEXT)
  (before : list SDL_MEMBERS) (length : Z) (newMember : SDL_MEMBERS)
  : option (list SDL_MEMBERS * SDL_MEMBERS) :=
  match before with
  | [] => None
  | prevMember :: before' =>
      if sdl_isComment prevMember then
        '(before'', newMember') <-
          check_bitfieldSizes_first context before' length newMember ;;
        Some (prevMember :: before'', newMember')
      else if resizable prevMember then
        let length := length + member_length prevMember in
        '(before'', prevMember', _) <-
          check_bitfieldSizes_at context before' prevMember length false ;;
        Some (prevMember' :: before'', copy_host prevMember' newMember)
      else Some (before, newMember)
  end.

Definition _sdl_check_bitfieldSizes (context : SDL_CONTEXT)
  (memberList : list SDL_MEMBERS) (length : Z) (newMember : SDL_MEMBERS)
  : option (list SDL_MEMBERS * SDL_MEMBERS) :=
  '(before, newMember') <-
    check_bitfieldSizes_first context (rev memberList) length newMember ;;
  Some (rev before, newMember').

(** ** Layout engine: [_sdl_determine_offsets] *)

Definition set_member_offset (member : SDL_MEMBERS) (offset : Z) : SDL_MEMBERS :=
  match member with
  | Member_Item top type _ item => Member_Item top type offset item
  | Member_Subaggr top type _ subaggr members =>
      Member_Subaggr top type offset subaggr members
  | Member_Comment _ _ => member
  end.

(** The padding in front of a member: nothing for [SDL_K_NOALIGN], up to the
    natural size for [SDL_K_ALIGN], up to the alignment otherwise.  [%] is
    the C remainder; a zero divisor is undefined.  The remainder and the
    padding are both stored in [int adjustment]. *)
Definition alignment_adjustment (offset alignment natural : Z) : option Z :=
  if alignment =? SDL_K_NOALIGN then Some 0
  else
    let boundary := if alignment =? SDL_K_ALIGN then natural else alignment in
    if boundary =? 0 then None
    else
      let adjustment := to_int (Z.rem offset boundary) in
      Some (if adjustment =? 0 then adjustment
            else to_int (boundary - adjustment)).

(** A run is sealed behind [prevMember]: the bits left in its host,
    [availBits], become a filler when there are any, unless the parent is a
    union; [context->fillerCount++] numbers the filler. *)
Definition seal_run (context : SDL_CONTEXT) (memberList : list SDL_MEMBERS)
  (prevMember : SDL_MEMBERS) (parentIsUnion : bool)
  : option (SDL_CONTEXT * list SDL_MEMBERS) :=
  prevIt <- member_item prevMember ;;
  if (availBits prevIt >? 0) && negb parentIsUnion then
    memberList' <-
      _sdl_fill_bitfield memberList prevMember (availBits prevIt)
        (fillerCount context) ;;
    Some (set_fillerCount context (fillerCount context + 1), memberList')
  else Some (context, memberList).

(** [member->item.type] of a bitfield sized by the user is resized for its
    own length when it opens a run; [item.size] follows. *)
Definition resize_first_member (context : SDL_CONTEXT) (member : SDL_MEMBERS)
  : SDL_MEMBERS :=
  map_item
    (fun item =>
       if item_sizedBitfield item then
         let type := resize_first_type (item_type item) (item_length item) in
         set_item_size (set_item_type item type) (sdl_sizeof context type)
       else item)
    member.

(** [parent] is the subaggregate behind [member->header.parent], or [None]
    when the parent is the aggregate itself. *)
Definition _sdl_determine_offsets (context : SDL_CONTEXT)
  (member : SDL_MEMBERS) (memberList : list SDL_MEMBERS)
  (parentIsUnion : bool) (parent : option SDL_SUBAGGR)
  : option (SDL_CONTEXT * SDL_MEMBERS * list SDL_MEMBERS) :=
  if sdl_isComment member then Some (context, member, memberList)
  else
    let prevMember := last_member memberList in
    let prevItem :=
      match prevMember with
      | Some prev => sdl_isItem prev
      | None => false
      end in
    let prevBitfield :=
      match prevMember with
      | Some prev => sdl_isBitfield prev
      | None => false
      end in
    '(context, member, memberList) <-
      (if sdl_isBitfield member then
         if negb prevBitfield then
           (* A new run of bits starts behind the previous member. *)
           let member := map_item (fun i => set_item_bitOffset i 0) member in
           offset <-
             match prevMember with
             | Some prev =>
                 if prevItem then
                   prevIt <- member_item prev ;;
                   Some (member_offset prev
                         + item_real_size prevIt * item_cardinality prevIt)
                 else
                   match prev with
                   | Member_Subaggr _ type offset subaggr _ =>
                       let size :=
                         if negb (type =? SDL_K_TYPE_UNION)
                         then sub_size subaggr * subaggr_cardinality subaggr
                         else 0 in
                       Some (offset + size)
                   | _ => None
                   end
             | None =>
                 if negb (member_top member) then
                   subagg <- parent ;;
                   Some (sub_offset subagg)
                 else Some 0
             end ;;
           let member := set_member_offset member offset in
           Some (context, resize_first_member context member, memberList)
         else
           (* The new member and the previous member are both BITFIELDs. *)
           item <- member_item member ;;
           '(memberList, member) <-
             (if negb (item_sizedBitfield item)
              then _sdl_check_bitfieldSizes context memberList
                     (item_length item) member
              else Some (memberList, member)) ;;
           prev <- last_member memberList ;;
           prevIt <- member_item prev ;;
           item <- member_item member ;;
           if (item_size item =? item_size prevIt)
              && (item_length item <=? availBits prevIt)
           then
             let member :=
               map_item
                 (fun i =>
                    set_item_bitOffset i
                      (item_bitOffset prevIt + item_length prevIt))
                 member in
             Some (context, set_member_offset member (member_offset prev),
                   memberList)
           else
             let member := map_item (fun i => set_item_bitOffset i 0) member in
             let member :=
               set_member_offset member (member_offset prev + item_size prevIt) in
             '(context, memberList) <-
               seal_run context memberList prev parentIsUnion ;;
             Some (context, member, memberList)
       else
         (* We are not inserting a BITFIELD, but maybe behind one. *)
         '(context, memberList) <-
           match prevMember with
           | Some prev =>
               if prevBitfield
               then seal_run context memberList prev parentIsUnion
               else Some (context, memberList)
           | None => Some (context, memberList)
           end ;;
         match prevMember with
         | Some prev =>
             if prevItem && negb parentIsUnion then
               prevIt <- member_item prev ;;
               Some (context,
                     set_member_offset member
                       (member_offset prev
                        + item_real_size prevIt * item_cardinality prevIt),
                     memberList)
             else if negb parentIsUnion then
               match prev with
               | Member_Subaggr _ _ offset subaggr _ =>
                   Some (context,
                         set_member_offset member
                           (offset
                            + sub_size subaggr * subaggr_cardinality subaggr),
                         memberList)
               | _ => None
               end
             else
               Some (context, set_member_offset member (member_offset prev),
                     memberList)
         | None => Some (context, set_member_offset member 0, memberList)
         end) ;;
    (* Alignment of the new member, for ITEMs only. *)
    match member with
    | Member_Item top type offset item =>
        adjustment <-
          alignment_adjustment offset (item_alignment item) (item_size item) ;;
        let offset := offset + adjustment in
        Some (context,
              Member_Item top type offset (set_item_offset item offset),
              memberList)
    | Member_Subaggr top type offset subaggr members =>
        Some (context,
              Member_Subaggr top type offset (set_sub_offset subaggr offset)
                members,
              memberList)
    | Member_Comment _ _ => Some (context, member, memberList)
    end.

(** ** Mask and size constants: [_sdl_create_bitfield_constants] *)

Definition uint64_t (x : Z) : Z := x mod 2 ^ 64.

(** Conversion of a [uint64_t] to the [int64_t] parameter of
    [_sdl_create_constant] (two's complement). *)
Definition int64_t (x : Z) : Z :=
  let u := uint64_t x in
  if u <? 2 ^ 63 then u else u - 2 ^ 64.

(** [(uint64_t) pow ((double) 2, (double) length)]: the power of two is exact
    in a double; it truncates to 0 for a negative [length] and does not fit
    a [uint64_t] from 64 on, where the conversion is undefined. *)
Definition pow2_uint64 (length : Z) : option Z :=
  if length <? 0 then Some 0
  else if length <? 64 then Some (2 ^ length)
  else None.

(** [((uint64_t) pow (2, length) - 1) << bitOffset] in 64-bit unsigned
    arithmetic; the shift is undefined outside 0 .. 63. *)
Definition bitfield_mask (length bitOffset : Z) : option Z :=
  power <- pow2_uint64 length ;;
  if (0 <=? bitOffset) && (bitOffset <? 64)
  then Some (uint64_t (Z.shiftl (uint64_t (power - 1)) bitOffset))
  else None.

Definition prefix_or_empty (prefix : option string) : option string :=
  match prefix with
  | None => Some EmptyString
  | Some p => Some p
  end.

Definition bitfield_size_constant (context : SDL_CONTEXT) (item : SDL_ITEM)
  : SDL_CONSTANT :=
  _sdl_create_constant (item_id item) (prefix_or_empty (item_prefix item))
    (if sdl_all_lower (Some (item_id item)) then "s" else "S")
    None None SDL_K_RADIX_DEC (item_length item) None (wordSize context).

Definition bitfield_mask_constant (item : SDL_ITEM) (mask : Z) : SDL_CONSTANT :=
  _sdl_create_constant (item_id item) (prefix_or_empty (item_prefix item))
    (if sdl_all_lower (Some (item_id item)) then "m" else "M")
    None None SDL_K_RADIX_HEX (int64_t mask) None (item_size item).

(** The body of the loop for one member. *)
Definition create_member_constants (context : SDL_CONTEXT)
  (member : SDL_MEMBERS) : option SDL_CONTEXT :=
  if sdl_isBitfield member then
    item <- member_item member ;;
    let context :=
      _sdl_queue_constant context (bitfield_size_constant context item) in
    if item_mask item then
      mask <- bitfield_mask (item_length item) (item_bitOffset item) ;;
      Some (_sdl_queue_constant context (bitfield_mask_constant item mask))
    else Some context
  else Some context.

Fixpoint _sdl_create_bitfield_constants (context : SDL_CONTEXT)
  (memberList : list SDL_MEMBERS) : option SDL_CONTEXT :=
  match memberList with
  | [] => Some context
  | member :: rest =>
      context <- create_member_constants context member ;;
      _sdl_create_bitfield_constants context rest
  end.

(** ** Aggregate size: [_sdl_aggregate_size] *)

(** [memberList->blink], comments included. *)
Definition queue_tail (memberList : list SDL_MEMBERS) : option SDL_MEMBERS :=
  match rev memberList with
  | [] => None
  | member :: _ => Some member
  end.

(** The size of one member of a union, dimension included. *)
Definition union_member_size (member : SDL_MEMBERS) : Z :=
  match member with
  | Member_Item _ _ _ item => item_real_size item * item_cardinality item
  | Member_Comment _ _ => 0
  | Member_Subaggr _ _ _ subaggr _ =>
      sub_size subaggr * subaggr_cardinality subaggr
  end.

Definition largest_member (memberList : list SDL_MEMBERS) : Z :=
  fold_left
    (fun retVal member =>
       let size := union_member_size member in
       if size >? retVal then size else retVal)
    memberList 0.

(** A zero-filled member block. *)
Definition empty_item : SDL_ITEM :=
  mkItem EmptyString None None 0 0 0 false 0 false false 0 0 false 0 0 false 0 0 0 0
    false false false.

(** The constant for the size of an AGGREGATE or subaggregate. *)
Definition aggregate_size_constant (context : SDL_CONTEXT) (name : string)
  (prefix : option string) (retVal : Z) : SDL_CONSTANT :=
  _sdl_create_constant name (prefix_or_empty prefix)
    (if sdl_all_lower (Some name) then "s" else "S")
    None None SDL_K_RADIX_DEC retVal None (wordSize context).

(** The filler of an IMPLICIT UNION whose members are all smaller than its
    data type: an item of that type, numbered by [context->fillerCount].
    The data type and the alignment pass through [int] locals. *)
Definition union_filler (context : SDL_CONTEXT) (unionType alignment : Z)
  (prefix tag : option string) : SDL_ITEM :=
  let filler := set_item_type empty_item unionType in
  let filler := set_item_unsigned filler false in
  let filler := set_item_size filler (sdl_sizeof context unionType) in
  let filler := set_item_alignment filler (to_int alignment) in
  let filler := set_item_parentAlignment filler true in
  let filler := set_item_id filler (filler_id (fillerCount context)) in
  let filler := set_item_prefix filler prefix in
  set_item_tag filler tag.

(** The size of a UNION: the largest member, or the size of the data type
    of an IMPLICIT UNION when that is larger, in which case a filler of that
    type joins the queue. *)
Definition aggregate_size_union (context : SDL_CONTEXT) (prefix : option string)
  (unionType alignment : Z) (parent : option SDL_SUBAGGR)
  (memberList : list SDL_MEMBERS)
  : option (SDL_CONTEXT * list SDL_MEMBERS * Z) :=
  let unionSize := sdl_sizeof context unionType in
  let retVal := largest_member memberList in
  if retVal <? unionSize then
    let number := fillerCount context in
    tag <-
      _sdl_get_tag (S tag_depth)
        (set_fillerCount context (fillerCount context + 1)) None unionType
        (sdl_all_lower (Some (filler_id number))) ;;
    let filler := union_filler context unionType alignment prefix tag in
    '(context, filler, memberList) <-
      _sdl_determine_offsets
        (set_fillerCount context (fillerCount context + 1))
        (Member_Item false 0 0 filler) memberList true parent ;;
    Some (context, memberList ++ [filler], unionSize)
  else Some (context, memberList, retVal).

(** The size of a STRUCTURE: the offset of the member at the tail of the
    queue plus its size, dimension included.  A comment at the tail passes
    the test of [sdl_isItem] and is sized through [member->item] like an
    item, from the offset 0 of a block that was never placed. *)
Definition aggregate_size_structure (member : SDL_MEMBERS) : Z :=
  match member with
  | Member_Subaggr _ _ offset subaggr _ =>
      offset + sub_size subaggr * subaggr_cardinality subaggr
  | _ =>
      let item := item_arm member in
      member_offset member + item_real_size item * item_cardinality item
  end.

(** The part of [_sdl_aggregate_size] shared by AGGREGATEs and
    subaggregates, from the test for unused bits on: [name], [prefix],
    [isUnion], [unionType] and [alignment] are those of the aggregate being
    sized, [parent] is the subaggregate itself ([None] for an AGGREGATE). *)
Definition aggregate_size_members (context : SDL_CONTEXT) (name : string)
  (prefix : option string) (isUnion : bool) (unionType alignment : Z)
  (parent : option SDL_SUBAGGR) (memberList : list SDL_MEMBERS)
  : option (SDL_CONTEXT * list SDL_MEMBERS * Z) :=
  match queue_tail memberList with
  | Some member =>
      (* We may have just ended a BITFIELD, but without all the bits used. *)
      '(context, memberList) <-
        (if sdl_isBitfield member && negb isUnion
         then seal_run context memberList member isUnion
         else Some (context, memberList)) ;;
      '(context, memberList, retVal) <-
        (if isUnion
         then aggregate_size_union context prefix unionType alignment parent
                memberList
         else Some (context, memberList, aggregate_size_structure member)) ;;
      context <- _sdl_create_bitfield_constants context memberList ;;
      (* Create the constant for the size of the AGGREGATE/subaggregate. *)
      let constDef := aggregate_size_constant context name prefix retVal in
      Some (_sdl_queue_constant context constDef, memberList, retVal)
  | None =>
      let constDef := aggregate_size_constant context name prefix 0 in
      Some (_sdl_queue_constant context constDef, memberList, 0)
  end.

(** [_sdl_aggregate_size (context, aggr, NULL)]: the context, the member
    queue of [aggr] and the size.  The data type is kept in
    [int unionType]. *)
Definition _sdl_aggregate_size_aggr (context : SDL_CONTEXT)
  (aggr : SDL_AGGREGATE) : option (SDL_CONTEXT * list SDL_MEMBERS * Z) :=
  aggregate_size_members context (agg_id aggr) (agg_prefix aggr)
    (agg_aggType aggr =? SDL_K_TYPE_UNION) (to_int (agg_type aggr))
    (agg_alignment aggr) None (agg_members aggr).

(** The size against which a subaggregate is aligned: the largest member of
    a union, the first member that is no comment of a structure (read
    through [member->item.size], whatever the member is). *)
Definition subaggr_alignSize (context : SDL_CONTEXT) (isUnion : bool)
  (unionType : Z) (memberList : list SDL_MEMBERS) : Z :=
  if isUnion then
    fold_left
      (fun alignSize member =>
         match member with
         | Member_Item _ _ _ item =>
             if alignSize <? item_size item then item_size item
             else alignSize
         | Member_Subaggr _ _ _ subaggr _ =>
             if alignSize <? sub_size subaggr then sub_size subaggr
             else alignSize
         | Member_Comment _ _ => alignSize
         end)
      memberList (sdl_sizeof context unionType)
  else
    match find (fun m => negb (sdl_isComment m)) memberList with
    | Some member => item_size (item_arm member)
    | None => sdl_sizeof context unionType
    end.

(** [_sdl_aggregate_size (context, NULL, subAggr)] on the member node of
    the subaggregate: the context, the node (offsets and member queue
    updated) and the size. *)
Definition _sdl_aggregate_size_subaggr (context : SDL_CONTEXT)
  (self : SDL_MEMBERS) : option (SDL_CONTEXT * SDL_MEMBERS * Z) :=
  match self with
  | Member_Subaggr top type offset subAggr memberList =>
      let isUnion := sub_aggType subAggr =? SDL_K_TYPE_UNION in
      let unionType := to_int (sub_type subAggr) in
      '(offset, subAggr) <-
        match memberList with
        | [] => Some (offset, subAggr)
        | _ :: _ =>
            adjustment <-
              (if sub_alignment subAggr =? SDL_K_NOALIGN then Some 0
               else if sub_alignment subAggr =? SDL_K_ALIGN then
                 alignment_adjustment (sub_offset subAggr) SDL_K_ALIGN
                   (subaggr_alignSize context isUnion unionType memberList)
               else
                 alignment_adjustment (sub_offset subAggr)
                   (sub_alignment subAggr) 0) ;;
            let subAggr :=
              set_sub_offset subAggr (sub_offset subAggr + adjustment) in
            Some (sub_offset subAggr, subAggr)
        end ;;
      '(context, memberList, retVal) <-
        aggregate_size_members context (sub_id subAggr) (sub_prefix subAggr)
          isUnion unionType (sub_alignment subAggr) (Some subAggr) memberList ;;
      Some (context, Member_Subaggr top type offset subAggr memberList, retVal)
  | _ => None
  end.

(** ** The current aggregate

    [context->currentAggr] is either the AGGREGATE at the tail of
    [context->aggregates] ([aggregateDepth] 1) or the subaggregate reached
    from it along the last members ([aggregateDepth] - 1 steps): a
    subaggregate is opened at the tail of its parent and stays there until
    it is closed. *)

Definition split_tail {A : Type} (l : list A) : option (list A * A) :=
  match rev l with
  | [] => None
  | x :: front => Some (rev front, x)
  end.

(** The subaggregate [steps] levels below the last member of [memberList]. *)
Fixpoint open_subaggr (steps : nat) (memberList : list SDL_MEMBERS)
  : option SDL_MEMBERS :=
  match split_tail memberList with
  | Some (_, Member_Subaggr _ _ _ _ members as node) =>
      match steps with
      | O => Some node
      | S steps' => open_subaggr steps' members
      end
  | _ => None
  end.

Fixpoint store_subaggr (steps : nat) (memberList : list SDL_MEMBERS)
  (node : SDL_MEMBERS) : option (list SDL_MEMBERS) :=
  match split_tail memberList with
  | Some (front, Member_Subaggr top type offset subaggr members) =>
      match steps with
      | O => Some (front ++ [node])
      | S steps' =>
          members' <- store_subaggr steps' members node ;;
          Some (front ++ [Member_Subaggr top type offset subaggr members'])
      end
  | _ => None
  end.

(** What [myAggr] or [mySubAggr] points to. *)
Inductive SDL_CURRENT : Type :=
| CurrentAggr (myAggr : SDL_AGGREGATE)
| CurrentSubaggr (self : SDL_MEMBERS).

Definition get_current (context : SDL_CONTEXT) : option SDL_CURRENT :=
  '(_, aggr) <- split_tail (aggregates context) ;;
  if aggregateDepth context <=? 0 then None
  else if aggregateDepth context =? 1 then Some (CurrentAggr aggr)
  else
    node <-
      open_subaggr (Z.to_nat (aggregateDepth context - 2)) (agg_members aggr) ;;
    Some (CurrentSubaggr node).

Definition put_current (context : SDL_CONTEXT) (current : SDL_CURRENT)
  : option SDL_CONTEXT :=
  '(front, aggr) <- split_tail (aggregates context) ;;
  match current with
  | CurrentAggr myAggr => Some (set_aggregates context (front ++ [myAggr]))
  | CurrentSubaggr node =>
      members <-
        store_subaggr (Z.to_nat (aggregateDepth context - 2))
          (agg_members aggr) node ;;
      Some (set_aggregates context (front ++ [set_agg_members aggr members]))
  end.

Definition current_members (current : SDL_CURRENT) : list SDL_MEMBERS :=
  match current with
  | CurrentAggr myAggr => agg_members myAggr
  | CurrentSubaggr (Member_Subaggr _ _ _ _ members) => members
  | CurrentSubaggr _ => []
  end.

Definition set_current_members (current : SDL_CURRENT)
  (members : list SDL_MEMBERS) : SDL_CURRENT :=
  match current with
  | CurrentAggr myAggr => CurrentAggr (set_agg_members myAggr members)
  | CurrentSubaggr (Member_Subaggr top type offset subaggr _) =>
      CurrentSubaggr (Member_Subaggr top type offset subaggr members)
  | CurrentSubaggr _ => current
  end.

Definition current_subaggr (current : SDL_CURRENT) : option SDL_SUBAGGR :=
  match current with
  | CurrentSubaggr (Member_Subaggr _ _ _ subaggr _) => Some subaggr
  | _ => None
  end.

Definition map_current_aggr (f : SDL_AGGREGATE -> SDL_AGGREGATE)
  (current : SDL_CURRENT) : option SDL_CURRENT :=
  match current with
  | CurrentAggr myAggr => Some (CurrentAggr (f myAggr))
  | CurrentSubaggr _ => None
  end.

Definition map_current_subaggr (f : SDL_SUBAGGR -> SDL_SUBAGGR)
  (current : SDL_CURRENT) : SDL_CURRENT :=
  match current with
  | CurrentSubaggr (Member_Subaggr top type offset subaggr members) =>
      CurrentSubaggr (Member_Subaggr top type offset (f subaggr) members)
  | _ => current
  end.

Definition current_prefix (current : SDL_CURRENT) : option string :=
  match current with
  | CurrentAggr myAggr => agg_prefix myAggr
  | CurrentSubaggr (Member_Subaggr _ _ _ subaggr _) => sub_prefix subaggr
  | CurrentSubaggr _ => None
  end.

Definition current_marker (current : SDL_CURRENT) : option string :=
  match current with
  | CurrentAggr myAggr => agg_marker myAggr
  | CurrentSubaggr (Member_Subaggr _ _ _ subaggr _) => sub_marker subaggr
  | CurrentSubaggr _ => None
  end.

Definition current_alignment (current : SDL_CURRENT) : Z :=
  match current with
  | CurrentAggr myAggr => agg_alignment myAggr
  | CurrentSubaggr (Member_Subaggr _ _ _ subaggr _) => sub_alignment subaggr
  | CurrentSubaggr _ => 0
  end.

Definition current_aggType (current : SDL_CURRENT) : Z :=
  match current with
  | CurrentAggr myAggr => agg_aggType myAggr
  | CurrentSubaggr (Member_Subaggr _ _ _ subaggr _) => sub_aggType subaggr
  | CurrentSubaggr _ => 0
  end.

Definition is_current_aggr (current : SDL_CURRENT) : bool :=
  match current with
  | CurrentAggr _ => true
  | CurrentSubaggr _ => false
  end.

(** [_sdl_reset_options]: the strings still owned by the buffer are freed
    and the buffer is empty again. *)
Definition _sdl_reset_options (context : SDL_CONTEXT) : SDL_CONTEXT :=
  set_options context [].

(** [_sdl_checkAndSetOrigin]: the AGGREGATE at the tail of the queue takes
    [member] as its origin when it names it and has none yet; the origin
    pointer is kept as the id of the member it points to. *)
Definition _sdl_checkAndSetOrigin (context : SDL_CONTEXT) (member : SDL_MEMBERS)
  : option SDL_CONTEXT :=
  let id :=
    match member with
    | Member_Item _ _ _ item => Some (item_id item)
    | Member_Subaggr _ _ _ subaggr _ => Some (sub_id subaggr)
    | Member_Comment _ _ => None
    end in
  if aggregates_nextID context >? SDL_K_AGGREGATE_MIN then
    '(front, aggr) <- split_tail (aggregates context) ;;
    match agg_origin aggr, agg_origin_id aggr with
    | None, Some origin =>
        id <- id ;;
        if streq origin id
        then Some (set_aggregates context
                     (front ++ [set_agg_origin aggr (Some id)]))
        else Some context
    | _, _ => Some context
    end
  else Some context.

(** [sdl_aggregate]: an AGGREGATE is opened at module level, where no other
    aggregate is open. *)
Definition sdl_aggregate (context : SDL_CONTEXT) (name : string)
  (datatype aggType : Z) : option (SDL_CONTEXT * sdl_status) :=
  if processingEnabled context then
    if negb (aggregateDepth context =? 0) then None else
    let '(_unsigned, datatype) := sdl_isUnsigned datatype in
    tag <-
      _sdl_get_tag (S tag_depth) context None aggType
        (sdl_all_lower (Some name)) ;;
    let myAggr :=
      mkAggregate name None tag None None (aggregates_nextID context)
        (if in_range SDL_K_TYPE_BYTE datatype SDL_K_TYPE_OCTA
         then SDL_K_TYPE_UNION else aggType)
        datatype _unsigned 0 false None None false 0 0 false false false false
        0 [] in
    let context :=
      set_aggregates_nextID context (aggregates_nextID context + 1) in
    let context := set_aggregates context (aggregates context ++ [myAggr]) in
    let context := set_aggregateDepth context (aggregateDepth context + 1) in
    Some (context, SDL_NORMAL)
  else Some (context, SDL_NORMAL).

(** ** Pending options of [sdl_aggregate_member] *)

(** The locals of [sdl_aggregate_member] that the options set. *)
Record MEMBER_LOCALS : Type := mkLocals {
  loc_length : Z;
  loc_subType : Z;
  loc_bitfieldSized : bool;
  loc_mask : bool;
  loc_signed : bool
}.

Definition initial_locals : MEMBER_LOCALS :=
  mkLocals 0 SDL_K_TYPE_BYTE false false false.

(** The state of the loop over the options: the current aggregate,
    [myMember] (the member at the tail of its queue when that is an item),
    the dimension table and the locals. *)
Definition OPTION_STATE : Type :=
  (SDL_CURRENT * option SDL_MEMBERS * list SDL_DIMENSION * MEMBER_LOCALS)%type.

(** A store through [myMember->item]; the block has to be an item. *)
Definition write_item (f : SDL_ITEM -> SDL_ITEM) (myMember : SDL_MEMBERS)
  : option SDL_MEMBERS :=
  match myMember with
  | Member_Item top type offset item => Some (Member_Item top type offset (f item))
  | _ => None
  end.

(** The pattern of Fill, Typedef, Prefix, Tag and Dimension: the previous
    item, else the open subaggregate, else the AGGREGATE. *)
Definition option_target (fi : SDL_ITEM -> SDL_ITEM)
  (fs : SDL_SUBAGGR -> SDL_SUBAGGR) (fa : SDL_AGGREGATE -> SDL_AGGREGATE)
  (current : SDL_CURRENT) (myMember : option SDL_MEMBERS)
  : option (SDL_CURRENT * option SDL_MEMBERS) :=
  match myMember with
  | Some m =>
      m' <- write_item fi m ;;
      Some (current, Some m')
  | None =>
      match current with
      | CurrentSubaggr _ => Some (map_current_subaggr fs current, None)
      | CurrentAggr myAggr => Some (CurrentAggr (fa myAggr), None)
      end
  end.

(** The pattern of Align, NoAlign and BaseAlign: each level is skipped when
    it has the alignment already, and the last level is [myAggr]. *)
Definition option_alignment (alignment : Z) (current : SDL_CURRENT)
  (myMember : option SDL_MEMBERS)
  : option (SDL_CURRENT * option SDL_MEMBERS) :=
  let at_aggregate :=
    match current with
    | CurrentSubaggr (Member_Subaggr _ _ _ subaggr _) =>
        if negb (sub_alignment subaggr =? alignment) then
          Some (map_current_subaggr
                  (fun s =>
                     set_sub_parentAlignment (set_sub_alignment s alignment)
                       false)
                  current,
                myMember)
        else None
    | CurrentSubaggr _ => None
    | CurrentAggr myAggr =>
        Some (CurrentAggr
                (set_agg_alignmentPresent (set_agg_alignment myAggr alignment)
                   true),
              myMember)
    end in
  match myMember with
  | Some (Member_Item top type offset item) =>
      if negb (item_alignment item =? alignment) then
        Some (current,
              Some (Member_Item top type offset
                      (set_item_parentAlignment
                         (set_item_alignment item alignment) false)))
      else at_aggregate
  | Some _ => None
  | None => at_aggregate
  end.

(** The pattern of Common, Global, Based and Origin: the AGGREGATE itself,
    before its first member. *)
Definition option_aggregate (fa : SDL_AGGREGATE -> SDL_AGGREGATE)
  (current : SDL_CURRENT) (myMember : option SDL_MEMBERS) : SDL_CURRENT :=
  match current, myMember with
  | CurrentAggr myAggr, None => CurrentAggr (fa myAggr)
  | _, _ => current
  end.

Definition get_dimension (dims : list SDL_DIMENSION) (dimension : Z)
  : option SDL_DIMENSION :=
  if dimension <? 0 then None else nth_error dims (Z.to_nat dimension).

Fixpoint release_dimension (dims : list SDL_DIMENSION) (dimension : nat)
  : list SDL_DIMENSION :=
  match dims, dimension with
  | [], _ => []
  | d :: dims', O => set_dim_inUse d false :: dims'
  | d :: dims', S n => d :: release_dimension dims' n
  end.

Definition member_option (state : OPTION_STATE) (opt : SDL_OPTION)
  : option OPTION_STATE :=
  let '(current, myMember, dims, locals) := state in
  let keep (r : SDL_CURRENT * option SDL_MEMBERS) : option OPTION_STATE :=
    Some (fst r, snd r, dims, locals) in
  match opt_option opt with
  | Align =>
      r <- option_alignment SDL_K_ALIGN current myMember ;; keep r
  | NoAlign =>
      r <- option_alignment SDL_K_NOALIGN current myMember ;; keep r
  | BaseAlign =>
      r <- option_alignment (opt_value opt) current myMember ;; keep r
  | Common =>
      keep (option_aggregate (fun a => set_agg_commonDef a true) current
              myMember, myMember)
  | Global =>
      keep (option_aggregate (fun a => set_agg_globalDef a true) current
              myMember, myMember)
  | Based =>
      keep (option_aggregate
              (fun a => set_agg_basedPtrName a (opt_string opt)) current
              myMember, myMember)
  | Origin =>
      keep (option_aggregate (fun a => set_agg_origin_id a (opt_string opt))
              current myMember, myMember)
  | Fill =>
      r <-
        option_target (fun i => set_item_fill i true)
          (fun s => set_sub_fill s true) (fun a => set_agg_fill a true)
          current myMember ;;
      keep r
  | Typedef =>
      r <-
        option_target (fun i => set_item_typeDef i true)
          (fun s => set_sub_typeDef s true) (fun a => set_agg_typeDef a true)
          current myMember ;;
      keep r
  | Prefix =>
      r <-
        option_target (fun i => set_item_prefix i (opt_string opt))
          (fun s => set_sub_prefix s (opt_string opt))
          (fun a => set_agg_prefix a (opt_string opt)) current myMember ;;
      keep r
  | Tag =>
      r <-
        option_target
          (fun i => set_item_tagSet (set_item_tag i (opt_string opt)) true)
          (fun s => set_sub_tag s (opt_string opt))
          (fun a => set_agg_tag a (opt_string opt)) current myMember ;;
      keep r
  | Marker =>
      match myMember with
      | None =>
          match current with
          | CurrentSubaggr _ =>
              keep (map_current_subaggr
                      (fun s => set_sub_marker s (opt_string opt)) current,
                    myMember)
          | CurrentAggr myAggr =>
              keep (CurrentAggr (set_agg_marker myAggr (opt_string opt)),
                    myMember)
          end
      | Some _ => Some state
      end
  | Dimension =>
      let dimension := opt_value opt in
      d <- get_dimension dims dimension ;;
      r <-
        option_target
          (fun i =>
             set_item_dimension
               (set_item_hbound (set_item_lbound i (dim_lbound d))
                  (dim_hbound d)) true)
          (fun s =>
             set_sub_dimension
               (set_sub_hbound (set_sub_lbound s (dim_lbound d))
                  (dim_hbound d)) true)
          (fun a =>
             set_agg_dimension
               (set_agg_hbound (set_agg_lbound a (dim_lbound d))
                  (dim_hbound d)) true)
          current myMember ;;
      Some (fst r, snd r, release_dimension dims (Z.to_nat dimension), locals)
  | Mask =>
      Some (current, myMember, dims,
            mkLocals (loc_length locals) (loc_subType locals)
              (loc_bitfieldSized locals) true (loc_signed locals))
  | Signed =>
      Some (current, myMember, dims,
            mkLocals (loc_length locals) (loc_subType locals)
              (loc_bitfieldSized locals) (loc_mask locals) true)
  | Length =>
      Some (current, myMember, dims,
            mkLocals (opt_value opt) (loc_subType locals)
              (loc_bitfieldSized locals) (loc_mask locals) (loc_signed locals))
  | SubType =>
      Some (current, myMember, dims,
            mkLocals (loc_length locals) (opt_value opt) true
              (loc_mask locals) (loc_signed locals))
  | _ => Some state
  end.

Fixpoint member_options (state : OPTION_STATE) (opts : list SDL_OPTION)
  : option OPTION_STATE :=
  match opts with
  | [] => Some state
  | opt :: opts' =>
      state <- member_option state opt ;;
      member_options state opts'
  end.

(** The options of the buffer applied for [sdl_aggregate_member]:
    [myMember] is taken from the tail of the current queue, the options are
    run, and the member goes back to its place. *)
Definition apply_member_options (context : SDL_CONTEXT) (current : SDL_CURRENT)
  : option (SDL_CONTEXT * SDL_CURRENT * MEMBER_LOCALS) :=
  match options context with
  | [] => Some (context, current, initial_locals)
  | opts =>
      let tail := split_tail (current_members current) in
      let myMember :=
        match tail with
        | Some (_, m) => if sdl_isItem m then Some m else None
        | None => None
        end in
      '(current, myMember, dims, locals) <-
        member_options (current, myMember, dimensions context, initial_locals)
          opts ;;
      let current :=
        match tail, myMember with
        | Some (front, _), Some m => set_current_members current (front ++ [m])
        | _, _ => current
        end in
      Some (set_dimensions context dims, current, locals)
  end.

(** ** [sdl_aggregate_member] *)

(** The inner [switch (subType)] of a bitfield: the host-sized type. *)
Definition bitfield_host_type (subType datatype : Z) : Z :=
  if subType =? SDL_K_TYPE_BYTE then SDL_K_TYPE_BITFLD_B
  else if subType =? SDL_K_TYPE_WORD then SDL_K_TYPE_BITFLD_W
  else if subType =? SDL_K_TYPE_LONG then SDL_K_TYPE_BITFLD_L
  else if subType =? SDL_K_TYPE_QUAD then SDL_K_TYPE_BITFLD_Q
  else if subType =? SDL_K_TYPE_OCTA then SDL_K_TYPE_BITFLD_O
  else datatype.

Definition is_address_type (datatype : Z) : bool :=
  one_of datatype
    [SDL_K_TYPE_ADDR; SDL_K_TYPE_ADDR_L; SDL_K_TYPE_ADDR_Q; SDL_K_TYPE_ADDR_HW;
     SDL_K_TYPE_HW_ADDR; SDL_K_TYPE_PTR; SDL_K_TYPE_PTR_L; SDL_K_TYPE_PTR_Q;
     SDL_K_TYPE_PTR_HW].

(** [switch (datatype)] on a new item: the fields that depend on the data
    type, the data type as the switch leaves it and the status. *)
Definition member_by_datatype (context : SDL_CONTEXT) (locals : MEMBER_LOCALS)
  (item : SDL_ITEM) (datatype : Z) : SDL_ITEM * Z * sdl_status :=
  if datatype =? SDL_K_TYPE_DECIMAL then
    (set_item_scale (set_item_precision item (precision context))
       (scale context),
     datatype, SDL_NORMAL)
  else if datatype =? SDL_K_TYPE_BITFLD then
    let length := loc_length locals in
    let item := set_item_length item (if length =? 0 then 1 else length) in
    let item := set_item_mask item (loc_mask locals) in
    let item := set_item_unsigned item (negb (loc_signed locals)) in
    let item := set_item_subType item (loc_subType locals) in
    let item := set_item_sizedBitfield item (loc_bitfieldSized locals) in
    let datatype := bitfield_host_type (loc_subType locals) datatype in
    let item := set_item_type item datatype in
    (item, datatype,
     if item_length item <? 0 then report SDL_ZEROLEN SDL_ABORT
     else SDL_NORMAL)
  else if one_of datatype [SDL_K_TYPE_CHAR; SDL_K_TYPE_CHAR_VARY] then
    (set_item_length item (loc_length locals), datatype, SDL_NORMAL)
  else if datatype =? SDL_K_TYPE_CHAR_STAR then
    (item, datatype, report SDL_INVUNKLEN SDL_ERREXIT)
  else if is_address_type datatype then
    let subType := loc_subType locals in
    (set_item_subType item subType, datatype,
     if in_range SDL_K_AGGREGATE_MIN subType SDL_K_AGGREGATE_MAX then
       match sdl_get_aggregate (aggregates context) subType with
       | Some lclAggr =>
           match agg_basedPtrName lclAggr with
           | None => report SDL_ADROBJBAS SDL_ERREXIT
           | Some _ => SDL_NORMAL
           end
       | None => SDL_NORMAL
       end
     else SDL_NORMAL)
  else (item, datatype, SDL_NORMAL).

(** The new member block, filled in from the current aggregate.
    [tmpDatatype] is [abs (datatype)], and [abs] works on [int]; the data
    type for the tag is kept in [int tagDatatype]. *)
Definition new_member (context : SDL_CONTEXT) (current : SDL_CURRENT)
  (locals : MEMBER_LOCALS) (name : string) (datatype aggType : Z)
  (lineComment startComment middleComment endComment : bool)
  : option (SDL_MEMBERS * sdl_status) :=
  let tmpDatatype := to_int (Z.abs (to_int datatype)) in
  let top := is_current_aggr current in
  if one_of aggType [SDL_K_TYPE_STRUCT; SDL_K_TYPE_UNION] then
    let type :=
      if in_range SDL_K_TYPE_BYTE tmpDatatype SDL_K_TYPE_OCTA
      then SDL_K_TYPE_UNION else aggType in
    let '(_unsigned, datatype) := sdl_isUnsigned datatype in
    tag <-
      _sdl_get_tag (S tag_depth) context None type
        (sdl_all_lower (Some name)) ;;
    let subaggr :=
      mkSubaggr name (current_prefix current) tag (current_marker current)
        type (current_alignment current) datatype _unsigned 0 0 false false
        false 0 0 true in
    Some (Member_Subaggr top type 0 subaggr [], SDL_NORMAL)
  else
    let type := tmpDatatype in
    if datatype =? SDL_K_TYPE_COMMENT then
      Some (Member_Comment top
              (mkComment name endComment lineComment middleComment
                 startComment),
            SDL_NORMAL)
    else if one_of type
              [SDL_K_TYPE_COMMENT; SDL_K_TYPE_STRUCT; SDL_K_TYPE_UNION]
    then None
    else
      let '(_unsigned, datatype) := sdl_isUnsigned datatype in
      let item := set_item_id empty_item name in
      let item := set_item_unsigned item _unsigned in
      let item := set_item_type item datatype in
      let '(item, datatype, retVal) :=
        member_by_datatype context locals item datatype in
      let item := set_item_prefix item (current_prefix current) in
      let tagDatatype :=
        if one_of datatype
             [SDL_K_TYPE_BITFLD_B; SDL_K_TYPE_BITFLD_W; SDL_K_TYPE_BITFLD_L;
              SDL_K_TYPE_BITFLD_Q; SDL_K_TYPE_BITFLD_O]
           && negb (item_sizedBitfield item)
        then SDL_K_TYPE_BITFLD else to_int datatype in
      tag <-
        _sdl_get_tag (S tag_depth) context None tagDatatype
          (sdl_all_lower (Some name)) ;;
      let item := set_item_tag item tag in
      let item := set_item_size item (sdl_sizeof context datatype) in
      let item :=
        if type =? SDL_K_TYPE_CHAR_VARY
        then set_item_size item (item_size item + item_length item)
        else item in
      let item := set_item_alignment item (current_alignment current) in
      let item := set_item_parentAlignment item true in
      Some (Member_Item top type 0 item, retVal).

(** [name] is [None] for a [NULL] name.  The entry point needs an open
    aggregate once processing is enabled. *)
Definition sdl_aggregate_member (context : SDL_CONTEXT) (name : option string)
  (datatype aggType : Z)
  (lineComment startComment middleComment endComment : bool)
  : option (SDL_CONTEXT * sdl_status) :=
  if processingEnabled context then
    current <- get_current context ;;
    '(context, current, locals) <- apply_member_options context current ;;
    match name with
    | Some name =>
        '(myMember, retVal) <-
          new_member context current locals name datatype aggType lineComment
            startComment middleComment endComment ;;
        context <- put_current context current ;;
        context <-
          (if negb (sdl_isComment myMember)
           then _sdl_checkAndSetOrigin context myMember
           else Some context) ;;
        current <- get_current context ;;
        '(context, myMember, memberList) <-
          _sdl_determine_offsets context myMember (current_members current)
            (current_aggType current =? SDL_K_TYPE_UNION)
            (current_subaggr current) ;;
        context <-
          put_current context
            (set_current_members current (memberList ++ [myMember])) ;;
        let context :=
          if sdl_isItem myMember then context
          else set_aggregateDepth context (aggregateDepth context + 1) in
        Some (_sdl_reset_options context, retVal)
    | None =>
        context <- put_current context current ;;
        Some (_sdl_reset_options context, report SDL_INVAGGRNAM SDL_ERREXIT)
    end
  else Some (_sdl_reset_options context, SDL_NORMAL).

(** ** [sdl_aggregate_compl] *)

(** [_sdl_iterate_members] with [_sdl_aggregate_callback] hands every member
    to the back ends; the results of the callbacks are dropped and the status
    it answers is the [SDL_NORMAL] it starts with. *)
Definition _sdl_iterate_members (members : list SDL_MEMBERS) : sdl_status :=
  SDL_NORMAL.

(** One option of the buffer at the end of an aggregate.  [myMember] is the
    member at the tail of the queue unless that is an item; the options store
    through [myMember->item], which a subaggregate does not have. *)
Definition compl_option (myMember : option SDL_MEMBERS)
  (dims : list SDL_DIMENSION) (opt : SDL_OPTION)
  : option (list SDL_DIMENSION) :=
  match opt_option opt with
  | Align | Fill | Mask | NoAlign | Signed | Typedef | Prefix | Tag
  | BaseAlign | Length =>
      match myMember with
      | Some _ => None
      | None => Some dims
      end
  | Dimension =>
      _ <- get_dimension dims (opt_value opt) ;;
      match myMember with
      | Some _ => None
      | None => Some (release_dimension dims (Z.to_nat (opt_value opt)))
      end
  | _ => Some dims
  end.

Fixpoint compl_options (myMember : option SDL_MEMBERS)
  (dims : list SDL_DIMENSION) (opts : list SDL_OPTION)
  : option (list SDL_DIMENSION) :=
  match opts with
  | [] => Some dims
  | opt :: opts' =>
      dims <- compl_option myMember dims opt ;;
      compl_options myMember dims opts'
  end.

(** The status of a completed aggregate: the name on END has to match, and
    the aggregate has to have members. *)
Definition compl_status (id : string) (name : option string)
  (members : list SDL_MEMBERS) : sdl_status :=
  let mismatch :=
    match name with
    | Some name => negb (streq id name)
    | None => false
    end in
  if mismatch then report SDL_MATCHEND SDL_ERREXIT
  else
    match members with
    | [] => report SDL_NULLSTRUCT SDL_ERREXIT
    | _ :: _ => SDL_NORMAL
    end.

Definition sdl_aggregate_compl (context : SDL_CONTEXT) (name : option string)
  : option (SDL_CONTEXT * sdl_status) :=
  if processingEnabled context then
    current <- get_current context ;;
    context <-
      match options context with
      | [] => Some context
      | opts =>
          let myMember :=
            match split_tail (current_members current) with
            | Some (_, m) => if sdl_isItem m then None else Some m
            | None => None
            end in
          dims <- compl_options myMember (dimensions context) opts ;;
          Some (set_dimensions context dims)
      end ;;
    let depth := aggregateDepth context in
    let context := set_aggregateDepth context (depth - 1) in
    match current with
    | CurrentAggr myAggr =>
        '(front, _) <- split_tail (aggregates context) ;;
        '(context, members, size) <- _sdl_aggregate_size_aggr context myAggr ;;
        let myAggr := set_agg_size (set_agg_members myAggr members) size in
        let context := set_aggregates context (front ++ [myAggr]) in
        let retVal := compl_status (agg_id myAggr) name (agg_members myAggr) in
        let retVal :=
          if sdl_status_eqb retVal SDL_NORMAL
          then sdl_call_aggregate myAggr false else retVal in
        let retVal :=
          match agg_members myAggr with
          | _ :: _ =>
              if sdl_status_eqb retVal SDL_NORMAL
              then _sdl_iterate_members (agg_members myAggr) else retVal
          | [] => retVal
          end in
        let retVal :=
          if sdl_status_eqb retVal SDL_NORMAL
          then sdl_call_aggregate myAggr true else retVal in
        Some (_sdl_reset_options context, retVal)
    | CurrentSubaggr self =>
        '(context, self, size) <- _sdl_aggregate_size_subaggr context self ;;
        match self with
        | Member_Subaggr top type offset mySubAggr members =>
            let mySubAggr := set_sub_size mySubAggr size in
            '(front, aggr) <- split_tail (aggregates context) ;;
            stored <-
              store_subaggr (Z.to_nat (depth - 2)) (agg_members aggr)
                (Member_Subaggr top type offset mySubAggr members) ;;
            let context :=
              set_aggregates context
                (front ++ [set_agg_members aggr stored]) in
            Some (_sdl_reset_options context,
                  compl_status (sub_id mySubAggr) name members)
        | _ => None
        end
    end
  else Some (_sdl_reset_options context, SDL_NORMAL).

(** The context as [main] sets it up before the first directive, for the
    languages given on the command line. *)
Definition initial_context (symbols : list (string * Z))
  (languages : list string) (wordSize : Z) : SDL_CONTEXT :=
  mkContext true [] symbols languages (map (fun _ => true) languages) [] [] []
    [] [] [] SDL_K_AGGREGATE_MIN [] 0 0 0 0 wordSize.

(** ** Reference definitions for the statements *)

(** The constants that the loop of [_sdl_create_bitfield_constants] queues
    for one member, in order. *)
Definition member_constants (context : SDL_CONTEXT) (member : SDL_MEMBERS)
  : option (list SDL_CONSTANT) :=
  if sdl_isBitfield member then
    item <- member_item member ;;
    if item_mask item then
      mask <- bitfield_mask (item_length item) (item_bitOffset item) ;;
      Some [bitfield_size_constant context item;
            bitfield_mask_constant item mask]
    else Some [bitfield_size_constant context item]
  else Some [].

(** The mask of the spec: [((2 ^ length) - 1) << bit_offset]. *)
Definition spec_mask (length bitOffset : Z) : Z :=
  Z.shiftl (2 ^ length - 1) bitOffset.

(** [context'] is [context] with more constants queued and, possibly,
    another filler count. *)
Definition queued (context context' : SDL_CONTEXT) (cs : list SDL_CONSTANT)
  : Prop :=
  context'
  = set_fillerCount (set_constants context (constants context ++ cs))
      (fillerCount context').

(** A filler is a copy of the member in front of it, apart from its id, its
    length, its mask flag and its bit offset. *)
Definition filler_of (item : SDL_ITEM) (bits number : Z) : SDL_ITEM :=
  set_item_bitOffset
    (set_item_mask (set_item_length (set_item_id item (filler_id number)) bits)
       false)
    (item_bitOffset item + 1).

(** The length that the options buffer holds for the next member: the
    value of its last Length option, 0 without one. *)
Definition pending_length (opts : list SDL_OPTION) : Z :=
  fold_left
    (fun length opt =>
       match opt_option opt with
       | Length => opt_value opt
       | _ => length
       end)
    opts 0.

(** The id of the aggregate or subaggregate that is being populated. *)
Definition current_id (current : SDL_CURRENT) : string :=
  match current with
  | CurrentAggr myAggr => agg_id myAggr
  | CurrentSubaggr (Member_Subaggr _ _ _ subaggr _) => sub_id subaggr
  | CurrentSubaggr _ => EmptyString
  end.

(** The layout of an item: id, byte offset, bit offset, length and size of
    the host. *)
Definition item_layout (member : SDL_MEMBERS)
  : option (string * Z * Z * Z * Z) :=
  match member with
  | Member_Item _ _ offset item =>
      Some (item_id item, offset, item_bitOffset item, item_length item,
            item_size item)
  | _ => None
  end.

(** The layout of the AGGREGATE at the tail of the queue, with its size. *)
Definition aggregate_layout (context : SDL_CONTEXT)
  : option (list (option (string * Z * Z * Z * Z)) * Z) :=
  match split_tail (aggregates context) with
  | Some (_, aggr) => Some (map item_layout (agg_members aggr), agg_size aggr)
  | None => None
  end.

(** A member that is a bitfield: the options buffer holds what the parser
    found behind BITFIELD, the member follows. *)
Definition bitfield_member (context : SDL_CONTEXT) (name : string)
  (opts : list SDL_OPTION) : option (SDL_CONTEXT * sdl_status) :=
  sdl_aggregate_member (set_options context opts) (Some name)
    SDL_K_TYPE_BITFLD SDL_K_TYPE_NONE false false false false.

(** [AGGREGATE name STRUCTURE; id BITFIELD options; ... END;] from the
    context of a fresh run. *)
Fixpoint bitfield_members (context : SDL_CONTEXT)
  (fields : list (string * list SDL_OPTION)) : option SDL_CONTEXT :=
  match fields with
  | [] => Some context
  | (name, opts) :: fields' =>
      '(context, _) <- bitfield_member context name opts ;;
      bitfield_members context fields'
  end.

Definition bitfield_structure (name : string)
  (fields : list (string * list SDL_OPTION)) (endName : option string)
  : option (SDL_CONTEXT * sdl_status) :=
  '(context, _) <-
    sdl_aggregate (initial_context [] ["cc"] 8) name SDL_K_TYPE_NONE
      SDL_K_TYPE_STRUCT ;;
  context <- bitfield_members context fields ;;
  sdl_aggregate_compl context endName.

Definition length_option (bits : Z) : SDL_OPTION := mkOption Length bits None.

(** The size recorded in [context'] for the aggregate or subaggregate that
    was being populated in [context]. *)
Definition closed_size (context context' : SDL_CONTEXT) : option Z :=
  '(_, aggr) <- split_tail (aggregates context') ;;
  if aggregateDepth context =? 1 then Some (agg_size aggr)
  else
    match
      open_subaggr (Z.to_nat (aggregateDepth context - 2)) (agg_members aggr)
    with
    | Some (Member_Subaggr _ _ _ subaggr _) => Some (sub_size subaggr)
    | _ => None
    end.

(** The host of an item: id, type of the host and its size in bytes. *)
Definition item_host (member : SDL_MEMBERS) : option (string * Z * Z) :=
  match member with
  | Member_Item _ _ _ item => Some (item_id item, item_type item, item_size item)
  | _ => None
  end.

Definition aggregate_hosts (context : SDL_CONTEXT)
  : option (list (option (string * Z * Z))) :=
  match split_tail (aggregates context) with
  | Some (_, aggr) => Some (map item_host (agg_members aggr))
  | None => None
  end.

(** The context of a result, [default] when there is none. *)
Definition result_context (r : option (SDL_CONTEXT * sdl_status))
  (default : SDL_CONTEXT) : SDL_CONTEXT :=
  match r with
  | Some (context, _) => context
  | None => default
  end.

Definition result_status (r : option (SDL_CONTEXT * sdl_status)) : sdl_status :=
  match r with
  | Some (_, status) => status
  | None => SDL_ABORT
  end.

(** A member union in which the item arm of a comment or of a subaggregate
    reads as a zero-filled item, for the runs of whole declarations. *)
Definition zero_filled_arm (member : SDL_MEMBERS) : SDL_ITEM := empty_item.

(** The layout that the spec gives for [f1 BITFIELD LENGTH 3; f2 BITFIELD
    LENGTH 5; f3 BITFIELD LENGTH 1]: bit offsets (0, 3, 0), byte offsets
    (0, 0, 1), size 2, a filler of 7 bits behind [f2] and one behind [f3]. *)
Definition spec_bitfield_packing
  (layout : list (option (string * Z * Z * Z * Z)) * Z) : Prop :=
  exists h1 h2 h3 h4 h5 id1 o1 b1 id2 o2 b2,
    layout
    = ([Some ("f1", 0, 0, 3, h1); Some ("f2", 0, 3, 5, h2);
        Some (id1, o1, b1, 7, h3); Some ("f3", 1, 0, 1, h4);
        Some (id2, o2, b2, 7, h5)], 2).

(** [a BITFIELD OCTAWORD LENGTH 8; b BITFIELD OCTAWORD LENGTH 60 MASK;]:
    [b] lies across bit 64 of its host. *)
Definition octaword_fields : list (string * list SDL_OPTION) :=
  [("a", [mkOption SubType SDL_K_TYPE_OCTA None; length_option 8]);
   ("b", [mkOption SubType SDL_K_TYPE_OCTA None; length_option 60;
          mkOption Mask 0 None])].

(** A bitfield of 3 bits at bit 2 of a byte host, with a mask. *)
Definition flag_item : SDL_ITEM :=
  set_item_mask
    (set_item_bitOffset
       (set_item_length
          (set_item_size
             (set_item_type (set_item_id empty_item "flag")
                SDL_K_TYPE_BITFLD_B)
             1)
          3)
       2)
    true.

Definition flag_member : SDL_MEMBERS :=
  Member_Item true SDL_K_TYPE_BITFLD 0 flag_item.

(** The context in which [AGGREGATE name STRUCTURE;] has been read. *)
Definition opened_structure (name : string) : SDL_CONTEXT :=
  result_context
    (sdl_aggregate (initial_context [] ["cc"] 8) name SDL_K_TYPE_NONE
       SDL_K_TYPE_STRUCT)
    (initial_context [] ["cc"] 8).

(** The context in which [AGGREGATE name STRUCTURE; field BITFIELD opts;]
    has been read. *)
Definition member_added (name field : string) (opts : list SDL_OPTION)
  : SDL_CONTEXT :=
  result_context (bitfield_member (opened_structure name) field opts)
    (opened_structure name).

(** ** Conditions under which a declaration has a result *)

(** The data type of the aggregate or subaggregate that is being populated:
    that of an implicit union, [SDL_K_TYPE_NONE] otherwise. *)
Definition current_type (current : SDL_CURRENT) : Z :=
  match current with
  | CurrentAggr myAggr => agg_type myAggr
  | CurrentSubaggr (Member_Subaggr _ _ _ subaggr _) => sub_type subaggr
  | CurrentSubaggr _ => 0
  end.

(** A bitfield that asks for a mask is shorter than 64 bits and starts at a
    bit from 0 to 63, where the 64-bit arithmetic of the mask is defined. *)
Definition mask_in_range (member : SDL_MEMBERS) : bool :=
  match member with
  | Member_Item _ _ _ item =>
      negb (item_mask item)
      || ((item_length item <? 64) && (0 <=? item_bitOffset item)
          && (item_bitOffset item <? 64))
  | _ => true
  end.

Definition masks_in_range (memberList : list SDL_MEMBERS) : bool :=
  forallb mask_in_range memberList.

(** The aggregate is sized by its members alone: a STRUCTURE, or a UNION
    that is not smaller than its data type and so takes no filler. *)
Definition sized_by_members (context : SDL_CONTEXT) (current : SDL_CURRENT)
  : bool :=
  negb (current_aggType current =? SDL_K_TYPE_UNION)
  || (sdl_sizeof context (to_int (current_type current))
      <=? largest_member (current_members current)).

(** [myMember] of [sdl_aggregate_compl]: the member at the tail of the
    queue when that is a subaggregate, [None] for [NULL]. *)
Definition end_member (current : SDL_CURRENT) : option SDL_MEMBERS :=
  match split_tail (current_members current) with
  | Some (_, m) => if sdl_isItem m then None else Some m
  | None => None
  end.

(** The options that go into the locals of [sdl_aggregate_member] and
    touch nothing else: Length, Mask, Signed and a sub-type. *)
Definition bitfield_option (opt : SDL_OPTION) : bool :=
  match opt_option opt with
  | Length | Mask | Signed | SubType => true
  | _ => false
  end.

(** The context in which [AGGREGATE name STRUCTURE; field BITFIELD opts;]
    and a line comment have been read. *)
Definition comment_added (name field : string) (opts : list SDL_OPTION)
  (text : string) : SDL_CONTEXT :=
  result_context
    (sdl_aggregate_member (member_added name field opts) (Some text)
       SDL_K_TYPE_COMMENT SDL_K_TYPE_NONE true false false false)
    (member_added name field opts).


(** The id and the length of an item, which the layout engine leaves as
    they are. *)
Definition item_id_length (member : SDL_MEMBERS) : option (string * Z) :=
  match member with
  | Member_Item _ _ _ item => Some (item_id item, item_length item)
  | _ => None
  end.


(** A bitfield of 60 bits at bit 8 of an octaword host, with a mask: it
    lies across bit 64. *)
Definition wide_item : SDL_ITEM :=
  set_item_mask
    (set_item_bitOffset
       (set_item_length
          (set_item_size
             (set_item_type (set_item_id empty_item "b")
                SDL_K_TYPE_BITFLD_O)
             16)
          60)
       8)
    true.

(** What is open when nothing is: a default for the look-ups at concrete
    inputs. *)
Definition current_or (r : option SDL_CURRENT) : SDL_CURRENT :=
  match r with
  | Some current => current
  | None => CurrentSubaggr flag_member
  end.

(** ** Reference definitions for the further properties *)

(** [n] underscores. *)
Fixpoint underscores (n : nat) : string :=
  match n with
  | O => EmptyString
  | S n' => String "_" (underscores n')
  end.

(** The last character of [s] is an underscore. *)
Fixpoint ends_with_underscore (s : string) : bool :=
  match s with
  | EmptyString => false
  | String c EmptyString => Ascii.eqb c "_"
  | String _ s' => ends_with_underscore s'
  end.

(** [m'] is [m] apart from the host of an item: its type and its size. *)
Definition same_but_host (m m' : SDL_MEMBERS) : Prop :=
  match m, m' with
  | Member_Item top type offset item, Member_Item top' type' offset' item' =>
      top' = top /\ type' = type /\ offset' = offset
      /\ item' = set_item_size (set_item_type item (item_type item'))
                   (item_size item')
  | _, _ => m' = m
  end.


(** The width in bits of a host-sized bitfield type, as the resizing tests
    take it: 8, 16, 32 and 64 bits for byte, word, longword and quadword. *)
Definition host_bits (type : Z) : Z :=
  if type =? SDL_K_TYPE_BITFLD_B then 8
  else if type =? SDL_K_TYPE_BITFLD_W then 16
  else if type =? SDL_K_TYPE_BITFLD_L then 32
  else if type =? SDL_K_TYPE_BITFLD_Q then 64
  else if type =? SDL_K_TYPE_BITFLD_O then 128
  else 0.

(** [context'] is [context] after [n] fillers were numbered. *)
Definition fillers_counted (context context' : SDL_CONTEXT) (n : nat) : Prop :=
  context' = set_fillerCount context (fillerCount context + Z.of_nat n).

(** The ITEMs have ids and type IDs of their own, and every type ID is
    below the next one to be handed out. *)
Definition items_well_formed (l : list SDL_ITEM) (nextID : Z) : Prop :=
  NoDup (map item_id l)
  /\ NoDup (map item_typeID l)
  /\ Forall (fun i => item_typeID i < nextID) l.



(** ** Sample data *)

(** A run with the symbols [debug] = 0 and [vms] = 1 for the languages [cc]
    and [ada], with words of 8 bytes. *)
Definition sample_context : SDL_CONTEXT :=
  initial_context [("debug", 0); ("vms", 1)] ["cc"; "ada"] 8.


Definition long_member : SDL_MEMBERS :=
  Member_Item true SDL_K_TYPE_LONG 0
    (set_item_alignment
       (set_item_size
          (set_item_type (set_item_id empty_item "l") SDL_K_TYPE_LONG) 4)
       4).

(** Two bitfields of 6 bits that the user did not size, in a byte host. *)
Definition six_bits (name : string) : SDL_MEMBERS :=
  Member_Item true SDL_K_TYPE_BITFLD 0
    (set_item_length
       (set_item_size
          (set_item_type (set_item_id empty_item name) SDL_K_TYPE_BITFLD_B)
          1)
       6).

(** The value of a result, [default] when there is none. *)
Definition result_or {A : Type} (r : option A) (default : A) : A :=
  match r with
  | Some a => a
  | None => default
  end.

Definition set_declares (c : SDL_CONTEXT) (v : list SDL_DECLARE)
  : SDL_CONTEXT :=
  mkContext (processingEnabled c) (condState c) (symbols c) (languages c)
    (langEnableVec c) (langCondList c) (options c) (dimensions c) v
    (items c) (aggregates c) (aggregates_nextID c) (constants c)
    (aggregateDepth c) (fillerCount c) (precision c) (scale c) (wordSize c).

(** A DECLAREd type without a tag, with the first type ID of its range. *)
Definition untagged_declare : SDL_DECLARE :=
  mkDeclare "handle" EmptyString SDL_K_DECLARE_MIN SDL_K_TYPE_LONG 4.

(** ** Module-level ITEMs: [_sdl_get_item] and [sdl_item] *)

(** [_sdl_get_item]: the first ITEM of the queue whose id is [name]
    ([strcmp]), [None] for [NULL]. *)
Definition _sdl_get_item (item : list SDL_ITEM) (name : string)
  : option SDL_ITEM :=
  find (fun i => streq (item_id i) name) item.

(** [_sdl_get_declare]: the same walk over the DECLAREs. *)
Definition _sdl_get_declare (declare : list SDL_DECLARE) (name : string)
  : option SDL_DECLARE :=
  find (fun d => streq (dec_id d) name) declare.

Definition set_items (c : SDL_CONTEXT) (v : list SDL_ITEM) : SDL_CONTEXT :=
  mkContext (processingEnabled c) (condState c) (symbols c) (languages c)
    (langEnableVec c) (langCondList c) (options c) (dimensions c)
    (declares c) v (aggregates c) (aggregates_nextID c) (constants c)
    (aggregateDepth c) (fillerCount c) (precision c) (scale c) (wordSize c).

(** [sdl_item]: [nextID] stands for [context->items.nextID]; the block that
    [sdl_allocate_block] hands out is zero-filled.  The branch that reports
    [SDL_ABORT] belongs to [if (myItem == NULL)], the test for an ITEM of
    that name. *)
Definition sdl_item (context : SDL_CONTEXT) (nextID : Z) (name : string)
  (datatype : Z) : SDL_CONTEXT * Z * sdl_status :=
  if processingEnabled context then
    match _sdl_get_item (items context) name with
    | None =>
        let '(_unsigned, datatype) := sdl_isUnsigned datatype in
        let myItem := set_item_id empty_item name in
        let myItem := set_item_typeID myItem nextID in
        let myItem := set_item_unsigned myItem _unsigned in
        let myItem := set_item_type myItem datatype in
        let myItem :=
          if datatype =? SDL_K_TYPE_DECIMAL
          then set_item_scale
                 (set_item_precision myItem (precision context))
                 (scale context)
          else myItem in
        let myItem := set_item_size myItem (sdl_sizeof context datatype) in
        (set_items context (items context ++ [myItem]), nextID + 1,
         SDL_NORMAL)
    | Some _ => (context, nextID, report SDL_ABORT SDL_ERREXIT)
    end
  else (context, nextID, SDL_NORMAL).

(** ** Literal lines: [sdl_literal] and [sdl_literal_end] *)

(** The back ends take a literal line and answer a status. *)
Variable sdl_call_literal : string -> sdl_status.

(** ['\n'], ['\f'] and ['\r']. *)
Definition is_line_end (c : ascii) : bool :=
  Ascii.eqb c "010" || Ascii.eqb c "012" || Ascii.eqb c "013".

(** The loop [while (((line[len-1] == '\n') || (line[len-1] == '\f') ||
    (line[len-1] == '\r')) && (len > 0)) line[--len] = '\0';] on the
    characters of the line, the last one first.  With nothing left the
    character in front of the line is read, but [len > 0] fails whatever it
    is, and the loop ends with the empty line. *)
Fixpoint trim_line_ends (reversed : list ascii) : list ascii :=
  match reversed with
  | [] => []
  | c :: rest =>
      if is_line_end c then trim_line_ends rest else reversed
  end.

(** [sdl_literal]: the line joins the tail of [literals]. *)
Definition sdl_literal (context : SDL_CONTEXT) (literals : list string)
  (line : string) : list string * sdl_status :=
  if processingEnabled context then
    let reversed := trim_line_ends (rev (list_ascii_of_string line)) in
    (literals ++ [string_of_list_ascii (rev reversed)], SDL_NORMAL)
  else (literals, SDL_NORMAL).

(** Modelled from the spec: [SDL_REMQUE] comes from opensdl_defs.h, which is
    not part of the sources at hand.  The lines are "released, in order",
    so it takes the entry at the head of the queue.  The loop is
    [while ((SDL_Q_EMPTY (literals) == false) && (retVal == SDL_NORMAL))]. *)
Fixpoint literal_end_loop (literals : list string) : list string * sdl_status :=
  match literals with
  | [] => ([], SDL_NORMAL)
  | line :: rest =>
      let retVal := sdl_call_literal line in
      if sdl_status_eqb retVal SDL_NORMAL then literal_end_loop rest
      else (rest, retVal)
  end.

(** [sdl_literal_end]: what stays in the queue and the status. *)
Definition sdl_literal_end (context : SDL_CONTEXT) (literals : list string)
  : list string * sdl_status :=
  if processingEnabled context then literal_end_loop literals
  else (literals, SDL_NORMAL).
(** * Properties *)

(** ** Values kept in an [int] *)

Lemma to_int_small (x : Z) : - 2 ^ 31 <= x < 2 ^ 31 -> to_int x = x.
Proof.
  intros Hx. unfold to_int. cbv zeta.
  destruct (Z_lt_le_dec x 0) as [Hneg|Hpos].
  - replace (x mod 2 ^ 32) with (x + 2 ^ 32).
    + destruct (Z.ltb_spec (x + 2 ^ 32) (2 ^ 31)); lia.
    + apply (Z.mod_unique x (2 ^ 32) (-1)); lia.
  - rewrite Z.mod_small by lia.
    destruct (Z.ltb_spec x (2 ^ 31)); lia.
Qed.

Lemma to_int_range (x : Z) : - 2 ^ 31 <= to_int x < 2 ^ 31.
Proof.
  unfold to_int. cbv zeta.
  pose proof (Z.mod_pos_bound x (2 ^ 32)) as Hmod.
  destruct (Z.ltb_spec (x mod 2 ^ 32) (2 ^ 31)); lia.
Qed.

(** The value kept differs from the value stored by a multiple of 2^32. *)
Lemma to_int_congruent (x : Z) : exists k, to_int x = x + k * 2 ^ 32.
Proof.
  unfold to_int. cbv zeta.
  pose proof (Z.div_mod x (2 ^ 32)) as Hdiv.
  destruct (Z.ltb_spec (x mod 2 ^ 32) (2 ^ 31)).
  - exists (- (x / 2 ^ 32)). lia.
  - exists (- (x / 2 ^ 32) - 1). lia.
Qed.

(** [abs] on a value whose magnitude fits an [int]. *)
Lemma to_int_abs (x k : Z) :
  Z.abs x = k -> k < 2 ^ 31 -> to_int (Z.abs (to_int x)) = k.
Proof.
  intros Habs Hk. rewrite (to_int_small x) by lia.
  rewrite Habs. apply to_int_small. lia.
Qed.


(** ** Conditional state machine *)

Lemma cond_state_eqb_eq (a b : SDL_COND_STATES) :
  cond_state_eqb a b = true <-> a = b.
Proof. destruct a, b; simpl; split; congruence. Qed.

Lemma sdl_status_eqb_eq (a b : sdl_status) :
  sdl_status_eqb a b = true <-> a = b.
Proof. destruct a, b; simpl; split; congruence. Qed.

Lemma report_cases (code other : sdl_status) :
  report code other = code \/ report code other = other.
Proof. unfold report. destruct (sdl_status_eqb _ _); auto. Qed.

Lemma report_recorded (code other : sdl_status) :
  sdl_set_message code = SDL_NORMAL -> report code other = code.
Proof. unfold report. intros ->. reflexivity. Qed.

(** The symbol loop finds a symbol exactly when the table binds it. *)
Lemma symbol_loop_done (symbol : string) (syms : list (string * Z))
  (enabled : bool) :
  snd (symbol_loop symbol syms enabled) = true <->
  exists value, In (symbol, value) syms.
Proof.
  induction syms as [|[name value] syms IH]; simpl.
  - split; [discriminate | intros [v []]].
  - unfold streq. destruct (String.eqb_spec symbol name) as [->|Hne]; simpl.
    + split; [intros _; exists value; auto | reflexivity].
    + rewrite IH. split; intros [v Hv]; exists v; [auto|].
      destruct Hv as [Heq|Hin]; [congruence | exact Hin].
Qed.

(** IFSYMBOL on a symbol without binding: the directive is taken, the gate
    keeps its value and the status is [SDL_SYMNOTDEF] once the message is
    recorded. *)
Lemma ifsymbol_not_defined (context : SDL_CONTEXT) (symbol : string) :
  In (SDL_CUR_COND_STATE context) [CondNone; CondIfLang; CondElse] ->
  (forall value, ~ In (symbol, value) (symbols context)) ->
  exists context',
    sdl_conditional context SDL_K_COND_SYMB (ExprSymbol symbol)
    = Some (context', report SDL_SYMNOTDEF SDL_ERREXIT)
    /\ condState context' = CondIfSymb :: condState context.
Proof.
  intros Hstate Hfree. unfold sdl_conditional.
  assert (Hguard :
    cond_state_eqb (SDL_CUR_COND_STATE context) CondNone
    || cond_state_eqb (SDL_CUR_COND_STATE context) CondIfLang
    || cond_state_eqb (SDL_CUR_COND_STATE context) CondElse = true).
  { simpl in Hstate.
    destruct Hstate as [<-|[<-|[<-|[]]]]; reflexivity. }
  rewrite Hguard.
  destruct (symbol_loop symbol (symbols (SDL_PUSH_COND_STATE context CondIfSymb))
              (processingEnabled (SDL_PUSH_COND_STATE context CondIfSymb)))
    as [enabled done] eqn:Hloop.
  assert (Hdone : done = false).
  { destruct done; [|reflexivity]. exfalso.
    assert (H : snd (symbol_loop symbol (symbols context)
                       (processingEnabled context)) = true).
    { change (symbols context)
        with (symbols (SDL_PUSH_COND_STATE context CondIfSymb)).
      change (processingEnabled context)
        with (processingEnabled (SDL_PUSH_COND_STATE context CondIfSymb)).
      rewrite Hloop. reflexivity. }
    apply symbol_loop_done in H. destruct H as [v Hv]. exact (Hfree v Hv). }
  subst done. eexists. split; [reflexivity|]. reflexivity.
Qed.

(** ELSE_IFSYMBOL never reports a symbol: whatever the symbol table holds,
    the status of a directive taken in state [CondIfSymb] is [SDL_NORMAL]. *)
Lemma else_ifsymbol_status (context : SDL_CONTEXT) (symbol : string) :
  SDL_CUR_COND_STATE context = CondIfSymb ->
  exists context',
    sdl_conditional context SDL_K_COND_ELSEIF (ExprSymbol symbol)
    = Some (context', SDL_NORMAL).
Proof.
  intros Hstate. unfold sdl_conditional. rewrite Hstate. simpl.
  destruct (symbol_loop _ _ _) as [enabled done].
  eexists. reflexivity.
Qed.

(** C6: ELSE_IFSYMBOL with a symbol that the symbol table does not bind,
    taken in the allowed state [CondIfSymb], returns [SDL_NORMAL] and not
    [SDL_SYMNOTDEF]; the gate is left as it was. *)
Theorem else_ifsymbol_unbound_symbol_is_normal :
  let context :=
    set_condState (initial_context [("defined", 1)] ["cc"] 64) [CondIfSymb] in
  (forall value, ~ In ("missing", value) (symbols context))
  /\ SDL_CUR_COND_STATE context = CondIfSymb
  /\ sdl_conditional context SDL_K_COND_ELSEIF (ExprSymbol "missing")
     = Some (set_condState context [CondElseIf], SDL_NORMAL).
Proof.
  simpl. split; [|split; reflexivity].
  intros value [H|[]]. discriminate H.
Qed.

(** C9: an END_IFSYMBOL taken in one of its allowed states ([CondIfSymb],
    [CondElseIf], [CondElse]) pops the state and leaves [processingEnabled]
    set, whatever the gate was before and whatever states remain open below;
    the status is [SDL_NORMAL]. *)
Theorem end_ifsymbol_enables_processing (context : SDL_CONTEXT)
  (expr : SDL_COND_EXPR) :
  In (SDL_CUR_COND_STATE context) [CondIfSymb; CondElseIf; CondElse] ->
  exists context',
    sdl_conditional context SDL_K_COND_END_SYMB expr
    = Some (context', SDL_NORMAL)
    /\ processingEnabled context' = true
    /\ condState context' = tl (condState context).
Proof.
  intros Hstate. unfold sdl_conditional.
  assert (Hguard :
    cond_state_eqb (SDL_CUR_COND_STATE context) CondIfSymb
    || cond_state_eqb (SDL_CUR_COND_STATE context) CondElseIf
    || cond_state_eqb (SDL_CUR_COND_STATE context) CondElse = true).
  { simpl in Hstate.
    destruct Hstate as [<-|[<-|[<-|[]]]]; reflexivity. }
  rewrite Hguard. eexists. split; [reflexivity|]. split; reflexivity.
Qed.

(** An END_IFSYMBOL in any other state is refused and changes nothing. *)
Lemma end_ifsymbol_refused (context : SDL_CONTEXT) (expr : SDL_COND_EXPR) :
  In (SDL_CUR_COND_STATE context) [CondNone; CondIfLang] ->
  sdl_conditional context SDL_K_COND_END_SYMB expr
  = Some (context, report SDL_INVCONDST SDL_ERREXIT).
Proof.
  intros Hstate. unfold sdl_conditional. simpl in Hstate.
  destruct Hstate as [<-|[<-|[]]]; reflexivity.
Qed.

(** ** Tag resolver *)

Lemma string_snoc_ind (P : string -> Prop) :
  P EmptyString -> (forall s c, P s -> P (snoc s c)) -> forall s, P s.
Proof.
  intros Hnil Hsnoc s.
  rewrite <- (string_of_list_ascii_of_string s).
  induction (list_ascii_of_string s) as [|c l IH] using rev_ind.
  - exact Hnil.
  - replace (string_of_list_ascii (l ++ [c]))
      with (snoc (string_of_list_ascii l) c).
    + apply Hsnoc, IH.
    + clear. unfold snoc. induction l as [|a l IH]; simpl; [reflexivity|].
      now rewrite IH.
Qed.

Lemma length_snoc (s : string) (c : ascii) :
  String.length (snoc s c) = S (String.length s).
Proof.
  unfold snoc. induction s as [|a s IH]; simpl; [reflexivity | now rewrite IH].
Qed.

Lemma get_snoc_last (s : string) (c : ascii) :
  String.get (String.length s) (snoc s c) = Some c.
Proof.
  unfold snoc. induction s as [|a s IH]; simpl; [reflexivity | exact IH].
Qed.

Lemma substring_snoc_front (s : string) (c : ascii) :
  String.substring 0 (String.length s) (snoc s c) = s.
Proof.
  unfold snoc. induction s as [|a s IH]; simpl; [reflexivity | now rewrite IH].
Qed.

Lemma strip_snoc_underscore (s : string) :
  strip_trailing_underscores (snoc s "_") = strip_trailing_underscores s.
Proof.
  unfold snoc. induction s as [|a s IH]; simpl; [reflexivity|].
  now rewrite IH.
Qed.

Lemma strip_snoc_other (s : string) (c : ascii) :
  Ascii.eqb c "_" = false -> strip_trailing_underscores (snoc s c) = snoc s c.
Proof.
  intros Hc. unfold snoc. induction s as [|a s IH]; simpl.
  - now rewrite Hc.
  - rewrite IH. destruct s; reflexivity.
Qed.

Lemma strip_empty_only_underscores (s : string) :
  strip_trailing_underscores s = EmptyString -> only_underscores s = true.
Proof.
  induction s as [|a s IH]; simpl; [reflexivity|].
  destruct (strip_trailing_underscores s) eqn:Hs; [|discriminate].
  destruct (Ascii.eqb a "_"); [intros _; now apply IH | discriminate].
Qed.

(** The loop of the source stops at index 1: the first character stays, and
    behind it the trailing underscores go. *)
Lemma trim_tail_loop_spec (c0 : ascii) (s : string) :
  trim_tail_loop (String.length s) (String c0 s)
  = String c0 (strip_trailing_underscores s).
Proof.
  induction s as [|s c IH] using string_snoc_ind; [reflexivity|].
  rewrite length_snoc. cbn [trim_tail_loop String.get].
  rewrite get_snoc_last.
  destruct (Ascii.eqb c "_") eqn:Hc.
  - apply Ascii.eqb_eq in Hc. subst c.
    cbn [String.substring]. rewrite substring_snoc_front, IH.
    now rewrite strip_snoc_underscore.
  - now rewrite strip_snoc_other.
Qed.

Lemma tolower_idempotent (c : ascii) : tolower (tolower c) = tolower c.
Proof. destruct c as [[] [] [] [] [] [] [] []]; reflexivity. Qed.

Lemma str_tolower_idempotent (s : string) :
  str_tolower (str_tolower s) = str_tolower s.
Proof.
  induction s as [|c s IH]; simpl; [reflexivity|].
  now rewrite tolower_idempotent, IH.
Qed.

(** An explicit tag that is not made of underscores only comes back without
    its trailing underscores, in its own case. *)
Lemma get_tag_explicit (fuel : nat) (context : SDL_CONTEXT) (tag : string)
  (datatype : Z) (lower : bool) :
  only_underscores tag = false ->
  _sdl_get_tag (S fuel) context (Some tag) datatype lower
  = Some (Some (strip_trailing_underscores tag)).
Proof.
  intros Htag. destruct tag as [|c0 s]; [discriminate|].
  cbn [_sdl_get_tag String.length]. rewrite trim_tail_loop_spec.
  do 2 f_equal. cbn [strip_trailing_underscores].
  destruct (strip_trailing_underscores s) eqn:Hs; [|reflexivity].
  apply strip_empty_only_underscores in Hs. simpl in Htag.
  rewrite Hs, andb_true_r in Htag. now rewrite Htag.
Qed.

(** Without an explicit tag, asking for lower case gives the lower case of
    the tag found otherwise. *)
Lemma get_tag_default_lower (fuel : nat) (context : SDL_CONTEXT)
  (datatype : Z) (t : string) :
  _sdl_get_tag fuel context None datatype false = Some (Some t) ->
  _sdl_get_tag fuel context None datatype true = Some (Some (str_tolower t)).
Proof.
  revert datatype t. induction fuel as [|fuel IH]; intros datatype t;
    [discriminate|].
  cbn [_sdl_get_tag].
  destruct (datatype =? SDL_K_TYPE_CONST);
    [cbn [bind]; intros H; injection H as <-; reflexivity|].
  destruct (in_range SDL_K_BASE_TYPE_MIN datatype SDL_K_BASE_TYPE_MAX);
    [cbn [bind]; intros H; injection H as <-; reflexivity|].
  assert (Hrec : forall typeID,
    bind (_sdl_get_tag fuel context None typeID false)
      (fun retVal => Some retVal) = Some (Some t) ->
    bind (_sdl_get_tag fuel context None typeID true)
      (fun retVal =>
         match retVal with
         | Some s => Some (Some (str_tolower s))
         | None => None
         end) = Some (Some (str_tolower t))).
  { intros typeID H.
    destruct (_sdl_get_tag fuel context None typeID false) as [r|] eqn:Hr;
      [|discriminate].
    cbn [bind] in H. injection H as ->.
    rewrite (IH _ _ Hr). cbn [bind]. now rewrite str_tolower_idempotent. }
  destruct (in_range SDL_K_DECLARE_MIN datatype SDL_K_DECLARE_MAX).
  { destruct (sdl_get_declare (declares context) datatype) as [d|];
      [|cbn [bind]; intros H; injection H as <-; reflexivity].
    destruct (0 <? strlen (dec_tag d));
      [cbn [bind]; intros H; injection H as <-; reflexivity|].
    apply Hrec. }
  destruct (in_range SDL_K_ITEM_MIN datatype SDL_K_ITEM_MAX).
  { destruct (sdl_get_item (items context) datatype) as [i|];
      [|cbn [bind]; intros H; injection H as <-; reflexivity].
    destruct (item_tag i) as [myTag|]; [|discriminate].
    cbn [bind].
    destruct (0 <? strlen myTag);
      [cbn [bind]; intros H; injection H as <-; reflexivity|].
    apply Hrec. }
  destruct (in_range SDL_K_AGGREGATE_MIN datatype SDL_K_AGGREGATE_MAX).
  { destruct (sdl_get_aggregate (aggregates context) datatype) as [a|];
      [|cbn [bind]; intros H; injection H as <-; reflexivity].
    destruct (agg_tag a) as [myTag|]; [|discriminate].
    cbn [bind].
    destruct (0 <? strlen myTag);
      [cbn [bind]; intros H; injection H as <-; reflexivity|].
    apply Hrec. }
  cbn [bind]. discriminate.
Qed.

(** A base type always has a default tag: the entry of [_defaultTag], in
    lower case when asked for. *)
Lemma get_tag_base_type (fuel : nat) (context : SDL_CONTEXT) (datatype : Z)
  (lower : bool) :
  in_range SDL_K_BASE_TYPE_MIN datatype SDL_K_BASE_TYPE_MAX = true ->
  _sdl_get_tag (S fuel) context None datatype lower
  = Some (Some (if lower then str_tolower (default_tag datatype)
                else default_tag datatype)).
Proof.
  intros Hbase. cbn [_sdl_get_tag]. rewrite Hbase.
  destruct (datatype =? SDL_K_TYPE_CONST) eqn:Hconst.
  - apply Z.eqb_eq in Hconst. subst datatype. discriminate Hbase.
  - destruct lower; reflexivity.
Qed.

(** C5 (amended): an explicit tag that holds a character other than an
    underscore is returned without its trailing underscores and is not put
    into lower case, whatever the case of the host id; without an explicit
    tag, the tag returned for an all-lowercase host id is the lower case of
    the tag returned otherwise. *)
Theorem get_tag_trims_explicit_lowers_default (fuel : nat)
  (context : SDL_CONTEXT) (datatype : Z) :
  (forall tag lower,
     only_underscores tag = false ->
     _sdl_get_tag (S fuel) context (Some tag) datatype lower
     = Some (Some (strip_trailing_underscores tag)))
  /\ (forall t,
        _sdl_get_tag fuel context None datatype false = Some (Some t) ->
        _sdl_get_tag fuel context None datatype true
        = Some (Some (str_tolower t))).
Proof.
  split.
  - intros tag lower Htag. now apply get_tag_explicit.
  - intros t Ht. now apply get_tag_default_lower.
Qed.

(** ** Mask and size constants *)

Lemma bind_Some_inv {A B : Type} (m : option A) (k : A -> option B) (b : B) :
  bind m k = Some b -> exists a, m = Some a /\ k a = Some b.
Proof. destruct m as [a|]; [intros H; exists a; auto | discriminate]. Qed.

Lemma bind_Some {A B : Type} (a : A) (k : A -> option B) :
  bind (Some a) k = k a.
Proof. reflexivity. Qed.

Tactic Notation "bind_split" hyp(H) "as" simple_intropattern(x) ident(E) :=
  apply bind_Some_inv in H as (x & E & H); cbv beta iota in H.

Ltac bind_inv H :=
  match type of H with
  | bind ?m _ = Some _ =>
      let E := fresh "E" in
      destruct m eqn:E; cbn [bind] in H; [|discriminate H]
  end.

Lemma queued_refl (context : SDL_CONTEXT) : queued context context [].
Proof. unfold queued. rewrite app_nil_r. destruct context; reflexivity. Qed.

Lemma queued_trans (c1 c2 c3 : SDL_CONTEXT) (cs1 cs2 : list SDL_CONSTANT) :
  queued c1 c2 cs1 -> queued c2 c3 cs2 -> queued c1 c3 (cs1 ++ cs2).
Proof.
  unfold queued. intros H12 H23. rewrite H23. rewrite H12 at 1 2.
  simpl. now rewrite app_assoc.
Qed.

Lemma queued_constants (c c' : SDL_CONTEXT) (cs : list SDL_CONSTANT) :
  queued c c' cs -> constants c' = constants c ++ cs.
Proof. unfold queued. intros ->. reflexivity. Qed.

Lemma queued_wordSize (c c' : SDL_CONTEXT) (cs : list SDL_CONSTANT) :
  queued c c' cs -> wordSize c' = wordSize c.
Proof. unfold queued. intros ->. reflexivity. Qed.

Lemma queued_queue_constant (c : SDL_CONTEXT) (k : SDL_CONSTANT) :
  queued c (_sdl_queue_constant c k) [k].
Proof. unfold queued, _sdl_queue_constant. destruct c; reflexivity. Qed.

Lemma queued_fillerCount (c : SDL_CONTEXT) (n : Z) :
  queued c (set_fillerCount c n) [].
Proof. unfold queued. rewrite app_nil_r. destruct c; reflexivity. Qed.

Lemma member_constants_wordSize (c c' : SDL_CONTEXT) (m : SDL_MEMBERS) :
  wordSize c' = wordSize c -> member_constants c' m = member_constants c m.
Proof.
  intros Hw. unfold member_constants, bitfield_size_constant. now rewrite Hw.
Qed.

(** One round of the loop queues the constants of the member. *)
Lemma create_member_constants_spec (context : SDL_CONTEXT) (m : SDL_MEMBERS) :
  create_member_constants context m
  = bind (member_constants context m)
      (fun cs => Some (set_constants context (constants context ++ cs))).
Proof.
  unfold create_member_constants, member_constants.
  destruct (sdl_isBitfield m).
  - destruct (member_item m) as [item|]; cbn [bind]; [|reflexivity].
    destruct (item_mask item).
    + destruct (bitfield_mask _ _) as [mask|]; cbn [bind]; [|reflexivity].
      unfold _sdl_queue_constant, bitfield_size_constant. simpl.
      now rewrite <- app_assoc.
    + reflexivity.
  - cbn [bind]. rewrite app_nil_r. destruct context; reflexivity.
Qed.

(** The loop queues, member after member, the constants of the members. *)
Lemma create_bitfield_constants_queued (memberList : list SDL_MEMBERS) :
  forall context context',
    _sdl_create_bitfield_constants context memberList = Some context' ->
    exists cs,
      queued context context' cs
      /\ fillerCount context' = fillerCount context
      /\ forall m,
           In m memberList ->
           exists mc, member_constants context m = Some mc /\ incl mc cs.
Proof.
  induction memberList as [|m0 rest IH]; intros context context' Hrun.
  - injection Hrun as <-. exists []. split; [apply queued_refl|].
    split; [reflexivity|]. intros m [].
  - cbn [_sdl_create_bitfield_constants] in Hrun. bind_inv Hrun.
    rename s into c1. rewrite create_member_constants_spec in E.
    bind_inv E. rename l into cs0. injection E as <-.
    destruct (IH _ _ Hrun) as (cs & Hq & Hf & Hin).
    exists (cs0 ++ cs). split; [|split].
    + eapply queued_trans; [|exact Hq].
      unfold queued. destruct context; reflexivity.
    + rewrite Hf. reflexivity.
    + intros m [<-|Hm].
      * exists cs0. split; [exact E0 | now apply incl_appl].
      * destruct (Hin m Hm) as (mc & Hmc & Hincl).
        exists mc. split; [|now apply incl_appr].
        rewrite <- Hmc. symmetry. now apply member_constants_wordSize.
Qed.

(** The loop succeeds as soon as the mask of every bitfield with a mask is
    defined. *)
Lemma create_bitfield_constants_defined (memberList : list SDL_MEMBERS) :
  forall context,
    (forall m, In m memberList -> member_constants context m <> None) ->
    exists context', _sdl_create_bitfield_constants context memberList
                     = Some context'.
Proof.
  induction memberList as [|m0 rest IH]; intros context Hdef.
  - eexists. reflexivity.
  - cbn [_sdl_create_bitfield_constants].
    rewrite create_member_constants_spec.
    destruct (member_constants context m0) as [cs0|] eqn:E0.
    + cbn [bind]. apply IH. intros m Hm.
      rewrite (member_constants_wordSize context); [|reflexivity].
      apply Hdef. now right.
    + exfalso. apply (Hdef m0); [now left | exact E0].
Qed.

Lemma uint64_t_small (x : Z) : 0 <= x < 2 ^ 64 -> uint64_t x = x.
Proof. intros H. unfold uint64_t. now apply Z.mod_small. Qed.

Lemma int64_t_small (x : Z) : 0 <= x < 2 ^ 63 -> int64_t x = x.
Proof.
  intros H. unfold int64_t. rewrite uint64_t_small by lia.
  destruct (Z.ltb_spec x (2 ^ 63)); lia.
Qed.

(** Where the mask fits 63 bits, the 64-bit arithmetic of the source gives
    the mask of the spec. *)
Lemma bitfield_mask_exact (length bitOffset : Z) :
  0 <= length -> 0 <= bitOffset -> length + bitOffset <= 63 ->
  exists mask,
    bitfield_mask length bitOffset = Some mask
    /\ int64_t mask = spec_mask length bitOffset.
Proof.
  intros Hl Hb Hsum. unfold bitfield_mask, pow2_uint64, spec_mask.
  destruct (Z.ltb_spec length 0); [lia|].
  destruct (Z.ltb_spec length 64); [|lia]. cbn [bind].
  destruct (Z.leb_spec 0 bitOffset); [|lia].
  destruct (Z.ltb_spec bitOffset 64); [|lia]. cbn [andb].
  assert (Hpow : 0 < 2 ^ length) by (apply Z.pow_pos_nonneg; lia).
  assert (Hle : 2 ^ length <= 2 ^ 63) by (apply Z.pow_le_mono_r; lia).
  assert (Hshift :
    0 <= Z.shiftl (2 ^ length - 1) bitOffset < 2 ^ 63).
  { rewrite Z.shiftl_mul_pow2 by lia.
    assert (0 < 2 ^ bitOffset) by (apply Z.pow_pos_nonneg; lia).
    assert (2 ^ length * 2 ^ bitOffset <= 2 ^ 63).
    { rewrite <- Z.pow_add_r by lia. apply Z.pow_le_mono_r; lia. }
    nia. }
  eexists. split; [reflexivity|].
  rewrite (uint64_t_small (2 ^ length - 1)) by lia.
  rewrite uint64_t_small by lia. apply int64_t_small. lia.
Qed.

(** The value of a defined mask in terms of the length and the bit offset:
    the 64-bit wrap-around of the exact mask is all that separates it from
    the spec's. *)
Lemma bitfield_mask_value (length bitOffset mask : Z) :
  bitfield_mask length bitOffset = Some mask ->
  length < 64 /\ 0 <= bitOffset < 64
  /\ mask = uint64_t (Z.shiftl (uint64_t (2 ^ length - 1)) bitOffset).
Proof.
  unfold bitfield_mask, pow2_uint64. intros H.
  destruct (Z.ltb_spec length 0).
  - cbn [bind] in H.
    destruct (Z.leb_spec 0 bitOffset); [|discriminate].
    destruct (Z.ltb_spec bitOffset 64); [|discriminate].
    cbn [andb] in H. injection H as <-.
    rewrite Z.pow_neg_r by lia. repeat split; lia.
  - destruct (Z.ltb_spec length 64); [|discriminate]. cbn [bind] in H.
    destruct (Z.leb_spec 0 bitOffset); [|discriminate].
    destruct (Z.ltb_spec bitOffset 64); [|discriminate].
    cbn [andb] in H. injection H as <-. repeat split; lia.
Qed.

(** ** Fillers and the size of an aggregate *)

Ltac opt_inv H :=
  repeat
    (cbn [bind fst snd] in H;
     match type of H with
     | bind ?m _ = Some _ =>
         let E := fresh "E" in
         destruct m eqn:E; cbn [bind] in H; [|discriminate H]
     | (match ?p with (_, _) => _ end) = Some _ => destruct p
     | (if ?b then _ else _) = Some _ =>
         let E := fresh "E" in destruct b eqn:E
     | (match ?x with _ => _ end) = Some _ =>
         let E := fresh "E" in destruct x eqn:E
     | None = Some _ => discriminate H
     end).

Lemma fill_bitfield_spec (memberList : list SDL_MEMBERS) (top : bool)
  (type offset : Z) (item : SDL_ITEM) (bits number : Z) :
  _sdl_fill_bitfield memberList (Member_Item top type offset item) bits number
  = Some (memberList ++ [Member_Item top type offset
                           (filler_of item bits number)]).
Proof. reflexivity. Qed.

Lemma filler_of_fields (item : SDL_ITEM) (bits number : Z) :
  item_mask (filler_of item bits number) = false
  /\ item_length (filler_of item bits number) = bits
  /\ item_type (filler_of item bits number) = item_type item
  /\ item_size (filler_of item bits number) = item_size item
  /\ item_id (filler_of item bits number) = filler_id number.
Proof. repeat split. Qed.

(** Sealing a run leaves the list alone or appends one filler. *)
Lemma seal_run_spec (context : SDL_CONTEXT) (memberList : list SDL_MEMBERS)
  (top : bool) (type offset : Z) (item : SDL_ITEM) (parentIsUnion : bool) :
  seal_run context memberList (Member_Item top type offset item) parentIsUnion
  = if (availBits item >? 0) && negb parentIsUnion
    then Some (set_fillerCount context (fillerCount context + 1),
               memberList
               ++ [Member_Item top type offset
                     (filler_of item (availBits item) (fillerCount context))])
    else Some (context, memberList).
Proof.
  unfold seal_run. cbn [member_item bind].
  destruct ((availBits item >? 0) && negb parentIsUnion); reflexivity.
Qed.

Lemma seal_run_queued (context context' : SDL_CONTEXT)
  (memberList memberList' : list SDL_MEMBERS) (prev : SDL_MEMBERS)
  (parentIsUnion : bool) :
  seal_run context memberList prev parentIsUnion = Some (context', memberList')
  -> queued context context' [].
Proof.
  unfold seal_run. intros H. opt_inv H; injection H as <- <-.
  - apply queued_fillerCount.
  - apply queued_refl.
Qed.

Lemma determine_offsets_queued (context context' : SDL_CONTEXT)
  (member member' : SDL_MEMBERS) (memberList memberList' : list SDL_MEMBERS)
  (parentIsUnion : bool) (parent : option SDL_SUBAGGR) :
  _sdl_determine_offsets context member memberList parentIsUnion parent
  = Some (context', member', memberList') ->
  queued context context' [].
Proof.
  unfold _sdl_determine_offsets. intros H.
  destruct (sdl_isComment member).
  { injection H as <- <- <-. apply queued_refl. }
  bind_inv H. destruct p as [[c1 m1] l1].
  assert (Hq : queued context c1 []).
  { clear H. rename E into H. opt_inv H;
      try (injection H as <- <- <-);
      try apply queued_refl;
      try (eapply seal_run_queued; eassumption);
      match goal with
      | H0 : (if ?b then seal_run _ _ _ _ else Some _) = Some _ |- _ =>
          destruct b;
          [eapply seal_run_queued; eassumption
          |injection H0 as <- <-; apply queued_refl]
      | H0 : Some (_, _) = Some (_, _) |- _ =>
          injection H0 as <- <-; apply queued_refl
      end. }
  assert (c1 = context') as <-; [|exact Hq].
  clear E Hq. opt_inv H; now injection H as <- <- <-.
Qed.

Lemma queue_tail_nil (memberList : list SDL_MEMBERS) :
  queue_tail memberList = None -> memberList = [].
Proof.
  unfold queue_tail. destruct (rev memberList) eqn:E; [|discriminate].
  intros _. apply (f_equal (@rev _)) in E. now rewrite rev_involutive in E.
Qed.

Lemma aggregate_size_union_queued (context context' : SDL_CONTEXT)
  (prefix : option string) (unionType alignment : Z)
  (parent : option SDL_SUBAGGR) (memberList memberList' : list SDL_MEMBERS)
  (size : Z) :
  aggregate_size_union context prefix unionType alignment parent memberList
  = Some (context', memberList', size) ->
  queued context context' [].
Proof.
  unfold aggregate_size_union. intros H.
  destruct (largest_member memberList <? sdl_sizeof context unionType).
  - bind_split H as tag Etag. bind_split H as [[c5 f5] l5] Edet.
    injection H as <- <- <-.
    apply determine_offsets_queued in Edet.
    apply (queued_trans _ _ _ [] [] (queued_fillerCount context _) Edet).
  - injection H as <- <- <-. apply queued_refl.
Qed.

(** What [_sdl_aggregate_size] does to the context: the constants of the
    members of the final queue, then the size constant, are queued. *)
Lemma aggregate_size_members_inv (context context' : SDL_CONTEXT)
  (name : string) (prefix : option string) (isUnion : bool)
  (unionType alignment : Z) (parent : option SDL_SUBAGGR)
  (memberList memberList' : list SDL_MEMBERS) (size : Z) :
  aggregate_size_members context name prefix isUnion unionType alignment
    parent memberList = Some (context', memberList', size) ->
  exists cs,
    queued context context'
      (cs ++ [aggregate_size_constant context name prefix size])
    /\ (forall m,
          In m memberList' ->
          exists mc, member_constants context m = Some mc /\ incl mc cs)
    /\ (memberList = [] ->
        memberList' = [] /\ cs = [] /\ size = 0
        /\ fillerCount context' = fillerCount context).
Proof.
  unfold aggregate_size_members. intros H.
  destruct (queue_tail memberList) as [m|] eqn:Htail.
  - bind_split H as [c1 l1] E.
    bind_split H as [[c3 l3] r3] E0.
    bind_split H as c4 E1. injection H as <- <- <-.
    assert (Hq1 : queued context c1 []).
    { destruct (sdl_isBitfield m && negb isUnion);
        [eapply seal_run_queued; eassumption
        |injection E as <- <-; apply queued_refl]. }
    assert (Hq3 : queued c1 c3 []).
    { destruct isUnion.
      - eapply aggregate_size_union_queued; eassumption.
      - injection E0 as <- <- <-. apply queued_refl. }
    destruct (create_bitfield_constants_queued _ _ _ E1) as (cs & Hq4 & _ & Hin).
    pose proof (queued_trans _ _ _ [] [] Hq1 Hq3) as Hq.
    exists cs. split; [|split].
    + replace (aggregate_size_constant context name prefix r3)
        with (aggregate_size_constant c4 name prefix r3).
      * apply (queued_trans _ _ _ ([] ++ cs) _
                 (queued_trans _ _ _ _ _ Hq Hq4)
                 (queued_queue_constant c4 _)).
      * unfold aggregate_size_constant.
        rewrite (queued_wordSize _ _ _ Hq4), (queued_wordSize _ _ _ Hq).
        reflexivity.
    + intros m0 Hm0. destruct (Hin m0 Hm0) as (mc & Hmc & Hincl).
      exists mc. split; [|exact Hincl]. rewrite <- Hmc. symmetry.
      apply member_constants_wordSize. exact (queued_wordSize _ _ _ Hq).
    + intros ->. discriminate Htail.
  - injection H as <- <- <-.
    apply queue_tail_nil in Htail. subst memberList.
    exists []. split; [|split].
    + apply queued_queue_constant.
    + intros m [].
    + intros _. repeat split.
Qed.
(** ** Fillers *)

Lemma create_bitfield_constants_app (l1 l2 : list SDL_MEMBERS) :
  forall context,
    _sdl_create_bitfield_constants context (l1 ++ l2)
    = bind (_sdl_create_bitfield_constants context l1)
        (fun c1 => _sdl_create_bitfield_constants c1 l2).
Proof.
  induction l1 as [|m l1 IH]; intros context; [reflexivity|].
  cbn [app _sdl_create_bitfield_constants].
  destruct (create_member_constants context m) as [c|]; cbn [bind];
    [apply IH | reflexivity].
Qed.


(** ** Mask constants *)

Lemma spec_mask_product (length bitOffset : Z) :
  0 <= bitOffset ->
  spec_mask length bitOffset = (2 ^ length - 1) * 2 ^ bitOffset.
Proof. intros Hoff. unfold spec_mask. now apply Z.shiftl_mul_pow2. Qed.

Lemma int64_t_range (x : Z) : - 2 ^ 63 <= int64_t x < 2 ^ 63.
Proof.
  unfold int64_t, uint64_t. cbv zeta.
  pose proof (Z.mod_pos_bound x (2 ^ 64)) as Hmod.
  destruct (Z.ltb_spec (x mod 2 ^ 64) (2 ^ 63)); lia.
Qed.

(** A mask that reaches bit [n] or beyond is not below 2^n. *)
Lemma spec_mask_large (length bitOffset n : Z) :
  0 < length -> 0 <= bitOffset -> 0 <= n < length + bitOffset ->
  2 ^ n <= spec_mask length bitOffset.
Proof.
  intros Hlen Hoff Hsum. rewrite spec_mask_product by exact Hoff.
  assert (Hlow : 2 ^ n <= 2 ^ (length + bitOffset - 1))
    by (apply Z.pow_le_mono_r; lia).
  assert (Hhalf : 2 ^ (length - 1) <= 2 ^ length - 1).
  { replace length with (length - 1 + 1) at 2 by lia.
    rewrite Z.pow_add_r by lia. change (2 ^ 1) with 2.
    assert (0 < 2 ^ (length - 1)) by (apply Z.pow_pos_nonneg; lia). lia. }
  assert (Hsplit : 2 ^ (length + bitOffset - 1)
                   = 2 ^ (length - 1) * 2 ^ bitOffset).
  { rewrite <- Z.pow_add_r by lia. f_equal. lia. }
  assert (0 < 2 ^ bitOffset) by (apply Z.pow_pos_nonneg; lia).
  nia.
Qed.

(** A mask that ends at bit [n - 1] or below is below 2^n. *)
Lemma spec_mask_small (length bitOffset n : Z) :
  0 < length -> 0 <= bitOffset -> length + bitOffset <= n ->
  0 <= spec_mask length bitOffset < 2 ^ n.
Proof.
  intros Hlen Hoff Hsum. rewrite spec_mask_product by exact Hoff.
  assert (Hpow : 2 ^ (length + bitOffset) <= 2 ^ n)
    by (apply Z.pow_le_mono_r; lia).
  rewrite Z.pow_add_r in Hpow by lia.
  assert (0 < 2 ^ bitOffset) by (apply Z.pow_pos_nonneg; lia).
  assert (0 < 2 ^ length) by (apply Z.pow_pos_nonneg; lia).
  nia.
Qed.

(** C3: for a bitfield with the mask option, a length from 1 to 63 and a bit
    offset from 0 to 63, the loop over the bitfields of a closed aggregate
    queues, wherever the member stands in the queue, the size constant of
    the member and then its mask constant: the id of the member, the tag [m]
    or [M] by the case of the id, radix hexadecimal, the size of the host as
    its size, and as value the low 64 bits of [((2 ^ length) - 1) <<
    bitOffset], handed over as a signed 64-bit integer.  The 64 bits are the
    mask of the spec when the field ends at bit 63 or below, and the signed
    value is when it ends at bit 62 or below; for a field that reaches
    beyond bit 63, as in an octaword host, bits of the mask are lost and
    both fall short of it. *)
Theorem mask_constant_keeps_low_64_bits (context : SDL_CONTEXT)
  (front rest : list SDL_MEMBERS) (top : bool) (type offset : Z)
  (item : SDL_ITEM) :
  sdl_isBitfield (Member_Item top type offset item) = true ->
  item_mask item = true ->
  0 < item_length item < 64 ->
  0 <= item_bitOffset item < 64 ->
  let mask :=
    uint64_t
      (Z.shiftl (uint64_t (2 ^ item_length item - 1)) (item_bitOffset item)) in
  _sdl_create_bitfield_constants context
    (front ++ Member_Item top type offset item :: rest)
  = bind (_sdl_create_bitfield_constants context front)
      (fun c1 =>
         _sdl_create_bitfield_constants
           (_sdl_queue_constant
              (_sdl_queue_constant c1 (bitfield_size_constant c1 item))
              (mkConstant (item_id item)
                 (prefix_or_empty (item_prefix item))
                 (if sdl_all_lower (Some (item_id item)) then "m" else "M")
                 None None SDL_K_RADIX_HEX SDL_K_CONST_NUM (int64_t mask)
                 None (to_int (item_size item))))
           rest)
  /\ mask = spec_mask (item_length item) (item_bitOffset item) mod 2 ^ 64
  /\ (item_length item + item_bitOffset item <= 64 ->
      mask = spec_mask (item_length item) (item_bitOffset item))
  /\ (item_length item + item_bitOffset item <= 63 ->
      int64_t mask = spec_mask (item_length item) (item_bitOffset item))
  /\ (63 < item_length item + item_bitOffset item ->
      int64_t mask < spec_mask (item_length item) (item_bitOffset item))
  /\ (64 < item_length item + item_bitOffset item ->
      mask < spec_mask (item_length item) (item_bitOffset item)).
Proof.
  intros Hbit Hmask Hlen Hoff mask.
  assert (Hpattern :
    mask = spec_mask (item_length item) (item_bitOffset item) mod 2 ^ 64).
  { unfold mask, spec_mask. rewrite (uint64_t_small (2 ^ item_length item - 1)).
    - reflexivity.
    - assert (0 < 2 ^ item_length item) by (apply Z.pow_pos_nonneg; lia).
      assert (2 ^ item_length item <= 2 ^ 64)
        by (apply Z.pow_le_mono_r; lia).
      lia. }
  split; [|split; [exact Hpattern|split; [|split; [|split]]]].
  - rewrite create_bitfield_constants_app.
    destruct (_sdl_create_bitfield_constants context front) as [c1|];
      cbn [bind]; [|reflexivity].
    cbn [_sdl_create_bitfield_constants]. unfold create_member_constants.
    rewrite Hbit. cbn [member_item bind]. rewrite Hmask.
    unfold bitfield_mask, pow2_uint64.
    destruct (Z.ltb_spec (item_length item) 0); [lia|].
    destruct (Z.ltb_spec (item_length item) 64); [|lia]. cbn [bind].
    destruct (Z.leb_spec 0 (item_bitOffset item)); [|lia].
    destruct (Z.ltb_spec (item_bitOffset item) 64); [|lia].
    cbn [andb bind]. reflexivity.
  - intros Hsum. rewrite Hpattern. apply Z.mod_small.
    apply spec_mask_small; lia.
  - intros Hsum.
    destruct (bitfield_mask_exact (item_length item) (item_bitOffset item))
      as (mask' & Em & Hexact); [lia | lia | exact Hsum |].
    destruct (bitfield_mask_value _ _ _ Em) as (_ & _ & ->).
    exact Hexact.
  - intros Hsum. pose proof (int64_t_range mask) as Hrange.
    pose proof (spec_mask_large (item_length item) (item_bitOffset item) 63)
      as Hlarge.
    lia.
  - intros Hsum.
    pose proof (Z.mod_pos_bound
                  (spec_mask (item_length item) (item_bitOffset item))
                  (2 ^ 64)) as Hmod.
    pose proof (spec_mask_large (item_length item) (item_bitOffset item) 64)
      as Hlarge.
    rewrite Hpattern. lia.
Qed.

(** ** Closing an aggregate *)

Lemma split_tail_app {A : Type} (l : list A) (x : A) :
  split_tail (l ++ [x]) = Some (l, x).
Proof.
  unfold split_tail. rewrite rev_app_distr. simpl.
  now rewrite rev_involutive.
Qed.

Lemma split_tail_inv {A : Type} (l front : list A) (x : A) :
  split_tail l = Some (front, x) -> l = front ++ [x].
Proof.
  unfold split_tail. destruct (rev l) as [|y r] eqn:E; [discriminate|].
  intros H. injection H as <- <-.
  apply (f_equal (@rev A)) in E. rewrite rev_involutive in E.
  exact E.
Qed.

(** A node stored along the open subaggregates is the one found there. *)
Lemma open_store_subaggr (steps : nat) :
  forall memberList stored top type offset subaggr members,
    store_subaggr steps memberList
      (Member_Subaggr top type offset subaggr members) = Some stored ->
    open_subaggr steps stored
    = Some (Member_Subaggr top type offset subaggr members).
Proof.
  induction steps as [|steps IH];
    intros memberList stored top type offset subaggr members H;
    cbn [store_subaggr] in H;
    destruct (split_tail memberList) as [[front [| |t0 ty0 o0 s0 ms0]]|];
    try discriminate H.
  - injection H as <-. cbn [open_subaggr]. now rewrite split_tail_app.
  - bind_split H as members' E. injection H as <-.
    cbn [open_subaggr]. rewrite split_tail_app. eapply IH. exact E.
Qed.

(** Where a subaggregate is open, a node can be stored. *)
Lemma store_subaggr_defined (steps : nat) :
  forall memberList node0 node,
    open_subaggr steps memberList = Some node0 ->
    exists stored, store_subaggr steps memberList node = Some stored.
Proof.
  induction steps as [|steps IH]; intros memberList node0 node H;
    cbn [open_subaggr] in H; cbn [store_subaggr];
    destruct (split_tail memberList) as [[front [| |t0 ty0 o0 s0 ms0]]|];
    try discriminate H.
  - eexists. reflexivity.
  - destruct (IH _ _ node H) as (stored & ->). eexists. reflexivity.
Qed.

Lemma open_subaggr_node (steps : nat) :
  forall memberList node,
    open_subaggr steps memberList = Some node ->
    exists top type offset subaggr members,
      node = Member_Subaggr top type offset subaggr members.
Proof.
  induction steps as [|steps IH]; intros memberList node H;
    cbn [open_subaggr] in H;
    destruct (split_tail memberList) as [[front [| |t0 ty0 o0 s0 ms0]]|];
    try discriminate H.
  - injection H as <-. repeat eexists.
  - eapply IH. exact H.
Qed.

(** The options at the end of an aggregate only touch the dimension table. *)
Lemma compl_options_context (context c1 : SDL_CONTEXT)
  (current : SDL_CURRENT) :
  match options context with
  | [] => Some context
  | opts =>
      let myMember :=
        match split_tail (current_members current) with
        | Some (_, m) => if sdl_isItem m then None else Some m
        | None => None
        end in
      dims <- compl_options myMember (dimensions context) opts ;;
      Some (set_dimensions context dims)
  end = Some c1 ->
  exists dims, c1 = set_dimensions context dims.
Proof.
  destruct (options context) as [|opt opts].
  - intros H. injection H as <-. exists (dimensions context).
    destruct context; reflexivity.
  - intros H. cbv zeta in H. bind_split H as dims E. injection H as <-.
    exists dims. reflexivity.
Qed.

Lemma queued_aggregates (c c' : SDL_CONTEXT) (cs : list SDL_CONSTANT) :
  queued c c' cs -> aggregates c' = aggregates c.
Proof. unfold queued. intros ->. reflexivity. Qed.
Lemma report_not_normal (code other : sdl_status) :
  code <> SDL_NORMAL -> other <> SDL_NORMAL ->
  sdl_status_eqb (report code other) SDL_NORMAL = false.
Proof.
  intros Hc Ho. destruct (report_cases code other) as [-> | ->].
  - destruct code; try reflexivity. contradiction.
  - destruct other; try reflexivity. contradiction.
Qed.

Lemma compl_status_empty (id : string) (name : option string) :
  compl_status id name []
  = match name with
    | Some other =>
        if streq id other then report SDL_NULLSTRUCT SDL_ERREXIT
        else report SDL_MATCHEND SDL_ERREXIT
    | None => report SDL_NULLSTRUCT SDL_ERREXIT
    end.
Proof.
  unfold compl_status. destruct name as [other|]; [|reflexivity].
  destruct (streq id other); reflexivity.
Qed.

Lemma compl_status_empty_not_normal (id : string) (name : option string) :
  sdl_status_eqb (compl_status id name []) SDL_NORMAL = false.
Proof.
  rewrite compl_status_empty. destruct name as [other|];
    [destruct (streq id other)|]; now apply report_not_normal.
Qed.

(** C8 (amended): closing an AGGREGATE or subaggregate that has no members
    records the size 0 in it and queues a size constant with the value 0,
    whatever name END carries.  The status is [SDL_NULLSTRUCT] when END has
    no name or the name of the aggregate, and [SDL_MATCHEND] when it has
    another name: the name is tested first ([SDL_ERREXIT] in both cases when
    the message cannot be recorded). *)
Theorem empty_aggregate_is_null_structure (context : SDL_CONTEXT)
  (name : option string) (current : SDL_CURRENT)
  (dims : list SDL_DIMENSION) :
  processingEnabled context = true ->
  get_current context = Some current ->
  current_members current = [] ->
  compl_options None (dimensions context) (options context) = Some dims ->
  exists context',
    sdl_aggregate_compl context name
    = Some (context',
            match name with
            | Some other =>
                if streq (current_id current) other
                then report SDL_NULLSTRUCT SDL_ERREXIT
                else report SDL_MATCHEND SDL_ERREXIT
            | None => report SDL_NULLSTRUCT SDL_ERREXIT
            end)
    /\ closed_size context context' = Some 0
    /\ constants context'
       = constants context
         ++ [mkConstant (current_id current)
               (prefix_or_empty (current_prefix current))
               (if sdl_all_lower (Some (current_id current)) then "s" else "S")
               None None SDL_K_RADIX_DEC SDL_K_CONST_NUM 0 None
               (to_int (wordSize context))].
Proof.
  intros Hproc Hcur Hempty Hopts.
  unfold sdl_aggregate_compl. rewrite Hproc, Hcur, bind_Some.
  assert (Eopt :
    match options context with
    | [] => Some context
    | opts =>
        dims <-
          compl_options
            match split_tail (current_members current) with
            | Some (_, m) => if sdl_isItem m then None else Some m
            | None => None
            end (dimensions context) opts ;;
        Some (set_dimensions context dims)
    end = Some (set_dimensions context dims)).
  { rewrite Hempty. cbn [split_tail rev].
    destruct (options context) as [|opt opts].
    - injection Hopts as <-. destruct context; reflexivity.
    - rewrite Hopts. reflexivity. }
  rewrite Eopt, bind_Some. clear Eopt.
  pose proof Hcur as Hget. unfold get_current in Hget.
  bind_split Hget as [front aggr] Etail.
  apply split_tail_inv in Etail.
  destruct (aggregateDepth context <=? 0) eqn:Hd0; [discriminate Hget|].
  destruct (aggregateDepth context =? 1) eqn:Hd1.
  - injection Hget as <-. cbn [current_members] in Hempty.
    cbn [aggregates set_aggregateDepth set_dimensions]. rewrite Etail.
    rewrite split_tail_app. cbn [bind].
    unfold _sdl_aggregate_size_aggr, aggregate_size_members.
    rewrite Hempty. cbn [queue_tail rev bind].
    cbn [agg_members agg_id set_agg_size set_agg_members].
    cbn [current_id].
    rewrite !compl_status_empty_not_normal.
    rewrite compl_status_empty.
    eexists. split; [reflexivity|]. split.
    + unfold closed_size.
      cbn [_sdl_reset_options aggregates set_options set_aggregates].
      rewrite split_tail_app. cbn [bind]. rewrite Hd1. reflexivity.
    + reflexivity.
  - bind_split Hget as node Enode. injection Hget as <-.
    destruct (open_subaggr_node _ _ _ Enode)
      as (top & type & offset & subAggr & members & ->).
    cbn [current_members] in Hempty. subst members.
    cbn [_sdl_aggregate_size_subaggr bind].
    unfold aggregate_size_members. cbn [queue_tail rev bind].
    cbn [aggregates _sdl_queue_constant set_constants set_aggregateDepth
           set_dimensions].
    rewrite Etail, split_tail_app. cbn [bind].
    cbn [aggregateDepth set_dimensions agg_members].
    destruct (store_subaggr_defined _ _ _
                (Member_Subaggr top type offset (set_sub_size subAggr 0) [])
                Enode) as (stored & Estore).
    rewrite Estore. cbn [bind].
    cbn [sub_id set_sub_size current_id] in *.
    rewrite compl_status_empty.
    eexists. split; [reflexivity|]. split.
    + unfold closed_size.
      cbn [_sdl_reset_options aggregates set_options set_aggregates].
      rewrite split_tail_app. cbn [bind]. rewrite Hd1.
      cbn [agg_members set_agg_members].
      rewrite (open_store_subaggr _ _ _ _ _ _ _ _ Estore). reflexivity.
    + reflexivity.
Qed.

(** ** Members *)

Lemma member_option_length (state state' : OPTION_STATE) (opt : SDL_OPTION) :
  member_option state opt = Some state' ->
  loc_length (snd state')
  = match opt_option opt with
    | Length => opt_value opt
    | _ => loc_length (snd state)
    end.
Proof.
  destruct state as [[[current myMember] dims] locals].
  unfold member_option. intros H.
  destruct (opt_option opt);
    repeat match type of H with
           | bind _ _ = Some _ =>
               let x := fresh "x" in
               let E := fresh "E" in
               bind_split H as x E
           | match ?m with _ => _ end = Some _ => destruct m
           end;
    try (injection H as <-); reflexivity.
Qed.

Lemma member_options_length (opts : list SDL_OPTION) :
  forall state state',
    member_options state opts = Some state' ->
    loc_length (snd state')
    = fold_left
        (fun length opt =>
           match opt_option opt with
           | Length => opt_value opt
           | _ => length
           end)
        opts (loc_length (snd state)).
Proof.
  induction opts as [|opt opts IH]; intros state state' H.
  - injection H as <-. reflexivity.
  - cbn [member_options] in H. bind_split H as state1 E.
    rewrite (IH _ _ H). cbn [fold_left].
    rewrite (member_option_length _ _ _ E). reflexivity.
Qed.

(** The length handed to the new member is the one of the last Length
    option. *)
Lemma apply_member_options_length (context c1 : SDL_CONTEXT)
  (current cur1 : SDL_CURRENT) (locals : MEMBER_LOCALS) :
  apply_member_options context current = Some (c1, cur1, locals) ->
  loc_length locals = pending_length (options context).
Proof.
  unfold apply_member_options, pending_length. intros H.
  destruct (options context) as [|opt opts] eqn:Eopts.
  - injection H as <- <- <-. reflexivity.
  - bind_split H as [[[cur2 mm2] dims2] locals2] E.
    injection H as <- <- <-.
    apply member_options_length in E. exact E.
Qed.

(** ** Whole declarations *)

(** Resizing never arrives at the octaword host: the test that should take
    a quadword there looks for a longword once more. *)
Lemma resize_type_octaword (type length : Z) :
  resize_type type length = SDL_K_TYPE_BITFLD_O -> type = SDL_K_TYPE_BITFLD_O.
Proof.
  unfold resize_type.
  repeat match goal with
         | |- context [if ?b then _ else _] => destruct b eqn:?
         end;
    try discriminate; try (intros ->; reflexivity); auto.
Qed.

(** C1: [STRUCTURE; a BITFIELD LENGTH 40; b BITFIELD LENGTH 30; END;] is a
    run of unsized bitfields whose lengths add up to 70 bits, more than 64;
    the run is resized to the quadword host ([SDL_K_TYPE_BITFLD_Q], 8 bytes)
    and not to the octaword host, so that [b] starts a second quadword. *)
Theorem run_over_64_bits_stays_quadword :
  option_map (fun r => aggregate_hosts (fst r))
    (bitfield_structure "s"
       [("a", [length_option 40]); ("b", [length_option 30])] None)
  = Some (Some [Some ("a", SDL_K_TYPE_BITFLD_Q, 8);
                Some ("filler_000", SDL_K_TYPE_BITFLD_Q, 8);
                Some ("b", SDL_K_TYPE_BITFLD_Q, 8);
                Some ("filler_001", SDL_K_TYPE_BITFLD_Q, 8)])
  /\ 64 < 40 + 30.
Proof. split; [vm_compute; reflexivity | lia]. Qed.

(** C2 (amended): [STRUCTURE; f1 BITFIELD LENGTH 3; f2 BITFIELD LENGTH 5;
    f3 BITFIELD LENGTH 1; END;] is laid out in one word: adding [f3] resizes
    the run to the word host, so the bit offsets are (0, 3, 8), the byte
    offsets (0, 0, 0), every host has 2 bytes, the size is 2, and the only
    filler is the one of 7 bits behind [f3]. *)
Theorem bitfield_packing_in_one_word :
  option_map (fun r => aggregate_layout (fst r))
    (bitfield_structure "s"
       [("f1", [length_option 3]); ("f2", [length_option 5]);
        ("f3", [length_option 1])] None)
  = Some (Some ([Some ("f1", 0, 0, 3, 2); Some ("f2", 0, 3, 5, 2);
                 Some ("f3", 0, 8, 1, 2); Some ("filler_000", 0, 9, 7, 2)],
                2)).
Proof. vm_compute. reflexivity. Qed.

(** ** Conditional state machine: symbols *)

Lemma symbol_loop_unbound (symbol : string) (syms : list (string * Z))
  (enabled : bool) :
  (forall value, ~ In (symbol, value) syms) ->
  symbol_loop symbol syms enabled = (enabled, false).
Proof.
  induction syms as [|[name value] syms IH]; intros Hfree; simpl;
    [reflexivity|].
  unfold streq. destruct (String.eqb_spec symbol name) as [->|Hne].
  - exfalso. apply (Hfree value). left. reflexivity.
  - apply IH. intros v Hv. apply (Hfree v). right. exact Hv.
Qed.

Lemma symbol_loop_first_binding (symbol : string) (value : Z)
  (front rest : list (string * Z)) (enabled : bool) :
  (forall v, ~ In (symbol, v) front) ->
  symbol_loop symbol (front ++ (symbol, value) :: rest) enabled
  = (negb (value =? 0), true).
Proof.
  induction front as [|[name v] front IH]; intros Hfree; simpl.
  - unfold streq. rewrite String.eqb_refl.
    destruct (value =? 0), enabled; reflexivity.
  - unfold streq. destruct (String.eqb_spec symbol name) as [->|Hne].
    + exfalso. apply (Hfree v). left. reflexivity.
    + apply IH. intros v' Hv'. apply (Hfree v'). right. exact Hv'.
Qed.

Lemma set_processingEnabled_same (context : SDL_CONTEXT) :
  set_processingEnabled context (processingEnabled context) = context.
Proof. destruct context. reflexivity. Qed.

Lemma ifsymbol_guard (context : SDL_CONTEXT) :
  In (SDL_CUR_COND_STATE context) [CondNone; CondIfLang; CondElse] ->
  cond_state_eqb (SDL_CUR_COND_STATE context) CondNone
  || cond_state_eqb (SDL_CUR_COND_STATE context) CondIfLang
  || cond_state_eqb (SDL_CUR_COND_STATE context) CondElse = true.
Proof.
  simpl. intros [<-|[<-|[<-|[]]]]; reflexivity.
Qed.

(** X1: an IFSYMBOL taken in one of its states ([CondNone], [CondIfLang],
    [CondElse]) on a symbol that the symbol table does not bind reports
    [SDL_SYMNOTDEF] ([SDL_ERREXIT] when the message cannot be recorded); the
    state [CondIfSymb] is pushed all the same and nothing else changes, the
    gate included. *)
Theorem ifsymbol_unbound_symbol_reports (context : SDL_CONTEXT)
  (symbol : string) :
  In (SDL_CUR_COND_STATE context) [CondNone; CondIfLang; CondElse] ->
  (forall value, ~ In (symbol, value) (symbols context)) ->
  sdl_conditional context SDL_K_COND_SYMB (ExprSymbol symbol)
  = Some (SDL_PUSH_COND_STATE context CondIfSymb,
          report SDL_SYMNOTDEF SDL_ERREXIT).
Proof.
  intros Hstate Hfree. unfold sdl_conditional.
  rewrite (ifsymbol_guard context Hstate).
  change (symbols (SDL_PUSH_COND_STATE context CondIfSymb))
    with (symbols context).
  rewrite (symbol_loop_unbound symbol (symbols context) _ Hfree).
  rewrite set_processingEnabled_same. reflexivity.
Qed.

(** X2: an IFSYMBOL taken in one of its states on a bound symbol pushes
    [CondIfSymb] and sets the gate from the first binding of the symbol in
    the table alone: processing is enabled exactly when that value is not
    zero, whatever the gate was before. *)
Theorem ifsymbol_first_binding_sets_gate (context : SDL_CONTEXT)
  (symbol : string) (value : Z) (front rest : list (string * Z)) :
  In (SDL_CUR_COND_STATE context) [CondNone; CondIfLang; CondElse] ->
  symbols context = front ++ (symbol, value) :: rest ->
  (forall v, ~ In (symbol, v) front) ->
  sdl_conditional context SDL_K_COND_SYMB (ExprSymbol symbol)
  = Some (set_processingEnabled (SDL_PUSH_COND_STATE context CondIfSymb)
            (negb (value =? 0)),
          SDL_NORMAL).
Proof.
  intros Hstate Hsyms Hfree. unfold sdl_conditional.
  rewrite (ifsymbol_guard context Hstate).
  change (symbols (SDL_PUSH_COND_STATE context CondIfSymb))
    with (symbols context).
  rewrite Hsyms, (symbol_loop_first_binding symbol value front rest _ Hfree).
  reflexivity.
Qed.

(** X3: an ELSE_IFSYMBOL taken in the state [CondIfSymb] on a bound symbol
    replaces the state by [CondElseIf] and sets the gate from the first
    binding of its own symbol alone, whether or not the branch in front of
    it was processed. *)
Theorem else_ifsymbol_first_binding_sets_gate (context : SDL_CONTEXT)
  (symbol : string) (value : Z) (front rest : list (string * Z)) :
  SDL_CUR_COND_STATE context = CondIfSymb ->
  symbols context = front ++ (symbol, value) :: rest ->
  (forall v, ~ In (symbol, v) front) ->
  sdl_conditional context SDL_K_COND_ELSEIF (ExprSymbol symbol)
  = Some (set_processingEnabled
            (SDL_PUSH_COND_STATE (SDL_POP_COND_STATE context) CondElseIf)
            (negb (value =? 0)),
          SDL_NORMAL).
Proof.
  intros Hstate Hsyms Hfree. unfold sdl_conditional.
  rewrite Hstate. cbn [cond_state_eqb].
  change (symbols (SDL_PUSH_COND_STATE (SDL_POP_COND_STATE context)
                     CondElseIf))
    with (symbols context).
  rewrite Hsyms, (symbol_loop_first_binding symbol value front rest _ Hfree).
  reflexivity.
Qed.

(** X4: an IFSYMBOL met in the branch of an IFSYMBOL or of an ELSE_IFSYMBOL
    (states [CondIfSymb], [CondElseIf]) is refused with [SDL_INVCONDST]
    and changes nothing: symbol conditionals nest in an ELSE branch only. *)
Theorem ifsymbol_inside_branch_refused (context : SDL_CONTEXT)
  (expr : SDL_COND_EXPR) :
  In (SDL_CUR_COND_STATE context) [CondIfSymb; CondElseIf] ->
  sdl_conditional context SDL_K_COND_SYMB expr
  = Some (context, report SDL_INVCONDST SDL_ERREXIT).
Proof.
  intros Hstate. unfold sdl_conditional. simpl in Hstate.
  destruct Hstate as [<-|[<-|[]]]; reflexivity.
Qed.

(** X5: whatever the directive, [sdl_conditional] touches the gate, the
    stack of states, the enable vector of the languages and the list of
    requested languages only: declarations, constants, options and the
    open aggregate stay as they are. *)
Theorem conditional_touches_condition_state_only
  (context context' : SDL_CONTEXT) (conditional : SDL_CONDITIONAL)
  (expr : SDL_COND_EXPR) (status : sdl_status) :
  sdl_conditional context conditional expr = Some (context', status) ->
  context'
  = set_langCondList
      (set_langEnableVec
         (set_condState
            (set_processingEnabled context (processingEnabled context'))
            (condState context'))
         (langEnableVec context'))
      (langCondList context').
Proof.
  unfold sdl_conditional. intros H.
  destruct context; cbn in H.
  destruct conditional, expr; try discriminate H;
    repeat match type of H with
           | context [if ?b then _ else _] => destruct b
           | context [let '(_, _) := ?p in _] => destruct p
           end;
    try discriminate H;
    injection H as <- _; reflexivity.
Qed.

(** ** Conditional state machine: the stack and the languages *)

(** X6: the stack of states moves by one entry at most, and only the way
    the directive says: IFSYMBOL and IFLANGUAGE push one state or leave the
    stack alone, ELSE_IFSYMBOL and ELSE keep everything below the top,
    END_IFSYMBOL and END_IFLANGUAGE pop one state or leave the stack
    alone. *)
Theorem conditional_stack_discipline (context context' : SDL_CONTEXT)
  (conditional : SDL_CONDITIONAL) (expr : SDL_COND_EXPR)
  (status : sdl_status) :
  sdl_conditional context conditional expr = Some (context', status) ->
  match conditional with
  | SDL_K_COND_SYMB =>
      condState context' = condState context
      \/ condState context' = CondIfSymb :: condState context
  | SDL_K_COND_LANG =>
      condState context' = condState context
      \/ condState context' = CondIfLang :: condState context
  | SDL_K_COND_ELSEIF =>
      condState context' = condState context
      \/ condState context' = CondElseIf :: tl (condState context)
  | SDL_K_COND_ELSE =>
      condState context' = condState context
      \/ condState context' = CondElse :: tl (condState context)
  | SDL_K_COND_END_SYMB | SDL_K_COND_END_LANG =>
      condState context' = condState context
      \/ condState context' = tl (condState context)
  | SDL_K_COND_NONE => condState context' = condState context
  end.
Proof.
  unfold sdl_conditional. intros H.
  destruct context; cbn in H.
  destruct conditional, expr; try discriminate H;
    repeat match type of H with
           | context [if ?b then _ else _] => destruct b
           | context [let '(_, _) := ?p in _] => destruct p
           end;
    try discriminate H;
    injection H as <- _; cbn; auto.
Qed.

Lemma map_first_const (b : bool) (vec : list bool) :
  map_first (fun _ => b) (List.length vec) vec = map (fun _ => b) vec.
Proof.
  induction vec as [|x vec IH]; simpl; [reflexivity | now rewrite IH].
Qed.

Lemma map_first_all {A : Type} (f : A -> A) (vec : list A) :
  map_first f (List.length vec) vec = map f vec.
Proof.
  induction vec as [|x vec IH]; simpl; [reflexivity | now rewrite IH].
Qed.

Lemma enable_language_combine (lang : string) (langs : list string) :
  forall vec,
    List.length vec = List.length langs ->
    enable_language lang langs vec
    = map (fun p => strcaseeq lang (fst p) || snd p) (combine langs vec).
Proof.
  induction langs as [|l langs IH]; intros [|b vec] Hlen;
    try discriminate Hlen; [reflexivity|].
  simpl. rewrite IH by (simpl in Hlen; congruence).
  destruct (strcaseeq lang l); reflexivity.
Qed.

Lemma enable_language_length (lang : string) (langs : list string) :
  forall vec, List.length (enable_language lang langs vec) = List.length vec.
Proof.
  induction langs as [|l langs IH]; intros [|b vec]; simpl; auto.
Qed.

Lemma enable_languages_combine (requested langs : list string) :
  forall vec,
    List.length vec = List.length langs ->
    enable_languages requested langs vec
    = map (fun p => existsb (fun r => strcaseeq r (fst p)) requested || snd p)
        (combine langs vec).
Proof.
  unfold enable_languages.
  induction requested as [|r requested IH]; intros vec Hlen; simpl.
  - revert vec Hlen.
    induction langs as [|l langs IHl]; intros [|b vec] Hlen;
      try discriminate Hlen; [reflexivity|].
    simpl. f_equal. apply IHl. simpl in Hlen. congruence.
  - rewrite IH by (rewrite enable_language_length; exact Hlen).
    rewrite (enable_language_combine r langs vec Hlen).
    clear IH. revert vec Hlen.
    induction langs as [|l langs IHl]; intros [|b vec] Hlen;
      try discriminate Hlen; [reflexivity|].
    simpl. f_equal.
    + destruct (strcaseeq r l), (existsb _ requested), b; reflexivity.
    + apply IHl. simpl in Hlen. congruence.
Qed.

Lemma enable_languages_from_none (requested langs : list string)
  (vec : list bool) :
  List.length vec = List.length langs ->
  enable_languages requested langs (map (fun _ => false) vec)
  = map (fun lang => existsb (fun r => strcaseeq r lang) requested) langs.
Proof.
  intros Hlen.
  rewrite enable_languages_combine by (rewrite length_map; exact Hlen).
  revert vec Hlen.
  induction langs as [|l langs IH]; intros [|b vec] Hlen;
    try discriminate Hlen; [reflexivity|].
  simpl. rewrite Bool.orb_false_r. f_equal. apply IH.
  simpl in Hlen. congruence.
Qed.

Lemma cond_state_guard_any (cur : SDL_COND_STATES) :
  cond_state_eqb cur CondNone || cond_state_eqb cur CondIfLang
  || cond_state_eqb cur CondIfSymb || cond_state_eqb cur CondElseIf
  || cond_state_eqb cur CondElse = true.
Proof. destruct cur; reflexivity. Qed.

Lemma iflanguage_result (context : SDL_CONTEXT) :
  processingEnabled context = true ->
  List.length (langEnableVec context) = List.length (languages context) ->
  sdl_conditional context SDL_K_COND_LANG ExprLangs
  = Some (set_langCondList
            (set_langEnableVec (SDL_PUSH_COND_STATE context CondIfLang)
               (map (fun lang =>
                       existsb (fun r => strcaseeq r lang)
                         (langCondList context))
                  (languages context)))
            [],
          SDL_NORMAL).
Proof.
  intros Hon Hlen. unfold sdl_conditional. rewrite Hon.
  rewrite cond_state_guard_any.
  unfold languagesSpecified.
  change (languages (SDL_PUSH_COND_STATE context CondIfLang))
    with (languages context).
  change (langEnableVec (SDL_PUSH_COND_STATE context CondIfLang))
    with (langEnableVec context).
  change (langCondList (SDL_PUSH_COND_STATE context CondIfLang))
    with (langCondList context).
  rewrite <- Hlen, map_first_const.
  rewrite (enable_languages_from_none _ _ _ Hlen). reflexivity.
Qed.

(** X7: with processing enabled, IFLANGUAGE is taken in every state: it
    pushes [CondIfLang], empties the list of requested languages and leaves
    a language of the command line enabled exactly when one of the
    requested languages names it, letter case apart. *)
Theorem iflanguage_enables_requested_languages (context : SDL_CONTEXT) :
  processingEnabled context = true ->
  List.length (langEnableVec context) = List.length (languages context) ->
  sdl_conditional context SDL_K_COND_LANG ExprLangs
  = Some (set_langCondList
            (set_langEnableVec (SDL_PUSH_COND_STATE context CondIfLang)
               (map (fun lang =>
                       existsb (fun r => strcaseeq r lang)
                         (langCondList context))
                  (languages context)))
            [],
          SDL_NORMAL).
Proof. exact (iflanguage_result context). Qed.

(** X8: IFLANGUAGE followed by END_IFLANGUAGE, both with processing enabled,
    gives back the stack of states of before and leaves every language of
    the command line enabled, whatever was enabled before the pair. *)
Theorem iflanguage_end_iflanguage_restores (context : SDL_CONTEXT) :
  processingEnabled context = true ->
  List.length (langEnableVec context) = List.length (languages context) ->
  exists inside after,
    sdl_conditional context SDL_K_COND_LANG ExprLangs
    = Some (inside, SDL_NORMAL)
    /\ sdl_conditional inside SDL_K_COND_END_LANG ExprLangs
       = Some (after, SDL_NORMAL)
    /\ condState after = condState context
    /\ langEnableVec after = map (fun _ => true) (languages context)
    /\ processingEnabled after = true.
Proof.
  intros Hon Hlen.
  rewrite (iflanguage_result context Hon Hlen).
  eexists. eexists. split; [reflexivity|].
  unfold sdl_conditional. cbn. rewrite Hon. cbn.
  split; [reflexivity|]. split; [reflexivity|]. split; [|exact Hon].
  unfold languagesSpecified. cbn.
  rewrite <- (length_map
                (fun lang =>
                   existsb (fun r => strcaseeq r lang) (langCondList context))
                (languages context)) at 1.
  rewrite map_first_const, map_map. reflexivity.
Qed.

Lemma ifsymbol_taken (context : SDL_CONTEXT) (symbol : string) :
  In (SDL_CUR_COND_STATE context) [CondNone; CondIfLang; CondElse] ->
  exists enabled status,
    sdl_conditional context SDL_K_COND_SYMB (ExprSymbol symbol)
    = Some (set_processingEnabled (SDL_PUSH_COND_STATE context CondIfSymb)
              enabled,
            status).
Proof.
  intros Hstate. unfold sdl_conditional.
  rewrite (ifsymbol_guard context Hstate).
  destruct (symbol_loop _ _ _) as [enabled done].
  exists enabled. destruct done; eexists; reflexivity.
Qed.

(** X9: IFSYMBOL, ELSE and END_IFSYMBOL in a row, started in a state that
    admits IFSYMBOL: the ELSE is accepted and inverts the gate that the
    IFSYMBOL left, the END_IFSYMBOL is accepted, and behind it the stack of
    states is the one of before with processing enabled. *)
Theorem ifsymbol_else_end_ifsymbol_restores (context : SDL_CONTEXT)
  (symbol : string) :
  In (SDL_CUR_COND_STATE context) [CondNone; CondIfLang; CondElse] ->
  exists branch status middle after,
    sdl_conditional context SDL_K_COND_SYMB (ExprSymbol symbol)
    = Some (branch, status)
    /\ sdl_conditional branch SDL_K_COND_ELSE ExprNull
       = Some (middle, SDL_NORMAL)
    /\ processingEnabled middle = negb (processingEnabled branch)
    /\ sdl_conditional middle SDL_K_COND_END_SYMB ExprNull
       = Some (after, SDL_NORMAL)
    /\ condState after = condState context
    /\ processingEnabled after = true.
Proof.
  intros Hstate.
  destruct (ifsymbol_taken context symbol Hstate) as (enabled & status & ->).
  eexists. eexists. eexists. eexists.
  split; [reflexivity|].
  unfold sdl_conditional. cbn.
  split; [reflexivity|]. split; [reflexivity|].
  split; [reflexivity|]. split; reflexivity.
Qed.

(** ** Tag resolver: user types and explicit tags *)

Lemma get_declare_typeID (l : list SDL_DECLARE) (typeID : Z)
  (myDeclare : SDL_DECLARE) :
  sdl_get_declare l typeID = Some myDeclare -> dec_typeID myDeclare = typeID.
Proof.
  unfold sdl_get_declare. intros H. apply find_some in H.
  destruct H as [_ H]. now apply Z.eqb_eq in H.
Qed.

(** X10: for a DECLAREd type that is registered with an empty tag, the
    resolver calls itself with the type ID it was called with, so the
    defaulted tag is never returned: whatever depth the recursion is
    granted, it is used up. *)
Theorem get_tag_of_untagged_declare_never_returns (fuel : nat)
  (context : SDL_CONTEXT) (datatype : Z) (lower : bool)
  (myDeclare : SDL_DECLARE) :
  in_range SDL_K_DECLARE_MIN datatype SDL_K_DECLARE_MAX = true ->
  sdl_get_declare (declares context) datatype = Some myDeclare ->
  dec_tag myDeclare = EmptyString ->
  _sdl_get_tag fuel context None datatype lower = None.
Proof.
  intros Hrange Hfind Htag.
  induction fuel as [|fuel IH]; [reflexivity|].
  cbn [_sdl_get_tag].
  assert (Hconst : (datatype =? SDL_K_TYPE_CONST) = false).
  { unfold in_range, SDL_K_DECLARE_MIN in Hrange.
    apply Bool.andb_true_iff in Hrange. destruct Hrange as [Hlo _].
    apply Z.leb_le in Hlo. apply Z.eqb_neq. unfold SDL_K_TYPE_CONST. lia. }
  assert (Hbase :
    in_range SDL_K_BASE_TYPE_MIN datatype SDL_K_BASE_TYPE_MAX = false).
  { unfold in_range, SDL_K_DECLARE_MIN in Hrange.
    apply Bool.andb_true_iff in Hrange. destruct Hrange as [Hlo _].
    apply Z.leb_le in Hlo. unfold in_range.
    apply Bool.andb_false_iff. right. apply Z.leb_gt.
    unfold SDL_K_BASE_TYPE_MAX. lia. }
  rewrite Hconst, Hbase, Hrange, Hfind, Htag.
  rewrite (get_declare_typeID _ _ _ Hfind).
  cbn [strlen String.length Z.of_nat Z.ltb Z.compare].
  rewrite IH. reflexivity.
Qed.

Lemma strip_trailing_underscores_decompose (s : string) :
  exists n,
    s = String.append (strip_trailing_underscores s) (underscores n).
Proof.
  induction s as [|c s IH]; [exists O; reflexivity|].
  destruct IH as [n Hn]. cbn [strip_trailing_underscores].
  destruct (strip_trailing_underscores s) as [|a t] eqn:Hs.
  - destruct (Ascii.eqb_spec c "_") as [->|Hc].
    + exists (S n). simpl in Hn |- *. now rewrite <- Hn.
    + exists n. simpl in Hn |- *. now rewrite <- Hn.
  - exists n. simpl in Hn |- *. now rewrite <- Hn.
Qed.

Lemma strip_trailing_underscores_end (s : string) :
  ends_with_underscore (strip_trailing_underscores s) = false.
Proof.
  induction s as [|c s IH]; [reflexivity|].
  cbn [strip_trailing_underscores].
  destruct (strip_trailing_underscores s) as [|a t] eqn:Hs.
  - destruct (Ascii.eqb c "_") eqn:Hc; [reflexivity|].
    simpl. exact Hc.
  - exact IH.
Qed.

(** X11: an explicit tag that is not empty always comes back with its first
    character; behind it, trailing underscores and nothing else are cut off,
    all of them.  The data type and the case of the host id play no part. *)
Theorem explicit_tag_loses_trailing_underscores_only (fuel : nat)
  (context : SDL_CONTEXT) (c0 : ascii) (s : string) (datatype : Z)
  (lower : bool) :
  exists r n,
    _sdl_get_tag (S fuel) context (Some (String c0 s)) datatype lower
    = Some (Some (String c0 r))
    /\ s = String.append r (underscores n)
    /\ ends_with_underscore r = false.
Proof.
  destruct (strip_trailing_underscores_decompose s) as [n Hn].
  exists (strip_trailing_underscores s), n.
  split; [|split].
  - cbn [_sdl_get_tag String.length]. now rewrite trim_tail_loop_spec.
  - exact Hn.
  - apply strip_trailing_underscores_end.
Qed.

(** ** Constants of the bitfields, in order *)

Lemma set_constants_twice (c : SDL_CONTEXT) (a b : list SDL_CONSTANT) :
  set_constants (set_constants c a) b = set_constants c b.
Proof. reflexivity. Qed.

(** X12: the constants of the bitfields join the queue in the order of the
    members, each member giving its size constant and then, with the mask
    option, its mask constant, a member that is no bitfield giving nothing;
    nothing else in the context changes. *)
Theorem bitfield_constants_follow_member_order
  (memberList : list SDL_MEMBERS) :
  forall context context',
    _sdl_create_bitfield_constants context memberList = Some context' ->
    exists css,
      Forall2 (fun m cs => member_constants context m = Some cs) memberList
        css
      /\ context'
         = set_constants context (constants context ++ List.concat css).
Proof.
  induction memberList as [|m0 rest IH]; intros context context' Hrun.
  - injection Hrun as <-. exists []. split; [constructor|].
    simpl. rewrite app_nil_r. destruct context; reflexivity.
  - cbn [_sdl_create_bitfield_constants] in Hrun.
    bind_split Hrun as c1 E.
    rewrite create_member_constants_spec in E.
    bind_split E as cs0 E0. injection E as <-.
    destruct (IH _ _ Hrun) as (css & Hall & ->).
    exists (cs0 :: css). split.
    + constructor; [exact E0|].
      eapply Forall2_impl; [|exact Hall].
      intros m cs Hm. rewrite <- Hm. symmetry.
      now apply member_constants_wordSize.
    + rewrite set_constants_twice. simpl. now rewrite <- app_assoc.
Qed.


Lemma member_constants_in_range (context : SDL_CONTEXT) (m : SDL_MEMBERS) :
  (forall top type offset item,
     m = Member_Item top type offset item ->
     item_mask item = true ->
     item_length item < 64 /\ 0 <= item_bitOffset item < 64) ->
  member_constants context m <> None.
Proof.
  intros Hrange. unfold member_constants.
  destruct (sdl_isBitfield m) eqn:Hbf; [|discriminate].
  destruct m as [top type offset item| |]; try discriminate Hbf.
  cbn [member_item bind].
  destruct (item_mask item) eqn:Hmask; [|discriminate].
  destruct (Hrange top type offset item eq_refl Hmask) as [Hlen Hoff].
  unfold bitfield_mask, pow2_uint64.
  destruct (item_length item <? 0); cbn [bind].
  - replace ((0 <=? item_bitOffset item) && (item_bitOffset item <? 64))
      with true; [discriminate|].
    symmetry. apply Bool.andb_true_iff. split;
      [apply Z.leb_le | apply Z.ltb_lt]; lia.
  - replace (item_length item <? 64) with true
      by (symmetry; apply Z.ltb_lt; lia).
    cbn [bind].
    replace ((0 <=? item_bitOffset item) && (item_bitOffset item <? 64))
      with true; [discriminate|].
    symmetry. apply Bool.andb_true_iff. split;
      [apply Z.leb_le | apply Z.ltb_lt]; lia.
Qed.

(** X13: the constants of the bitfields are produced for every member list
    in which each bitfield with the mask option is shorter than 64 bits and
    starts at a bit from 0 to 63 (the range in which the mask is defined in
    64-bit arithmetic). *)
Theorem bitfield_constants_are_produced (context : SDL_CONTEXT)
  (memberList : list SDL_MEMBERS) :
  (forall top type offset item,
     In (Member_Item top type offset item) memberList ->
     item_mask item = true ->
     item_length item < 64 /\ 0 <= item_bitOffset item < 64) ->
  exists context',
    _sdl_create_bitfield_constants context memberList = Some context'.
Proof.
  intros Hrange. apply create_bitfield_constants_defined.
  intros m Hm. apply member_constants_in_range.
  intros top type offset item -> Hmask.
  exact (Hrange top type offset item Hm Hmask).
Qed.
(** ** Alignment and resizing *)



Lemma same_but_host_refl (m : SDL_MEMBERS) : same_but_host m m.
Proof.
  destruct m as [top type offset item| |]; simpl; auto.
  repeat split. destruct item; reflexivity.
Qed.

Lemma same_but_host_resize (context : SDL_CONTEXT) (length : Z)
  (m : SDL_MEMBERS) :
  same_but_host m (resize_member context length m).
Proof.
  destruct m as [top type offset item| |]; simpl; repeat split.
Qed.

Lemma same_but_host_copy (prev m : SDL_MEMBERS) :
  same_but_host m (copy_host prev m).
Proof.
  destruct prev as [ptop ptype poffset pitem| |];
    try apply same_but_host_refl.
  destruct m as [top type offset item| |]; simpl; repeat split.
Qed.

Lemma Forall2_same_refl (l : list SDL_MEMBERS) : Forall2 same_but_host l l.
Proof.
  induction l as [|m l IH]; constructor;
    [apply same_but_host_refl | exact IH].
Qed.

Lemma Forall2_rev_same (l l' : list SDL_MEMBERS) :
  Forall2 same_but_host l l' -> Forall2 same_but_host (rev l) (rev l').
Proof.
  induction 1 as [|m m' l l' Hm Hl IH]; simpl; [constructor|].
  apply Forall2_app; [exact IH|]. constructor; [exact Hm | constructor].
Qed.

Lemma check_bitfieldSizes_at_same (context : SDL_CONTEXT)
  (before : list SDL_MEMBERS) :
  forall member length myUpdated before' member' updated,
    check_bitfieldSizes_at context before member length myUpdated
    = Some (before', member', updated) ->
    Forall2 same_but_host before before' /\ same_but_host member member'.
Proof.
  induction before as [|prev before IH];
    intros member length myUpdated before' member' updated H;
    cbn [check_bitfieldSizes_at] in H.
  - destruct myUpdated; [discriminate H|].
    injection H as <- <- _. split; [constructor|].
    apply same_but_host_resize.
  - destruct (sdl_isComment prev).
    + bind_split H as p E. destruct p as [[b1 m1] u1].
      injection H as <- <- _.
      destruct (IH _ _ _ _ _ _ E) as [Hb Hm].
      split; [constructor; [apply same_but_host_refl | exact Hb] | exact Hm].
    + destruct (resizable prev).
      * bind_split H as p E. destruct p as [[b1 p1] u1].
        destruct (IH _ _ _ _ _ _ E) as [Hb Hp].
        destruct u1; injection H as <- <- _;
          (split; [constructor; [exact Hp | exact Hb]|]).
        -- apply same_but_host_copy.
        -- apply same_but_host_resize.
      * injection H as <- <- _.
        split; [apply Forall2_same_refl | apply same_but_host_refl].
Qed.

Lemma check_bitfieldSizes_first_same (context : SDL_CONTEXT)
  (before : list SDL_MEMBERS) :
  forall length newMember before' newMember',
    check_bitfieldSizes_first context before length newMember
    = Some (before', newMember') ->
    Forall2 same_but_host before before'
    /\ same_but_host newMember newMember'.
Proof.
  induction before as [|prev before IH];
    intros length newMember before' newMember' H;
    cbn [check_bitfieldSizes_first] in H; [discriminate H|].
  destruct (sdl_isComment prev).
  - bind_split H as p E. destruct p as [b1 m1].
    injection H as <- <-.
    destruct (IH _ _ _ _ E) as [Hb Hm].
    split; [constructor; [apply same_but_host_refl | exact Hb] | exact Hm].
  - destruct (resizable prev).
    + bind_split H as p E. destruct p as [[b1 p1] u1].
      injection H as <- <-.
      destruct (check_bitfieldSizes_at_same _ _ _ _ _ _ _ _ E) as [Hb Hp].
      split; [constructor; [exact Hp | exact Hb]|].
      apply same_but_host_copy.
    + injection H as <- <-.
      split; [apply Forall2_same_refl | apply same_but_host_refl].
Qed.

Lemma check_bitfieldSizes_same (context : SDL_CONTEXT)
  (memberList memberList' : list SDL_MEMBERS) (length : Z)
  (newMember newMember' : SDL_MEMBERS) :
  _sdl_check_bitfieldSizes context memberList length newMember
  = Some (memberList', newMember') ->
  Forall2 same_but_host memberList memberList'
  /\ same_but_host newMember newMember'.
Proof.
  unfold _sdl_check_bitfieldSizes. intros H.
  bind_split H as p E. destruct p as [b1 m1]. injection H as <- <-.
  destruct (check_bitfieldSizes_first_same _ _ _ _ _ _ E) as [Hb Hm].
  split; [|exact Hm].
  rewrite <- (rev_involutive memberList). now apply Forall2_rev_same.
Qed.

(** X15: resizing the hosts of a run of bitfields moves nothing: the member
    list keeps its members in their order, and each member, the new one
    included, keeps its id, its length, its bit offset, its mask flag and
    its byte offset; the type and the size of the host of an item are all
    that may differ, and comments and subaggregates are left as they are. *)
Theorem check_bitfieldSizes_changes_hosts_only (context : SDL_CONTEXT)
  (memberList memberList' : list SDL_MEMBERS) (length : Z)
  (newMember newMember' : SDL_MEMBERS) :
  _sdl_check_bitfieldSizes context memberList length newMember
  = Some (memberList', newMember') ->
  Forall2 same_but_host memberList memberList'
  /\ same_but_host newMember newMember'.
Proof. apply check_bitfieldSizes_same. Qed.

(** X16: resizing for a run of at most 64 bits, from a byte, word, longword
    or quadword host: the host that comes out holds the run, is never
    smaller than the host that went in, and when it differs from that one
    it is the smallest that holds the run (half its width does not). *)
Theorem resize_type_fits_runs_up_to_64_bits (type length : Z) :
  In type [SDL_K_TYPE_BITFLD_B; SDL_K_TYPE_BITFLD_W; SDL_K_TYPE_BITFLD_L;
           SDL_K_TYPE_BITFLD_Q] ->
  length <= 64 ->
  length <= host_bits (resize_type type length)
  /\ host_bits type <= host_bits (resize_type type length)
  /\ (resize_type type length = type
      \/ host_bits (resize_type type length) < 2 * length).
Proof.
  intros Htype Hlength. simpl in Htype.
  destruct Htype as [<-|[<-|[<-|[<-|[]]]]]; unfold resize_type.
  all: destruct (Z.gtb_spec length 8) as [H8|H8];
    destruct (Z.gtb_spec length 16) as [H16|H16];
    destruct (Z.gtb_spec length 32) as [H32|H32];
    destruct (Z.gtb_spec length 64) as [H64|H64];
    try lia; cbn -[Z.mul Z.le Z.lt].
  all: lia.
Qed.

(** ** What the layout engine leaves alone *)

Lemma fillers_counted_none (context : SDL_CONTEXT) :
  fillers_counted context context 0.
Proof.
  unfold fillers_counted. simpl. rewrite Z.add_0_r.
  destruct context; reflexivity.
Qed.

Lemma seal_run_frame (context context' : SDL_CONTEXT)
  (memberList memberList' : list SDL_MEMBERS) (prev : SDL_MEMBERS)
  (parentIsUnion : bool) :
  seal_run context memberList prev parentIsUnion
  = Some (context', memberList') ->
  exists fillers,
    memberList' = memberList ++ fillers
    /\ (List.length fillers <= 1)%nat
    /\ fillers_counted context context' (List.length fillers).
Proof.
  unfold seal_run. intros H. bind_split H as prevIt E.
  destruct ((availBits prevIt >? 0) && negb parentIsUnion).
  - bind_split H as l E1. injection H as <- <-.
    destruct prev as [top type offset item| |]; try discriminate E1.
    injection E1 as <-. eexists. split; [reflexivity|].
    split; [simpl; lia | reflexivity].
  - injection H as <- <-. exists []. rewrite app_nil_r.
    split; [reflexivity|]. split; [simpl; lia | apply fillers_counted_none].
Qed.

Lemma frame_none (context : SDL_CONTEXT) (memberList : list SDL_MEMBERS) :
  exists resized fillers,
    Forall2 same_but_host memberList resized
    /\ memberList = resized ++ fillers
    /\ (List.length fillers <= 1)%nat
    /\ fillers_counted context context (List.length fillers).
Proof.
  exists memberList, []. rewrite app_nil_r.
  split; [apply Forall2_same_refl|]. split; [reflexivity|].
  split; [simpl; lia | apply fillers_counted_none].
Qed.

Lemma frame_sealed (context context' : SDL_CONTEXT)
  (memberList resized memberList' : list SDL_MEMBERS) (prev : SDL_MEMBERS)
  (parentIsUnion : bool) :
  Forall2 same_but_host memberList resized ->
  seal_run context resized prev parentIsUnion = Some (context', memberList') ->
  exists resized fillers,
    Forall2 same_but_host memberList resized
    /\ memberList' = resized ++ fillers
    /\ (List.length fillers <= 1)%nat
    /\ fillers_counted context context' (List.length fillers).
Proof.
  intros Hsame H.
  destruct (seal_run_frame _ _ _ _ _ _ H) as (fillers & -> & Hlen & Hcount).
  exists resized, fillers. auto.
Qed.

Lemma determine_offsets_frame (context context' : SDL_CONTEXT)
  (member member' : SDL_MEMBERS) (memberList memberList' : list SDL_MEMBERS)
  (parentIsUnion : bool) (parent : option SDL_SUBAGGR) :
  _sdl_determine_offsets context member memberList parentIsUnion parent
  = Some (context', member', memberList') ->
  exists resized fillers,
    Forall2 same_but_host memberList resized
    /\ memberList' = resized ++ fillers
    /\ (List.length fillers <= 1)%nat
    /\ fillers_counted context context' (List.length fillers).
Proof.
  unfold _sdl_determine_offsets. intros H.
  destruct (sdl_isComment member).
  { injection H as <- _ <-. apply frame_none. }
  bind_split H as p E. destruct p as [[c1 m1] l1].
  assert (Hend : c1 = context' /\ l1 = memberList').
  { destruct m1 as [top1 type1 offset1 item1| |].
    - bind_split H as adjustment Eadj. injection H as <- _ <-. auto.
    - injection H as <- _ <-. auto.
    - injection H as <- _ <-. auto. }
  destruct Hend as [<- <-]. clear H.
  destruct (sdl_isBitfield member).
  - destruct (negb match last_member memberList with
                   | Some prev => sdl_isBitfield prev
                   | None => false
                   end).
    + bind_split E as offset Eoff. injection E as <- _ <-.
      apply frame_none.
    + bind_split E as item Eitem.
      bind_split E as p Echeck. destruct p as [l2 m2].
      assert (Hsame : Forall2 same_but_host memberList l2).
      { destruct (negb (item_sizedBitfield item)).
        - apply (check_bitfieldSizes_same _ _ _ _ _ _ Echeck).
        - injection Echeck as <- _. apply Forall2_same_refl. }
      bind_split E as prev Eprev. bind_split E as prevIt EprevIt.
      bind_split E as item2 Eitem2.
      destruct ((item_size item2 =? item_size prevIt)
                && (item_length item2 <=? availBits prevIt)).
      * injection E as <- _ <-. exists l2, []. rewrite app_nil_r.
        split; [exact Hsame|]. split; [reflexivity|].
        split; [simpl; lia | apply fillers_counted_none].
      * bind_split E as p Eseal. destruct p as [c3 l3].
        injection E as <- _ <-.
        exact (frame_sealed _ _ _ _ _ _ _ Hsame Eseal).
  - bind_split E as p Eseal. destruct p as [c3 l3].
    assert (Hend : c3 = c1 /\ l3 = l1).
    { destruct (last_member memberList) as [prev|].
      - destruct ((match Some prev with
                   | Some prev0 => sdl_isItem prev0
                   | None => false
                   end) && negb parentIsUnion).
        + bind_split E as prevIt EprevIt. injection E as <- _ <-. auto.
        + destruct (negb parentIsUnion).
          * destruct prev; try discriminate E; injection E as <- _ <-; auto.
          * injection E as <- _ <-. auto.
      - injection E as <- _ <-. auto. }
    destruct Hend as [<- <-]. clear E.
    destruct (last_member memberList) as [prev|].
    + destruct (sdl_isBitfield prev).
      * exact (frame_sealed _ _ _ _ _ _ _ (Forall2_same_refl _) Eseal).
      * injection Eseal as <- <-. apply frame_none.
    + injection Eseal as <- <-. apply frame_none.
Qed.

(** X17: placing a member changes the hosts of bitfields already in the
    list and appends at most one filler to it, nothing more: the members
    stay in their order with their ids, lengths and offsets, and the context
    differs in the count of the fillers alone, which goes up by one exactly
    when a filler was appended; no constant is queued. *)
Theorem determine_offsets_resizes_and_fills_only
  (context context' : SDL_CONTEXT) (member member' : SDL_MEMBERS)
  (memberList memberList' : list SDL_MEMBERS) (parentIsUnion : bool)
  (parent : option SDL_SUBAGGR) :
  _sdl_determine_offsets context member memberList parentIsUnion parent
  = Some (context', member', memberList') ->
  exists resized fillers,
    Forall2 same_but_host memberList resized
    /\ memberList' = resized ++ fillers
    /\ (List.length fillers <= 1)%nat
    /\ fillers_counted context context' (List.length fillers).
Proof. apply determine_offsets_frame. Qed.

(** ** The size of a union *)




(** ** The dispatcher of aggregates *)

(** X19: what stands in the branch of an IFSYMBOL whose symbol is bound to
    0 is skipped: the directive disables processing, and an AGGREGATE, a
    member and an END met in that branch answer [SDL_NORMAL] without
    declaring anything; the member and the END only drop the options that
    were pending. *)
Theorem aggregate_in_false_branch_is_skipped (context : SDL_CONTEXT)
  (symbol : string) (front rest : list (string * Z)) (name : string)
  (datatype aggType : Z) (member : option string) (memberType memberAggr : Z)
  (lineComment startComment middleComment endComment : bool)
  (endName : option string) :
  In (SDL_CUR_COND_STATE context) [CondNone; CondIfLang; CondElse] ->
  symbols context = front ++ (symbol, 0) :: rest ->
  (forall v, ~ In (symbol, v) front) ->
  exists inside,
    sdl_conditional context SDL_K_COND_SYMB (ExprSymbol symbol)
    = Some (inside, SDL_NORMAL)
    /\ processingEnabled inside = false
    /\ sdl_aggregate inside name datatype aggType = Some (inside, SDL_NORMAL)
    /\ sdl_aggregate_member inside member memberType memberAggr lineComment
         startComment middleComment endComment
       = Some (_sdl_reset_options inside, SDL_NORMAL)
    /\ sdl_aggregate_compl inside endName
       = Some (_sdl_reset_options inside, SDL_NORMAL)
    /\ aggregates (_sdl_reset_options inside) = aggregates context
    /\ constants (_sdl_reset_options inside) = constants context
    /\ aggregateDepth (_sdl_reset_options inside) = aggregateDepth context.
Proof.
  intros Hstate Hsyms Hfree.
  exists (set_processingEnabled (SDL_PUSH_COND_STATE context CondIfSymb)
            false).
  split.
  - unfold sdl_conditional. rewrite (ifsymbol_guard context Hstate).
    change (symbols (SDL_PUSH_COND_STATE context CondIfSymb))
      with (symbols context).
    rewrite Hsyms, (symbol_loop_first_binding symbol 0 front rest _ Hfree).
    reflexivity.
  - repeat split.
Qed.

Lemma find_app_none {A : Type} (f : A -> bool) (l : list A) (x : A) :
  Forall (fun a => f a = false) l -> f x = true ->
  find f (l ++ [x]) = Some x.
Proof.
  induction 1 as [|a l Ha Hl IH]; intros Hx; simpl.
  - now rewrite Hx.
  - rewrite Ha. now apply IH.
Qed.

(** X20: an AGGREGATE opened at module level (STRUCTURE or UNION) joins the
    tail of the queue without members, takes the next type ID and becomes
    the current aggregate; when the IDs in the queue were all below the
    next ID they still are, so the new ID names the new aggregate and no
    other. *)
Theorem aggregate_takes_fresh_type_id (context : SDL_CONTEXT) (name : string)
  (datatype aggType : Z) :
  processingEnabled context = true ->
  aggregateDepth context = 0 ->
  In aggType [SDL_K_TYPE_STRUCT; SDL_K_TYPE_UNION] ->
  Forall (fun a => agg_typeID a < aggregates_nextID context)
    (aggregates context) ->
  exists context' myAggr,
    sdl_aggregate context name datatype aggType = Some (context', SDL_NORMAL)
    /\ aggregates context' = aggregates context ++ [myAggr]
    /\ agg_id myAggr = name
    /\ agg_members myAggr = []
    /\ agg_typeID myAggr = aggregates_nextID context
    /\ aggregates_nextID context' = aggregates_nextID context + 1
    /\ Forall (fun a => agg_typeID a < aggregates_nextID context')
         (aggregates context')
    /\ sdl_get_aggregate (aggregates context') (agg_typeID myAggr)
       = Some myAggr
    /\ get_current context' = Some (CurrentAggr myAggr).
Proof.
  intros Hon Hdepth Htype Hids. unfold sdl_aggregate.
  rewrite Hon, Hdepth. cbn [Z.eqb negb].
  destruct (sdl_isUnsigned datatype) as [_unsigned datatype'].
  assert (Hbase :
    in_range SDL_K_BASE_TYPE_MIN aggType SDL_K_BASE_TYPE_MAX = true).
  { simpl in Htype. destruct Htype as [<-|[<-|[]]]; reflexivity. }
  rewrite (get_tag_base_type tag_depth context aggType _ Hbase).
  rewrite bind_Some. eexists. eexists.
  split; [reflexivity|].
  cbn [aggregates set_aggregateDepth set_aggregates set_aggregates_nextID
       agg_id agg_members agg_typeID aggregates_nextID].
  split; [reflexivity|]. split; [reflexivity|]. split; [reflexivity|].
  split; [reflexivity|]. split; [reflexivity|]. split; [|split].
  - apply Forall_app. split.
    + eapply Forall_impl; [|exact Hids]. cbv beta. intros a Ha. lia.
    + constructor; [cbn; lia | constructor].
  - unfold sdl_get_aggregate. apply find_app_none.
    + eapply Forall_impl; [|exact Hids]. cbv beta. intros a Ha.
      apply Z.eqb_neq. cbn. lia.
    + cbn. apply Z.eqb_refl.
  - unfold get_current.
    cbn [aggregates set_aggregateDepth set_aggregates set_aggregates_nextID
         aggregateDepth].
    rewrite split_tail_app. rewrite bind_Some. cbv beta iota.
    rewrite Hdepth. reflexivity.
Qed.

(** ** The depth of the open aggregates *)

Lemma store_open_subaggr (steps : nat) :
  forall memberList node,
    open_subaggr steps memberList = Some node ->
    store_subaggr steps memberList node = Some memberList.
Proof.
  induction steps as [|steps IH]; intros memberList node H;
    cbn [open_subaggr] in H; cbn [store_subaggr];
    destruct (split_tail memberList) as [[front [| |t0 ty0 o0 s0 ms0]]|]
      eqn:Htail;
    try discriminate H; apply split_tail_inv in Htail.
  - injection H as <-. now rewrite Htail.
  - rewrite (IH _ _ H). rewrite bind_Some. now rewrite Htail.
Qed.

Lemma set_aggregates_same (context : SDL_CONTEXT) :
  set_aggregates context (aggregates context) = context.
Proof. destruct context; reflexivity. Qed.

Lemma set_agg_members_same (aggr : SDL_AGGREGATE) :
  set_agg_members aggr (agg_members aggr) = aggr.
Proof. destruct aggr; reflexivity. Qed.

(** Storing the current aggregate as it was found changes nothing. *)
Lemma get_put_current (context : SDL_CONTEXT) (current : SDL_CURRENT) :
  get_current context = Some current ->
  put_current context current = Some context.
Proof.
  unfold get_current, put_current. intros H.
  bind_split H as p Htail. destruct p as [front aggr].
  rewrite Htail, bind_Some. cbv beta iota.
  apply split_tail_inv in Htail.
  destruct (aggregateDepth context <=? 0); [discriminate H|].
  destruct (aggregateDepth context =? 1).
  - injection H as <-. rewrite <- Htail. now rewrite set_aggregates_same.
  - bind_split H as node Enode. injection H as <-.
    rewrite (store_open_subaggr _ _ _ Enode), bind_Some.
    rewrite set_agg_members_same, <- Htail. now rewrite set_aggregates_same.
Qed.

Lemma set_options_same (context : SDL_CONTEXT) :
  options context = [] -> _sdl_reset_options context = context.
Proof.
  unfold _sdl_reset_options. destruct context; simpl. now intros ->.
Qed.

(** X21: a member without a name is refused with [SDL_INVAGGRNAM]
    ([SDL_ERREXIT] when the message cannot be recorded); with no option
    pending, the open aggregate and the rest of the context stay exactly as
    they were. *)
Theorem member_without_name_is_refused (context : SDL_CONTEXT)
  (current : SDL_CURRENT) (datatype aggType : Z)
  (lineComment startComment middleComment endComment : bool) :
  processingEnabled context = true ->
  options context = [] ->
  get_current context = Some current ->
  sdl_aggregate_member context None datatype aggType lineComment startComment
    middleComment endComment
  = Some (context, report SDL_INVAGGRNAM SDL_ERREXIT).
Proof.
  intros Hon Hopts Hcur. unfold sdl_aggregate_member.
  rewrite Hon, Hcur, bind_Some. unfold apply_member_options.
  rewrite Hopts, bind_Some. cbv beta iota.
  rewrite (get_put_current _ _ Hcur), bind_Some.
  now rewrite (set_options_same _ Hopts).
Qed.

Lemma queued_depth (c c' : SDL_CONTEXT) (cs : list SDL_CONSTANT) :
  queued c c' cs ->
  aggregateDepth c' = aggregateDepth c
  /\ aggregates_nextID c' = aggregates_nextID c
  /\ aggregates c' = aggregates c
  /\ options c' = options c.
Proof. unfold queued. intros ->. repeat split. Qed.

Lemma get_current_depth (context : SDL_CONTEXT) (current : SDL_CURRENT) :
  get_current context = Some current -> 1 <= aggregateDepth context.
Proof.
  unfold get_current. intros H. bind_split H as p E.
  destruct p as [front aggr].
  destruct (aggregateDepth context <=? 0) eqn:Hd; [discriminate H|].
  apply Z.leb_gt in Hd. lia.
Qed.

(** X22: the END of an aggregate closes one level: it is met with an
    aggregate open, and behind it the depth is one less, the options buffer
    is empty, and the queue of the AGGREGATEs has as many entries and the
    same next type ID as before. *)
Theorem aggregate_compl_closes_one_level (context context' : SDL_CONTEXT)
  (name : option string) (status : sdl_status) :
  processingEnabled context = true ->
  sdl_aggregate_compl context name = Some (context', status) ->
  1 <= aggregateDepth context
  /\ aggregateDepth context' = aggregateDepth context - 1
  /\ options context' = []
  /\ List.length (aggregates context') = List.length (aggregates context)
  /\ aggregates_nextID context' = aggregates_nextID context.
Proof.
  intros Hproc H. unfold sdl_aggregate_compl in H. rewrite Hproc in H.
  bind_split H as current Ecur. bind_split H as c1 Eopt.
  apply compl_options_context in Eopt. destruct Eopt as (dims & ->).
  split; [exact (get_current_depth _ _ Ecur)|].
  destruct current as [myAggr|self].
  - bind_split H as p Etail. destruct p as [front x].
    bind_split H as q Esize. destruct q as [[c3 members] size].
    injection H as <- _.
    unfold _sdl_aggregate_size_aggr in Esize.
    destruct (aggregate_size_members_inv _ _ _ _ _ _ _ _ _ _ _ Esize)
      as (cs & Hq & _ & _).
    destruct (queued_depth _ _ _ Hq) as (Hdepth & Hnext & Haggr & _).
    apply split_tail_inv in Etail.
    cbn [aggregates set_aggregateDepth set_dimensions] in Etail.
    cbn [_sdl_reset_options options aggregateDepth aggregates
         aggregates_nextID set_options set_aggregates].
    rewrite Hdepth, Hnext, Etail, !length_app. repeat split.
  - bind_split H as q Esize. destruct q as [[c3 self'] size].
    unfold _sdl_aggregate_size_subaggr in Esize.
    destruct self as [| |top type offset subAggr memberList];
      try discriminate Esize.
    bind_split Esize as r Ealign. destruct r as [offset' subAggr'].
    bind_split Esize as s Emembers. destruct s as [[c4 memberList'] retVal].
    injection Esize as <- <- <-.
    destruct (aggregate_size_members_inv _ _ _ _ _ _ _ _ _ _ _ Emembers)
      as (cs & Hq & _ & _).
    destruct (queued_depth _ _ _ Hq) as (Hdepth & Hnext & Haggr & _).
    bind_split H as p Etail. destruct p as [front aggr].
    bind_split H as stored Estore. injection H as <- _.
    apply split_tail_inv in Etail. rewrite Haggr in Etail.
    cbn [aggregates set_aggregateDepth set_dimensions] in Etail.
    cbn [_sdl_reset_options options aggregateDepth aggregates
         aggregates_nextID set_options set_aggregates].
    rewrite Hdepth, Hnext, Etail, !length_app. repeat split.
Qed.

Lemma same_but_host_kind (m m' : SDL_MEMBERS) :
  same_but_host m m' -> sdl_isItem m' = sdl_isItem m.
Proof.
  destruct m, m'; simpl; try reflexivity; try discriminate;
    intros H; try (now inversion H); reflexivity.
Qed.

Lemma determine_offsets_kind (context context' : SDL_CONTEXT)
  (member member' : SDL_MEMBERS) (memberList memberList' : list SDL_MEMBERS)
  (parentIsUnion : bool) (parent : option SDL_SUBAGGR) :
  _sdl_determine_offsets context member memberList parentIsUnion parent
  = Some (context', member', memberList') ->
  sdl_isItem member' = sdl_isItem member.
Proof.
  unfold _sdl_determine_offsets. intros H.
  destruct (sdl_isComment member).
  { now injection H as _ <- _. }
  bind_split H as p E. destruct p as [[c1 m1] l1].
  assert (Hend : sdl_isItem member' = sdl_isItem m1).
  { destruct m1 as [top1 type1 offset1 item1| |].
    - bind_split H as adjustment Eadj. now injection H as _ <- _.
    - now injection H as _ <- _.
    - now injection H as _ <- _. }
  rewrite Hend. clear H Hend.
  destruct (sdl_isBitfield member).
  - destruct (negb match last_member memberList with
                   | Some prev => sdl_isBitfield prev
                   | None => false
                   end).
    + bind_split E as offset Eoff. injection E as _ <- _.
      destruct member; reflexivity.
    + bind_split E as item Eitem.
      bind_split E as p Echeck. destruct p as [l2 m2].
      assert (Hkind : sdl_isItem m2 = sdl_isItem member).
      { destruct (negb (item_sizedBitfield item)).
        - apply same_but_host_kind.
          apply (check_bitfieldSizes_same _ _ _ _ _ _ Echeck).
        - now injection Echeck as _ <-. }
      bind_split E as prev Eprev. bind_split E as prevIt EprevIt.
      bind_split E as item2 Eitem2.
      destruct ((item_size item2 =? item_size prevIt)
                && (item_length item2 <=? availBits prevIt)).
      * injection E as _ <- _. rewrite <- Hkind. destruct m2; reflexivity.
      * bind_split E as p Eseal. destruct p as [c3 l3].
        injection E as _ <- _. rewrite <- Hkind. destruct m2; reflexivity.
  - bind_split E as p Eseal. destruct p as [c3 l3]. clear Eseal.
    destruct (last_member memberList) as [prev|].
    + destruct ((match Some prev with
                 | Some prev0 => sdl_isItem prev0
                 | None => false
                 end) && negb parentIsUnion).
      * bind_split E as prevIt EprevIt. injection E as _ <- _.
        destruct member; reflexivity.
      * destruct (negb parentIsUnion).
        -- destruct prev; try discriminate E; injection E as _ <- _;
             destruct member; reflexivity.
        -- injection E as _ <- _. destruct member; reflexivity.
    + injection E as _ <- _. destruct member; reflexivity.
Qed.

Lemma new_member_kind (context : SDL_CONTEXT) (current : SDL_CURRENT)
  (locals : MEMBER_LOCALS) (name : string) (datatype aggType : Z)
  (lineComment startComment middleComment endComment : bool)
  (myMember : SDL_MEMBERS) (retVal : sdl_status) :
  new_member context current locals name datatype aggType lineComment
    startComment middleComment endComment = Some (myMember, retVal) ->
  sdl_isItem myMember
  = negb (one_of aggType [SDL_K_TYPE_STRUCT; SDL_K_TYPE_UNION]).
Proof.
  unfold new_member. intros H.
  destruct (one_of aggType [SDL_K_TYPE_STRUCT; SDL_K_TYPE_UNION]).
  - destruct (sdl_isUnsigned datatype) as [u d].
    bind_split H as tag Etag. now injection H as <- _.
  - destruct (datatype =? SDL_K_TYPE_COMMENT); [now injection H as <- _|].
    destruct (one_of (to_int (Z.abs (to_int datatype))) _);
      [discriminate H|].
    destruct (sdl_isUnsigned datatype) as [u d].
    destruct (member_by_datatype _ _ _ _) as [[item d'] r].
    bind_split H as tag Etag. now injection H as <- _.
Qed.

Lemma apply_member_options_frame (context c1 : SDL_CONTEXT)
  (current current1 : SDL_CURRENT) (locals : MEMBER_LOCALS) :
  apply_member_options context current = Some (c1, current1, locals) ->
  exists dims, c1 = set_dimensions context dims.
Proof.
  unfold apply_member_options. intros H.
  destruct (options context) as [|opt opts].
  - injection H as <- _ _. exists (dimensions context).
    destruct context; reflexivity.
  - cbv zeta in H. bind_split H as p E.
    destruct p as [[[cur my] dims] loc]. injection H as <- _ _.
    exists dims. reflexivity.
Qed.

Lemma put_current_frame (context context' : SDL_CONTEXT)
  (current : SDL_CURRENT) :
  put_current context current = Some context' ->
  exists aggrs, context' = set_aggregates context aggrs.
Proof.
  unfold put_current. intros H. bind_split H as p E.
  destruct p as [front aggr]. destruct current as [myAggr|node].
  - injection H as <-. eexists. reflexivity.
  - bind_split H as members Estore. injection H as <-.
    eexists. reflexivity.
Qed.

Lemma checkAndSetOrigin_frame (context context' : SDL_CONTEXT)
  (member : SDL_MEMBERS) :
  _sdl_checkAndSetOrigin context member = Some context' ->
  exists aggrs, context' = set_aggregates context aggrs.
Proof.
  unfold _sdl_checkAndSetOrigin. intros H.
  assert (Hsame : exists aggrs, context = set_aggregates context aggrs).
  { exists (aggregates context). now rewrite set_aggregates_same. }
  destruct (aggregates_nextID context >? SDL_K_AGGREGATE_MIN);
    [|injection H as <-; exact Hsame].
  bind_split H as p E. destruct p as [front aggr].
  destruct (agg_origin aggr); [injection H as <-; exact Hsame|].
  destruct (agg_origin_id aggr); [|injection H as <-; exact Hsame].
  bind_split H as id Eid.
  destruct (streq s id); injection H as <-; [|exact Hsame].
  eexists. reflexivity.
Qed.

(** X23: a named member opens a level exactly when it is a subaggregate
    (STRUCTURE or UNION): the depth goes up by one for it and stays as it
    is for an item or a comment; either way the options buffer is empty
    afterwards and no constant is queued. *)
Theorem member_opens_level_for_subaggregate_only
  (context context' : SDL_CONTEXT) (name : string) (datatype aggType : Z)
  (lineComment startComment middleComment endComment : bool)
  (status : sdl_status) :
  processingEnabled context = true ->
  sdl_aggregate_member context (Some name) datatype aggType lineComment
    startComment middleComment endComment = Some (context', status) ->
  aggregateDepth context'
  = (if one_of aggType [SDL_K_TYPE_STRUCT; SDL_K_TYPE_UNION]
     then aggregateDepth context + 1 else aggregateDepth context)
  /\ options context' = []
  /\ constants context' = constants context.
Proof.
  intros Hon H. unfold sdl_aggregate_member in H. rewrite Hon in H.
  bind_split H as current Ecur. bind_split H as p Eopts.
  destruct p as [[c1 current1] locals].
  destruct (apply_member_options_frame _ _ _ _ _ Eopts) as (dims & ->).
  bind_split H as q Enew. destruct q as [myMember retVal].
  apply new_member_kind in Enew.
  bind_split H as c2 Eput.
  destruct (put_current_frame _ _ _ Eput) as (aggrs2 & ->).
  bind_split H as c3 Eorigin.
  assert (Hc3 : exists aggrs, c3 = set_aggregates
                                     (set_dimensions context dims) aggrs).
  { destruct (negb (sdl_isComment myMember)).
    - destruct (checkAndSetOrigin_frame _ _ _ Eorigin) as (aggrs3 & ->).
      eexists. reflexivity.
    - injection Eorigin as <-. eexists. reflexivity. }
  destruct Hc3 as (aggrs3 & ->). clear Eorigin.
  bind_split H as current3 Ecur3.
  bind_split H as r Edet. destruct r as [[c4 member4] memberList4].
  pose proof (determine_offsets_kind _ _ _ _ _ _ _ _ Edet) as Hkind.
  destruct (determine_offsets_frame _ _ _ _ _ _ _ _ Edet)
    as (resized & fillers & _ & _ & _ & Hcount).
  unfold fillers_counted in Hcount. subst c4.
  bind_split H as c5 Eput5.
  destruct (put_current_frame _ _ _ Eput5) as (aggrs5 & ->).
  injection H as <- _. rewrite Hkind, Enew.
  destruct (one_of aggType [SDL_K_TYPE_STRUCT; SDL_K_TYPE_UNION]);
    repeat split.
Qed.

(** ** Module-level ITEMs *)

Lemma find_exists {A : Type} (f : A -> bool) (l : list A) (x : A) :
  In x l -> f x = true -> exists y, find f l = Some y.
Proof.
  induction l as [|a l IH]; intros Hin Hx; [destruct Hin|].
  simpl. destruct (f a) eqn:Ha; [eexists; reflexivity|].
  destruct Hin as [->|Hin]; [congruence | now apply IH].
Qed.

Lemma sdl_item_existing (context : SDL_CONTEXT) (nextID : Z)
  (name : string) (datatype : Z) (existing : SDL_ITEM) :
  processingEnabled context = true ->
  In existing (items context) ->
  item_id existing = name ->
  sdl_item context nextID name datatype
  = (context, nextID, report SDL_ABORT SDL_ERREXIT).
Proof.
  intros Hon Hin Hid. unfold sdl_item, _sdl_get_item. rewrite Hon.
  destruct (find_exists (fun i => streq (item_id i) name) _ _ Hin)
    as (y & ->); [|reflexivity].
  unfold streq. rewrite Hid. apply String.eqb_refl.
Qed.

(** X24: an ITEM whose name an ITEM of the queue already has is refused: the
    status is [SDL_ABORT] ([SDL_ERREXIT] when the message cannot be
    recorded), and neither the queue nor the next type ID changes. *)
Theorem item_declared_twice_is_refused (context : SDL_CONTEXT) (nextID : Z)
  (name : string) (datatype : Z) (existing : SDL_ITEM) :
  processingEnabled context = true ->
  In existing (items context) ->
  item_id existing = name ->
  sdl_item context nextID name datatype
  = (context, nextID, report SDL_ABORT SDL_ERREXIT).
Proof. apply sdl_item_existing. Qed.

Lemma sdl_item_new (context : SDL_CONTEXT) (nextID : Z) (name : string)
  (datatype : Z) :
  processingEnabled context = true ->
  _sdl_get_item (items context) name = None ->
  exists myItem,
    sdl_item context nextID name datatype
    = (set_items context (items context ++ [myItem]), nextID + 1, SDL_NORMAL)
    /\ item_id myItem = name
    /\ item_typeID myItem = nextID.
Proof.
  intros Hon Hnone. unfold sdl_item. rewrite Hon, Hnone.
  destruct (sdl_isUnsigned datatype) as [u d].
  eexists. split; [reflexivity|].
  destruct (d =? SDL_K_TYPE_DECIMAL); split; reflexivity.
Qed.

(** X25: [sdl_item] keeps the queue of the ITEMs well formed: when the ids
    and the type IDs in it were pairwise distinct and below the next type
    ID, they still are after the call, and an ITEM of the given name is in
    the queue, new or old. *)
Theorem item_registry_stays_well_formed (context : SDL_CONTEXT) (nextID : Z)
  (name : string) (datatype : Z) :
  processingEnabled context = true ->
  items_well_formed (items context) nextID ->
  let result := sdl_item context nextID name datatype in
  items_well_formed (items (fst (fst result))) (snd (fst result))
  /\ exists found,
       _sdl_get_item (items (fst (fst result))) name = Some found
       /\ item_id found = name.
Proof.
  intros Hon (Hids & Htypes & Hbound). cbv zeta.
  destruct (_sdl_get_item (items context) name) as [found|] eqn:Hfind.
  - pose proof Hfind as Hfound. unfold _sdl_get_item in Hfound.
    apply find_some in Hfound. destruct Hfound as [Hin Heq].
    apply String.eqb_eq in Heq.
    rewrite (sdl_item_existing context nextID name datatype
               found Hon Hin Heq).
    cbn [fst snd]. split; [repeat split; assumption|].
    exists found. split; [exact Hfind | exact Heq].
  - destruct (sdl_item_new context nextID name datatype Hon Hfind)
      as (myItem & -> & Hid & Htype).
    cbn [fst snd items set_items].
    pose proof Hfind as Habsent. unfold _sdl_get_item in Habsent.
    split; [split; [|split]|].
    + rewrite map_app. apply NoDup_app; [exact Hids | |].
      * simpl. constructor; [intros [] | constructor].
      * intros a Ha [Hnew|[]]. simpl in Hnew. rewrite Hid in Hnew.
        subst a. apply in_map_iff in Ha. destruct Ha as (i & Hi & Hin).
        pose proof (find_none _ _ Habsent i Hin) as Hne. cbv beta in Hne.
        unfold streq in Hne. rewrite Hi, String.eqb_refl in Hne.
        discriminate Hne.
    + rewrite map_app. apply NoDup_app; [exact Htypes | |].
      * simpl. constructor; [intros [] | constructor].
      * intros a Ha [Hnew|[]]. simpl in Hnew. rewrite Htype in Hnew.
        subst a. apply in_map_iff in Ha. destruct Ha as (i & Hi & Hin).
        rewrite Forall_forall in Hbound. specialize (Hbound i Hin). lia.
    + apply Forall_app. split.
      * eapply Forall_impl; [|exact Hbound]. cbv beta. intros i Hi. lia.
      * constructor; [lia | constructor].
    + exists myItem. split; [|exact Hid].
      unfold _sdl_get_item. apply find_app_none.
      * rewrite Forall_forall. intros i Hin.
        exact (find_none _ _ Habsent i Hin).
      * unfold streq. rewrite Hid. apply String.eqb_refl.
Qed.

(** ** Literal lines *)

Lemma list_ascii_of_string_app (a b : string) :
  list_ascii_of_string (String.append a b)
  = list_ascii_of_string a ++ list_ascii_of_string b.
Proof.
  induction a as [|c a IH]; simpl; [reflexivity | now rewrite IH].
Qed.

Lemma trim_line_ends_app (ends rest : list ascii) :
  forallb is_line_end ends = true ->
  trim_line_ends (ends ++ rest) = trim_line_ends rest.
Proof.
  induction ends as [|c ends IH]; intros Hends; [reflexivity|].
  simpl in Hends. apply Bool.andb_true_iff in Hends.
  destruct Hends as [Hc Hends]. simpl. rewrite Hc. now apply IH.
Qed.

Lemma forallb_rev {A : Type} (f : A -> bool) (l : list A) :
  forallb f (rev l) = forallb f l.
Proof.
  induction l as [|a l IH]; [reflexivity|].
  simpl. rewrite forallb_app, IH. simpl.
  rewrite Bool.andb_true_r. apply Bool.andb_comm.
Qed.

(** X26: with processing enabled, a literal line joins the tail of the
    queue without the line ends (line feed, form feed, carriage return) at
    its end, as long as a character that is no line end comes in front of
    them. *)
Theorem literal_line_loses_its_line_ends (context : SDL_CONTEXT)
  (literals : list string) (front : string) (c : ascii) (ends : string) :
  processingEnabled context = true ->
  is_line_end c = false ->
  forallb is_line_end (list_ascii_of_string ends) = true ->
  sdl_literal context literals (String.append (snoc front c) ends)
  = (literals ++ [snoc front c], SDL_NORMAL).
Proof.
  intros Hon Hc Hends. unfold sdl_literal. rewrite Hon. cbv zeta.
  rewrite list_ascii_of_string_app, rev_app_distr.
  rewrite trim_line_ends_app by (now rewrite forallb_rev).
  unfold snoc at 1. rewrite list_ascii_of_string_app, rev_app_distr.
  cbn [list_ascii_of_string rev app trim_line_ends]. rewrite Hc.
  cbn [rev]. rewrite rev_involutive.
  replace (string_of_list_ascii (list_ascii_of_string front ++ [c]))
    with (snoc front c); [reflexivity|].
  unfold snoc. rewrite <- (string_of_list_ascii_of_string
                             (String.append front (String c EmptyString))).
  now rewrite list_ascii_of_string_app.
Qed.

(** X27: with processing enabled, a literal line made of line ends only,
    the empty line included, joins the tail of the queue as the empty line,
    with the status [SDL_NORMAL]: the loop strips every character and ends
    on the test of the length. *)
Theorem literal_of_line_ends_only_is_queued_empty
  (context : SDL_CONTEXT) (literals : list string) (line : string) :
  processingEnabled context = true ->
  forallb is_line_end (list_ascii_of_string line) = true ->
  sdl_literal context literals line
  = (literals ++ [EmptyString], SDL_NORMAL).
Proof.
  intros Hon Hends. unfold sdl_literal. rewrite Hon. cbv zeta.
  rewrite <- (app_nil_r (rev (list_ascii_of_string line))).
  rewrite trim_line_ends_app by (now rewrite forallb_rev).
  reflexivity.
Qed.

Lemma literal_end_loop_spec (literals : list string) :
  let result := literal_end_loop literals in
  (snd result = SDL_NORMAL /\ fst result = []
   /\ Forall (fun line => sdl_call_literal line = SDL_NORMAL) literals)
  \/ exists front bad,
       literals = front ++ bad :: fst result
       /\ Forall (fun line => sdl_call_literal line = SDL_NORMAL) front
       /\ sdl_call_literal bad = snd result
       /\ snd result <> SDL_NORMAL.
Proof.
  induction literals as [|line rest IH]; cbv zeta.
  - left. repeat split. constructor.
  - cbn [literal_end_loop].
    destruct (sdl_status_eqb (sdl_call_literal line) SDL_NORMAL) eqn:Hline.
    + apply sdl_status_eqb_eq in Hline.
      destruct IH as [(Hst & Hrest & Hall)|(front & bad & Hl & Hall & Hb & Hn)].
      * left. split; [exact Hst|]. split; [exact Hrest|].
        constructor; assumption.
      * right. exists (line :: front), bad. split; [simpl; now f_equal|].
        split; [constructor; assumption|]. split; assumption.
    + right. exists [], line. cbn [fst snd app].
      split; [reflexivity|]. split; [constructor|]. split; [reflexivity|].
      intros Heq. rewrite Heq in Hline. discriminate Hline.
Qed.

(** X28: END_LITERAL with processing enabled hands the queued lines to the
    back ends from the head on and stops at the first line for which they
    do not answer [SDL_NORMAL]: either every line was accepted, the queue
    is empty and the status is [SDL_NORMAL], or the status is the answer to
    the first refused line, and the lines behind that one stay queued. *)
Theorem literal_end_stops_at_first_failure (context : SDL_CONTEXT)
  (literals : list string) :
  processingEnabled context = true ->
  let result := sdl_literal_end context literals in
  (snd result = SDL_NORMAL /\ fst result = []
   /\ Forall (fun line => sdl_call_literal line = SDL_NORMAL) literals)
  \/ exists front bad,
       literals = front ++ bad :: fst result
       /\ Forall (fun line => sdl_call_literal line = SDL_NORMAL) front
       /\ sdl_call_literal bad = snd result
       /\ snd result <> SDL_NORMAL.
Proof.
  intros Hon. unfold sdl_literal_end. rewrite Hon.
  apply literal_end_loop_spec.
Qed.

(** ** Members: strings of unknown length and comments *)

Lemma new_member_char_star_status (context : SDL_CONTEXT)
  (current : SDL_CURRENT) (locals : MEMBER_LOCALS) (name : string)
  (datatype aggType : Z)
  (lineComment startComment middleComment endComment : bool)
  (myMember : SDL_MEMBERS) (retVal : sdl_status) :
  one_of aggType [SDL_K_TYPE_STRUCT; SDL_K_TYPE_UNION] = false ->
  Z.abs datatype = SDL_K_TYPE_CHAR_STAR ->
  new_member context current locals name datatype aggType
    lineComment startComment middleComment endComment
  = Some (myMember, retVal) ->
  retVal = report SDL_INVUNKLEN SDL_ERREXIT.
Proof.
  intros Hagg Habs H. unfold new_member in H. rewrite Hagg in H.
  assert (Hcomment : (datatype =? SDL_K_TYPE_COMMENT) = false).
  { apply Z.eqb_neq. unfold SDL_K_TYPE_COMMENT.
    unfold SDL_K_TYPE_CHAR_STAR in Habs. lia. }
  rewrite Hcomment in H. unfold sdl_isUnsigned in H.
  rewrite (to_int_abs datatype SDL_K_TYPE_CHAR_STAR Habs) in H
    by (unfold SDL_K_TYPE_CHAR_STAR; lia).
  rewrite Habs in H.
  change (one_of SDL_K_TYPE_CHAR_STAR
            [SDL_K_TYPE_COMMENT; SDL_K_TYPE_STRUCT; SDL_K_TYPE_UNION])
    with false in H.
  cbv iota beta in H. unfold member_by_datatype in H.
  change (SDL_K_TYPE_CHAR_STAR =? SDL_K_TYPE_DECIMAL) with false in H.
  change (SDL_K_TYPE_CHAR_STAR =? SDL_K_TYPE_BITFLD) with false in H.
  change (one_of SDL_K_TYPE_CHAR_STAR [SDL_K_TYPE_CHAR; SDL_K_TYPE_CHAR_VARY])
    with false in H.
  change (SDL_K_TYPE_CHAR_STAR =? SDL_K_TYPE_CHAR_STAR) with true in H.
  cbv iota beta zeta in H.
  bind_split H as tag Etag. now injection H as _ <-.
Qed.

(** X29: a member declared as a string of unknown length (CHARACTER with a
    star for its length) is reported with [SDL_INVUNKLEN] ([SDL_ERREXIT]
    when the message cannot be recorded), signed or not. *)
Theorem member_of_unknown_length_is_reported
  (context context' : SDL_CONTEXT) (name : string) (datatype aggType : Z)
  (lineComment startComment middleComment endComment : bool)
  (status : sdl_status) :
  processingEnabled context = true ->
  one_of aggType [SDL_K_TYPE_STRUCT; SDL_K_TYPE_UNION] = false ->
  Z.abs datatype = SDL_K_TYPE_CHAR_STAR ->
  sdl_aggregate_member context (Some name) datatype aggType
    lineComment startComment middleComment endComment
  = Some (context', status) ->
  status = report SDL_INVUNKLEN SDL_ERREXIT.
Proof.
  intros Hproc Hagg Habs H. unfold sdl_aggregate_member in H.
  rewrite Hproc in H.
  bind_split H as current Ecur.
  bind_split H as p Eopt. destruct p as [[c1 cur1] locals].
  bind_split H as q Enew. destruct q as [myMember retVal].
  bind_split H as c2 Eput. bind_split H as c3 Eorigin.
  bind_split H as cur3 Ecur3.
  bind_split H as r Edet. destruct r as [[c4 m4] l4].
  bind_split H as c5 Eput5. injection H as _ <-.
  exact (new_member_char_star_status _ _ _ _ _ _ _ _ _ _ _ _ Hagg Habs Enew).
Qed.

(** The members of the current aggregate can be replaced, and the current
    aggregate is then found with the new members. *)
Lemma put_get_current_members (context : SDL_CONTEXT) (current : SDL_CURRENT)
  (members : list SDL_MEMBERS) :
  get_current context = Some current ->
  exists context',
    put_current context (set_current_members current members) = Some context'
    /\ get_current context' = Some (set_current_members current members)
    /\ context' = set_aggregates context (aggregates context').
Proof.
  unfold get_current, put_current. intros H.
  bind_split H as p Htail. destruct p as [front aggr].
  rewrite Htail, !bind_Some. cbv beta iota.
  destruct (aggregateDepth context <=? 0) eqn:Hd0; [discriminate H|].
  destruct (aggregateDepth context =? 1) eqn:Hd1.
  - injection H as <-. cbn [set_current_members].
    eexists. split; [reflexivity|].
    cbn [aggregates set_aggregates aggregateDepth].
    rewrite split_tail_app, bind_Some. cbv beta iota.
    rewrite Hd0, Hd1. split; reflexivity.
  - bind_split H as node Enode. injection H as <-.
    destruct (open_subaggr_node _ _ _ Enode)
      as (top & type & offset & subaggr & ms & ->).
    cbn [set_current_members].
    destruct (store_subaggr_defined _ _ _
                (Member_Subaggr top type offset subaggr members) Enode)
      as (stored & Estore).
    rewrite Estore, bind_Some.
    eexists. split; [reflexivity|].
    cbn [aggregates set_aggregates aggregateDepth].
    rewrite split_tail_app, bind_Some. cbv beta iota.
    rewrite Hd0, Hd1. cbn [agg_members set_agg_members].
    rewrite (open_store_subaggr _ _ _ _ _ _ _ _ Estore), bind_Some.
    split; reflexivity.
Qed.

(** X30: with no option pending, a comment met inside an aggregate joins
    the tail of the members of the current aggregate with its position
    flags, without an offset and without a filler in front of it; the other
    members, the depth, the constants and the count of the fillers stay as
    they are, and the status is [SDL_NORMAL]. *)
Theorem comment_joins_members_without_layout (context : SDL_CONTEXT)
  (current : SDL_CURRENT) (text : string) (aggType : Z)
  (lineComment startComment middleComment endComment : bool) :
  processingEnabled context = true ->
  options context = [] ->
  get_current context = Some current ->
  one_of aggType [SDL_K_TYPE_STRUCT; SDL_K_TYPE_UNION] = false ->
  exists context',
    sdl_aggregate_member context (Some text) SDL_K_TYPE_COMMENT aggType
      lineComment startComment middleComment endComment
    = Some (context', SDL_NORMAL)
    /\ get_current context'
       = Some (set_current_members current
                 (current_members current
                  ++ [Member_Comment (is_current_aggr current)
                        (mkComment text endComment lineComment middleComment
                           startComment)]))
    /\ context' = set_aggregates context (aggregates context').
Proof.
  intros Hon Hopts Hcur Hagg. unfold sdl_aggregate_member.
  rewrite Hon, Hcur, bind_Some. unfold apply_member_options.
  rewrite Hopts, bind_Some. cbv beta iota.
  unfold new_member. rewrite Hagg.
  change (SDL_K_TYPE_COMMENT =? SDL_K_TYPE_COMMENT) with true.
  cbv beta iota zeta. rewrite bind_Some. cbv beta iota.
  rewrite (get_put_current _ _ Hcur), bind_Some.
  cbn [sdl_isComment negb]. rewrite bind_Some, Hcur, bind_Some.
  unfold _sdl_determine_offsets. cbn [sdl_isComment].
  rewrite bind_Some. cbv beta iota.
  destruct (put_get_current_members context current
              (current_members current
               ++ [Member_Comment (is_current_aggr current)
                     (mkComment text endComment lineComment middleComment
                        startComment)]) Hcur)
    as (context' & Eput & Eget & Hframe).
  rewrite Eput, bind_Some. cbn [sdl_isItem].
  exists context'.
  assert (Hopts' : options context' = []).
  { rewrite Hframe. exact Hopts. }
  rewrite (set_options_same _ Hopts').
  split; [reflexivity|]. split; [exact Eget | exact Hframe].
Qed.

(** ** The size constant of a closed aggregate *)

Lemma masks_in_range_filler (memberList : list SDL_MEMBERS) (top : bool)
  (type offset : Z) (item : SDL_ITEM) (bits number : Z) :
  masks_in_range memberList = true ->
  masks_in_range
    (memberList ++ [Member_Item top type offset (filler_of item bits number)])
  = true.
Proof.
  unfold masks_in_range. intros Hrange. rewrite forallb_app, Hrange.
  reflexivity.
Qed.

Lemma create_bitfield_constants_in_range (context : SDL_CONTEXT)
  (memberList : list SDL_MEMBERS) :
  masks_in_range memberList = true ->
  exists context',
    _sdl_create_bitfield_constants context memberList = Some context'.
Proof.
  unfold masks_in_range. intros Hrange.
  apply create_bitfield_constants_defined.
  intros m Hm. apply member_constants_in_range.
  intros top type offset item -> Hmask.
  rewrite forallb_forall in Hrange. specialize (Hrange _ Hm).
  cbn [mask_in_range] in Hrange. rewrite Hmask in Hrange.
  cbn [negb orb] in Hrange.
  apply Bool.andb_true_iff in Hrange. destruct Hrange as [Hrange Hhigh].
  apply Bool.andb_true_iff in Hrange. destruct Hrange as [Hlen Hlow].
  apply Z.ltb_lt in Hlen, Hhigh. apply Z.leb_le in Hlow. lia.
Qed.

(** The size of an aggregate is computed, and its constants are queued,
    whenever the masks are defined and no filler is due to a union. *)
Lemma aggregate_size_members_defined (context : SDL_CONTEXT) (name : string)
  (prefix : option string) (isUnion : bool) (unionType alignment : Z)
  (parent : option SDL_SUBAGGR) (memberList : list SDL_MEMBERS) :
  masks_in_range memberList = true ->
  isUnion = false
  \/ sdl_sizeof context unionType <= largest_member memberList ->
  exists r,
    aggregate_size_members context name prefix isUnion unionType alignment
      parent memberList = Some r.
Proof.
  intros Hrange Hsized. unfold aggregate_size_members.
  destruct (queue_tail memberList) as [member|]; [|eexists; reflexivity].
  destruct isUnion.
  - destruct Hsized as [Hs|Hs]; [discriminate Hs|].
    rewrite Bool.andb_false_r, bind_Some. cbv beta iota.
    unfold aggregate_size_union.
    destruct (Z.ltb_spec (largest_member memberList)
                (sdl_sizeof context unionType)); [lia|].
    rewrite bind_Some. cbv beta iota.
    destruct (create_bitfield_constants_in_range context memberList Hrange)
      as (c & ->).
    eexists. reflexivity.
  - rewrite Bool.andb_true_r.
    destruct (sdl_isBitfield member) eqn:Hbit.
    + destruct member as [top type offset item| |]; try discriminate Hbit.
      rewrite seal_run_spec.
      destruct ((availBits item >? 0) && negb false);
        rewrite bind_Some; cbv beta iota; rewrite bind_Some; cbv beta iota.
      * destruct (create_bitfield_constants_in_range
                    (set_fillerCount context (fillerCount context + 1))
                    _ (masks_in_range_filler _ top type offset item
                         (availBits item) (fillerCount context) Hrange))
          as (c & ->).
        eexists. reflexivity.
      * destruct (create_bitfield_constants_in_range context memberList
                    Hrange) as (c & ->).
        eexists. reflexivity.
    + rewrite bind_Some. cbv beta iota. rewrite bind_Some. cbv beta iota.
      destruct (create_bitfield_constants_in_range context memberList Hrange)
        as (c & ->).
      eexists. reflexivity.
Qed.

Lemma alignment_adjustment_explicit (offset alignment natural : Z) :
  alignment <> SDL_K_ALIGN ->
  exists adjustment,
    alignment_adjustment offset alignment natural = Some adjustment.
Proof.
  intros Halign. unfold alignment_adjustment.
  destruct (Z.eqb_spec alignment SDL_K_NOALIGN) as [Hno|Hno];
    [eexists; reflexivity|].
  destruct (Z.eqb_spec alignment SDL_K_ALIGN) as [Heq|_]; [contradiction|].
  cbv zeta.
  destruct (Z.eqb_spec alignment 0) as [Hzero|_]; [contradiction|].
  eexists. reflexivity.
Qed.

Lemma set_dimensions_same (context : SDL_CONTEXT) :
  set_dimensions context (dimensions context) = context.
Proof. destruct context; reflexivity. Qed.

(** Closing has a result for an open aggregate whose pending options can be
    applied and that has no natural alignment, under the two conditions
    above. *)
Lemma aggregate_compl_defined (context : SDL_CONTEXT) (name : option string)
  (current : SDL_CURRENT) (dims : list SDL_DIMENSION) :
  processingEnabled context = true ->
  get_current context = Some current ->
  compl_options (end_member current) (dimensions context) (options context)
  = Some dims ->
  (current_alignment current =? SDL_K_ALIGN) = false ->
  masks_in_range (current_members current) = true ->
  sized_by_members context current = true ->
  exists context' status,
    sdl_aggregate_compl context name = Some (context', status).
Proof.
  intros Hproc Hcur Hopts Halign Hrange Hsized.
  apply Z.eqb_neq in Halign.
  assert (Eopt :
    match options context with
    | [] => Some context
    | opts =>
        dims <-
          compl_options
            match split_tail (current_members current) with
            | Some (_, m) => if sdl_isItem m then None else Some m
            | None => None
            end (dimensions context) opts ;;
        Some (set_dimensions context dims)
    end = Some (set_dimensions context dims)).
  { unfold end_member in Hopts.
    destruct (options context) as [|opt opts].
    - injection Hopts as <-. now rewrite set_dimensions_same.
    - rewrite Hopts. reflexivity. }
  assert (Hcur' : get_current (set_dimensions context dims) = Some current)
    by exact Hcur.
  assert (Hsized' : sized_by_members (set_dimensions context dims) current
                    = true) by exact Hsized.
  unfold sdl_aggregate_compl. rewrite Hproc, Hcur, bind_Some, Eopt.
  clear Eopt Hopts Hcur Hsized Hproc.
  change (aggregateDepth context)
    with (aggregateDepth (set_dimensions context dims)).
  generalize dependent (set_dimensions context dims).
  clear context dims. intros context Hcur Hsized.
  rewrite bind_Some.
  assert (Hsized' :
    (current_aggType current =? SDL_K_TYPE_UNION) = false
    \/ sdl_sizeof context (to_int (current_type current))
       <= largest_member (current_members current)).
  { unfold sized_by_members in Hsized.
    apply Bool.orb_true_iff in Hsized. destruct Hsized as [Hs|Hs].
    - left. now apply Bool.negb_true_iff in Hs.
    - right. now apply Z.leb_le in Hs. }
  clear Hsized. rename Hsized' into Hsized.
  pose proof Hcur as Hget. unfold get_current in Hget.
  bind_split Hget as p Etail. destruct p as [front aggr].
  destruct (aggregateDepth context <=? 0) eqn:Hd0; [discriminate Hget|].
  destruct (aggregateDepth context =? 1) eqn:Hd1.
  - injection Hget as <-.
    cbn [aggregates set_aggregateDepth]. rewrite Etail, bind_Some.
    cbv beta iota. unfold _sdl_aggregate_size_aggr.
    destruct (aggregate_size_members_defined
                (set_aggregateDepth context (aggregateDepth context - 1))
                (agg_id aggr) (agg_prefix aggr)
                (agg_aggType aggr =? SDL_K_TYPE_UNION)
                (to_int (agg_type aggr)) (agg_alignment aggr) None
                (agg_members aggr) Hrange)
      as ([[c members] size] & ->).
    { destruct Hsized as [Hs|Hs]; [left; exact Hs | right; exact Hs]. }
    rewrite bind_Some. cbv beta iota. eexists. eexists. reflexivity.
  - bind_split Hget as node Enode. injection Hget as <-.
    destruct (open_subaggr_node _ _ _ Enode)
      as (top & type & offset & subAggr & members & ->).
    cbn [current_alignment current_members current_aggType current_type]
      in Halign, Hrange, Hsized.
    cbn [_sdl_aggregate_size_subaggr].
    assert (Hadj : exists offset' subAggr',
      match members with
      | [] => Some (offset, subAggr)
      | _ :: _ =>
          adjustment <-
            (if sub_alignment subAggr =? SDL_K_NOALIGN then Some 0
             else if sub_alignment subAggr =? SDL_K_ALIGN then
               alignment_adjustment (sub_offset subAggr) SDL_K_ALIGN
                 (subaggr_alignSize
                    (set_aggregateDepth context (aggregateDepth context - 1))
                    (sub_aggType subAggr =? SDL_K_TYPE_UNION)
                    (to_int (sub_type subAggr)) members)
             else
               alignment_adjustment (sub_offset subAggr)
                 (sub_alignment subAggr) 0) ;;
          Some (sub_offset
                  (set_sub_offset subAggr (sub_offset subAggr + adjustment)),
                set_sub_offset subAggr (sub_offset subAggr + adjustment))
      end = Some (offset', subAggr')
      /\ sub_id subAggr' = sub_id subAggr
      /\ sub_prefix subAggr' = sub_prefix subAggr
      /\ sub_aggType subAggr' = sub_aggType subAggr
      /\ sub_type subAggr' = sub_type subAggr
      /\ sub_alignment subAggr' = sub_alignment subAggr).
    { destruct members as [|m0 ms];
        [exists offset, subAggr; repeat split|].
      destruct (sub_alignment subAggr =? SDL_K_NOALIGN);
        [eexists; eexists; repeat split|].
      destruct (Z.eqb_spec (sub_alignment subAggr) SDL_K_ALIGN) as [Heq|_];
        [contradiction|].
      destruct (alignment_adjustment_explicit (sub_offset subAggr)
                  (sub_alignment subAggr) 0 Halign) as (adjustment & ->).
      eexists. eexists. repeat split. }
    destruct Hadj as (offset' & subAggr' & -> & _).
    rewrite bind_Some. cbv beta iota.
    destruct (aggregate_size_members_defined
                (set_aggregateDepth context (aggregateDepth context - 1))
                (sub_id subAggr') (sub_prefix subAggr')
                (sub_aggType subAggr =? SDL_K_TYPE_UNION)
                (to_int (sub_type subAggr)) (sub_alignment subAggr')
                (Some subAggr') members Hrange)
      as ([[c members'] size] & Esize).
    { destruct Hsized as [Hs|Hs]; [left; exact Hs | right; exact Hs]. }
    rewrite Esize. cbn [bind].
    destruct (aggregate_size_members_inv _ _ _ _ _ _ _ _ _ _ _ Esize)
      as (cs & Hq & _ & _).
    rewrite (queued_aggregates _ _ _ Hq).
    cbn [aggregates set_aggregateDepth]. rewrite Etail, bind_Some.
    cbv beta iota.
    destruct (store_subaggr_defined _ _ _
                (Member_Subaggr top type offset'
                   (set_sub_size subAggr' size) members') Enode)
      as (stored & ->).
    rewrite bind_Some. eexists. eexists. reflexivity.
Qed.

(** What a closing that has a result leaves behind: the size constant of
    the aggregate as the last constant, with the size recorded in it. *)
Lemma aggregate_compl_size_constant (context context' : SDL_CONTEXT)
  (name : option string) (current : SDL_CURRENT) (status : sdl_status) :
  processingEnabled context = true ->
  get_current context = Some current ->
  sdl_aggregate_compl context name = Some (context', status) ->
  exists size earlier,
    constants context'
    = earlier
      ++ [mkConstant (current_id current)
            (prefix_or_empty (current_prefix current))
            (if sdl_all_lower (Some (current_id current)) then "s" else "S")
            None None SDL_K_RADIX_DEC SDL_K_CONST_NUM size None
            (to_int (wordSize context))]
    /\ closed_size context context' = Some size.
Proof.
  intros Hproc Ecur H. unfold sdl_aggregate_compl in H.
  rewrite Hproc, Ecur, bind_Some in H.
  bind_split H as c1 Eopt.
  apply compl_options_context in Eopt. destruct Eopt as (dims & ->).
  pose proof Ecur as Hcur. unfold get_current in Hcur.
  bind_split Hcur as [front0 aggr0] Etail0.
  destruct (aggregateDepth context <=? 0) eqn:Hd0; [discriminate Hcur|].
  destruct (aggregateDepth context =? 1) eqn:Hd1.
  - injection Hcur as <-.
    bind_split H as [front x] Etail. bind_split H as [[c3 members] size] Esize.
    injection H as <- <-.
    unfold _sdl_aggregate_size_aggr in Esize.
    destruct (aggregate_size_members_inv _ _ _ _ _ _ _ _ _ _ _ Esize)
      as (cs & Hq & _ & _).
    exists size, (constants context ++ cs). split.
    + cbn [_sdl_reset_options constants set_options set_aggregates].
      rewrite (queued_constants _ _ _ Hq). cbn [constants set_aggregateDepth
        set_dimensions]. rewrite <- app_assoc. reflexivity.
    + unfold closed_size.
      cbn [_sdl_reset_options aggregates set_options set_aggregates].
      rewrite split_tail_app. cbn [bind]. rewrite Hd1. reflexivity.
  - bind_split Hcur as node Enode. injection Hcur as <-.
    bind_split H as [[c3 self] size] Esize.
    unfold _sdl_aggregate_size_subaggr in Esize.
    destruct node as [| |top type offset subAggr memberList];
      try discriminate Esize.
    bind_split Esize as [offset' subAggr'] Ealign.
    bind_split Esize as [[c4 memberList'] retVal] Emembers.
    injection Esize as <- <- <-.
    assert (Hsame : sub_id subAggr' = sub_id subAggr
                    /\ sub_prefix subAggr' = sub_prefix subAggr).
    { destruct memberList as [|m0 rest].
      - injection Ealign as <- <-. split; reflexivity.
      - bind_split Ealign as adjustment Eadj. injection Ealign as <- <-.
        split; reflexivity. }
    destruct Hsame as [Hid Hprefix].
    destruct (aggregate_size_members_inv _ _ _ _ _ _ _ _ _ _ _ Emembers)
      as (cs & Hq & _ & _).
    bind_split H as [front aggr] Etail. bind_split H as stored Estore.
    injection H as <- <-.
    exists retVal, (constants context ++ cs). split.
    + cbn [_sdl_reset_options constants set_options set_aggregates].
      rewrite (queued_constants _ _ _ Hq). cbn [constants set_aggregateDepth
        set_dimensions current_id current_prefix].
      rewrite <- app_assoc. unfold aggregate_size_constant,
        _sdl_create_constant. cbn [wordSize set_aggregateDepth set_dimensions].
      rewrite Hid, Hprefix. reflexivity.
    + unfold closed_size.
      cbn [_sdl_reset_options aggregates set_options set_aggregates].
      rewrite split_tail_app. cbn [bind]. rewrite Hd1.
      cbn [agg_members set_agg_members aggregateDepth set_dimensions].
      cbn [aggregateDepth set_dimensions] in Estore.
      rewrite (open_store_subaggr _ _ _ _ _ _ _ _ Estore). reflexivity.
Qed.

(** C4: closing an open AGGREGATE or subaggregate queues, as the last
    constant, a constant that has the id of the aggregate, tag [s] when that
    id is all-lowercase and [S] otherwise, radix decimal, and as value the
    size that the same call records in the aggregate: this holds of every
    closing that has a result, a STRUCTURE with a comment at its tail
    included.  The closing has a result when the pending options can be
    applied, the aggregate has no natural alignment, the masks of its
    bitfields are defined and no filler is due to a union. *)
Theorem size_constant_on_close (context : SDL_CONTEXT) (name : option string)
  (current : SDL_CURRENT) :
  processingEnabled context = true ->
  get_current context = Some current ->
  (forall context' status,
     sdl_aggregate_compl context name = Some (context', status) ->
     exists size earlier,
       constants context'
       = earlier
         ++ [mkConstant (current_id current)
               (prefix_or_empty (current_prefix current))
               (if sdl_all_lower (Some (current_id current)) then "s" else "S")
               None None SDL_K_RADIX_DEC SDL_K_CONST_NUM size None
               (to_int (wordSize context))]
       /\ closed_size context context' = Some size)
  /\ (forall dims,
        compl_options (end_member current) (dimensions context)
          (options context) = Some dims ->
        (current_alignment current =? SDL_K_ALIGN) = false ->
        masks_in_range (current_members current) = true ->
        sized_by_members context current = true ->
        exists context' status,
          sdl_aggregate_compl context name = Some (context', status)).
Proof.
  intros Hproc Hcur. split.
  - intros context' status H.
    exact (aggregate_compl_size_constant _ _ _ _ _ Hproc Hcur H).
  - intros dims Hopts Halign Hrange Hsized.
    exact (aggregate_compl_defined _ _ _ _ Hproc Hcur Hopts Halign Hrange
             Hsized).
Qed.

(** ** Bitfield members *)

Lemma same_but_host_id_length (m m' : SDL_MEMBERS) :
  same_but_host m m' -> item_id_length m' = item_id_length m.
Proof.
  destruct m as [top type offset item| |], m' as [top' type' offset' item'| |];
    simpl; try discriminate; try reflexivity.
  intros (_ & _ & _ & ->). reflexivity.
Qed.

Lemma same_but_host_comment (m m' : SDL_MEMBERS) :
  same_but_host m m' -> sdl_isComment m' = sdl_isComment m.
Proof.
  destruct m as [top type offset item| |], m' as [top' type' offset' item'| |];
    simpl; try discriminate; try reflexivity; intros H; inversion H.
Qed.

Lemma same_but_host_item (m m' : SDL_MEMBERS) (top : bool) (type offset : Z)
  (item : SDL_ITEM) :
  same_but_host m m' ->
  m = Member_Item top type offset item ->
  exists item',
    m' = Member_Item top type offset item'
    /\ item_alignment item' = item_alignment item.
Proof.
  intros Hsame ->.
  destruct m' as [top' type' offset' item'| |]; simpl in Hsame;
    try discriminate Hsame.
  destruct Hsame as (-> & -> & -> & Hitem).
  exists item'. split; [reflexivity|]. rewrite Hitem. reflexivity.
Qed.

(** The member in front of the new one is found again after the hosts were
    resized. *)
Lemma find_member_same (l l' : list SDL_MEMBERS) :
  Forall2 same_but_host l l' ->
  forall prev,
    find (fun m => negb (sdl_isComment m)) l = Some prev ->
    exists prev',
      find (fun m => negb (sdl_isComment m)) l' = Some prev'
      /\ same_but_host prev prev'.
Proof.
  induction 1 as [|m m' l l' Hm Hl IH]; intros prev Hfind;
    [discriminate Hfind|].
  cbn [find] in *. rewrite (same_but_host_comment _ _ Hm).
  destruct (negb (sdl_isComment m)).
  - injection Hfind as <-. exists m'. split; [reflexivity | exact Hm].
  - now apply IH.
Qed.

Lemma last_member_same (l l' : list SDL_MEMBERS) (prev : SDL_MEMBERS) :
  Forall2 same_but_host l l' ->
  last_member l = Some prev ->
  exists prev', last_member l' = Some prev' /\ same_but_host prev prev'.
Proof.
  intros Hsame. unfold last_member.
  apply find_member_same. now apply Forall2_rev_same.
Qed.

(** The walk over the run in front of a member always comes back when the
    flag of the function starts out cleared. *)
Lemma check_bitfieldSizes_at_defined (context : SDL_CONTEXT)
  (before : list SDL_MEMBERS) :
  forall member length,
    exists r,
      check_bitfieldSizes_at context before member length false = Some r.
Proof.
  induction before as [|prev before IH]; intros member length;
    cbn [check_bitfieldSizes_at]; [eexists; reflexivity|].
  destruct (sdl_isComment prev).
  - destruct (IH member length) as ([[b m] u] & ->). eexists. reflexivity.
  - destruct (resizable prev); [|eexists; reflexivity].
    destruct (IH prev (length + member_length prev)) as ([[b m] u] & ->).
    cbn [bind]. destruct u; eexists; reflexivity.
Qed.

Lemma check_bitfieldSizes_first_defined (context : SDL_CONTEXT)
  (before : list SDL_MEMBERS) :
  forall length newMember prev,
    find (fun m => negb (sdl_isComment m)) before = Some prev ->
    exists r,
      check_bitfieldSizes_first context before length newMember = Some r.
Proof.
  induction before as [|m before IH]; intros length newMember prev Hfind;
    [discriminate Hfind|].
  cbn [find] in Hfind. cbn [check_bitfieldSizes_first].
  destruct (sdl_isComment m); cbn [negb] in Hfind.
  - destruct (IH length newMember prev Hfind) as ([b n] & ->).
    eexists. reflexivity.
  - destruct (resizable m); [|eexists; reflexivity].
    destruct (check_bitfieldSizes_at_defined context before m
                (length + member_length m)) as ([[b p] u] & ->).
    eexists. reflexivity.
Qed.

Lemma check_bitfieldSizes_defined (context : SDL_CONTEXT)
  (memberList : list SDL_MEMBERS) (length : Z) (newMember prev : SDL_MEMBERS) :
  last_member memberList = Some prev ->
  exists r,
    _sdl_check_bitfieldSizes context memberList length newMember = Some r.
Proof.
  unfold last_member, _sdl_check_bitfieldSizes. intros Hprev.
  destruct (check_bitfieldSizes_first_defined context (rev memberList) length
              newMember prev Hprev) as ([b n] & ->).
  eexists. reflexivity.
Qed.

Lemma last_member_not_comment (memberList : list SDL_MEMBERS)
  (prev : SDL_MEMBERS) :
  last_member memberList = Some prev -> sdl_isComment prev = false.
Proof.
  unfold last_member. intros H. apply find_some in H.
  destruct H as [_ H]. now apply Bool.negb_true_iff in H.
Qed.

Lemma seal_run_defined (context : SDL_CONTEXT) (memberList : list SDL_MEMBERS)
  (top : bool) (type offset : Z) (item : SDL_ITEM) (parentIsUnion : bool) :
  exists r,
    seal_run context memberList (Member_Item top type offset item)
      parentIsUnion = Some r.
Proof.
  rewrite seal_run_spec.
  destruct ((availBits item >? 0) && negb parentIsUnion);
    eexists; reflexivity.
Qed.

Lemma resize_first_member_item (context : SDL_CONTEXT) (top : bool)
  (type offset : Z) (item : SDL_ITEM) :
  exists item',
    resize_first_member context (Member_Item top type offset item)
    = Member_Item top type offset item'
    /\ item_alignment item' = item_alignment item
    /\ item_id item' = item_id item
    /\ item_length item' = item_length item.
Proof.
  cbn [resize_first_member map_item].
  destruct (item_sizedBitfield item); eexists; repeat split.
Qed.

(** A bitfield without natural alignment can always be placed behind the
    members of its aggregate. *)
Lemma determine_offsets_bitfield_defined (context : SDL_CONTEXT)
  (memberList : list SDL_MEMBERS) (parentIsUnion : bool)
  (parent : option SDL_SUBAGGR) (top : bool) (type offset : Z)
  (item : SDL_ITEM) :
  sdl_isBitfield (Member_Item top type offset item) = true ->
  item_alignment item <> SDL_K_ALIGN ->
  (top = false -> parent <> None) ->
  exists r,
    _sdl_determine_offsets context (Member_Item top type offset item)
      memberList parentIsUnion parent = Some r.
Proof.
  intros Hbit Halign Hparent. unfold _sdl_determine_offsets.
  cbn [sdl_isComment]. rewrite Hbit.
  match goal with
  | |- exists r, bind ?b _ = Some r =>
      assert (Hbranch : exists c1 top1 type1 offset1 item1 l1,
                b = Some (c1, Member_Item top1 type1 offset1 item1, l1)
                /\ item_alignment item1 = item_alignment item)
  end.
  { destruct (last_member memberList) as [prev|] eqn:Hprev.
    - pose proof (last_member_not_comment _ _ Hprev) as Hnc.
      destruct (sdl_isBitfield prev) eqn:Hpb; cbn [negb].
      + cbn [member_item]. rewrite bind_Some.
        assert (Hcheck : exists l2 item2,
          (if negb (item_sizedBitfield item)
           then _sdl_check_bitfieldSizes context memberList
                  (item_length item) (Member_Item top type offset item)
           else Some (memberList, Member_Item top type offset item))
          = Some (l2, Member_Item top type offset item2)
          /\ item_alignment item2 = item_alignment item
          /\ Forall2 same_but_host memberList l2).
        { destruct (item_sizedBitfield item); cbn [negb].
          - exists memberList, item. split; [reflexivity|].
            split; [reflexivity | apply Forall2_same_refl].
          - destruct (check_bitfieldSizes_defined context memberList
                        (item_length item) (Member_Item top type offset item)
                        prev Hprev) as ([l2 m2] & Echeck).
            destruct (check_bitfieldSizes_same _ _ _ _ _ _ Echeck)
              as [Hl Hm].
            destruct (same_but_host_item _ _ _ _ _ _ Hm eq_refl)
              as (item2 & -> & Hal).
            exists l2, item2. split; [exact Echeck|].
            split; [exact Hal | exact Hl]. }
        destruct Hcheck as (l2 & item2 & -> & Hal2 & Hsame).
        rewrite bind_Some. cbv beta iota.
        destruct (last_member_same _ _ _ Hsame Hprev)
          as (prev' & -> & Hprev').
        rewrite bind_Some.
        destruct prev as [ptop ptype poffset pitem| |];
          try discriminate Hpb.
        destruct (same_but_host_item _ _ _ _ _ _ Hprev' eq_refl)
          as (pitem' & -> & _).
        cbn [member_item]. rewrite !bind_Some.
        destruct ((item_size item2 =? item_size pitem')
                  && (item_length item2 <=? availBits pitem')).
        * do 6 eexists. split; [reflexivity | exact Hal2].
        * destruct (seal_run_defined context l2 ptop ptype poffset pitem'
                      parentIsUnion) as ([c3 l3] & ->).
          rewrite bind_Some. cbv beta iota.
          do 6 eexists. split; [reflexivity | exact Hal2].
      + assert (Hoffset : exists o,
          (if sdl_isItem prev
           then prevIt <- member_item prev ;;
                Some (member_offset prev
                      + item_real_size prevIt * item_cardinality prevIt)
           else
             match prev with
             | Member_Subaggr _ type0 offset0 subaggr _ =>
                 Some (offset0
                       + (if negb (type0 =? SDL_K_TYPE_UNION)
                          then sub_size subaggr * subaggr_cardinality subaggr
                          else 0))
             | _ => None
             end) = Some o).
        { destruct prev as [ptop ptype poffset pitem| |];
            try discriminate Hnc; cbn [sdl_isItem member_item];
            eexists; reflexivity. }
        destruct Hoffset as (o & ->). rewrite bind_Some.
        cbn [map_item set_member_offset].
        destruct (resize_first_member_item context top type o
                    (set_item_bitOffset item 0))
          as (item1 & -> & Hal1 & _).
        do 6 eexists. split; [reflexivity | exact Hal1].
    - cbn [negb map_item member_top].
      assert (Hoffset : exists o,
        (if negb top then subagg <- parent ;; Some (sub_offset subagg)
         else Some 0) = Some o).
      { destruct top; cbn [negb]; [eexists; reflexivity|].
        destruct parent as [subagg|];
          [eexists; reflexivity | now destruct (Hparent eq_refl)]. }
      destruct Hoffset as (o & ->). rewrite bind_Some.
      cbn [set_member_offset].
      destruct (resize_first_member_item context top type o
                  (set_item_bitOffset item 0))
        as (item1 & -> & Hal1 & _).
      do 6 eexists. split; [reflexivity | exact Hal1]. }
  destruct Hbranch as (c1 & top1 & type1 & offset1 & item1 & l1 & -> & Hal).
  rewrite bind_Some. cbv beta iota.
  rewrite <- Hal in Halign.
  destruct (alignment_adjustment_explicit offset1 (item_alignment item1)
              (item_size item1) Halign) as (adjustment & ->).
  rewrite bind_Some. eexists. reflexivity.
Qed.

(** The id and the length of a member stay as they are when it is placed. *)
Lemma determine_offsets_id_length (context context' : SDL_CONTEXT)
  (member member' : SDL_MEMBERS) (memberList memberList' : list SDL_MEMBERS)
  (parentIsUnion : bool) (parent : option SDL_SUBAGGR) :
  _sdl_determine_offsets context member memberList parentIsUnion parent
  = Some (context', member', memberList') ->
  item_id_length member' = item_id_length member.
Proof.
  unfold _sdl_determine_offsets. intros H.
  destruct (sdl_isComment member).
  { now injection H as _ <- _. }
  bind_split H as p E. destruct p as [[c1 m1] l1].
  assert (Hend : item_id_length member' = item_id_length m1).
  { destruct m1 as [top1 type1 offset1 item1| |].
    - bind_split H as adjustment Eadj. now injection H as _ <- _.
    - now injection H as _ <- _.
    - now injection H as _ <- _. }
  rewrite Hend. clear H Hend.
  destruct (sdl_isBitfield member).
  - destruct (negb match last_member memberList with
                   | Some prev => sdl_isBitfield prev
                   | None => false
                   end).
    + bind_split E as offset Eoff. injection E as _ <- _.
      destruct member as [top type o item| |]; try reflexivity.
      cbn [map_item set_member_offset].
      destruct (resize_first_member_item context top type offset
                  (set_item_bitOffset item 0))
        as (item1 & -> & _ & Hid & Hlen).
      cbn [item_id_length]. rewrite Hid, Hlen. reflexivity.
    + bind_split E as item Eitem.
      bind_split E as p Echeck. destruct p as [l2 m2].
      assert (Hkeep : item_id_length m2 = item_id_length member).
      { destruct (negb (item_sizedBitfield item)).
        - apply same_but_host_id_length.
          apply (check_bitfieldSizes_same _ _ _ _ _ _ Echeck).
        - now injection Echeck as _ <-. }
      bind_split E as prev Eprev. bind_split E as prevIt EprevIt.
      bind_split E as item2 Eitem2.
      destruct ((item_size item2 =? item_size prevIt)
                && (item_length item2 <=? availBits prevIt)).
      * injection E as _ <- _. rewrite <- Hkeep. destruct m2; reflexivity.
      * bind_split E as p Eseal. destruct p as [c3 l3].
        injection E as _ <- _. rewrite <- Hkeep. destruct m2; reflexivity.
  - bind_split E as p Eseal. destruct p as [c3 l3]. clear Eseal.
    destruct (last_member memberList) as [prev|].
    + destruct ((match Some prev with
                 | Some prev0 => sdl_isItem prev0
                 | None => false
                 end) && negb parentIsUnion).
      * bind_split E as prevIt EprevIt. injection E as _ <- _.
        destruct member; reflexivity.
      * destruct (negb parentIsUnion).
        -- destruct prev; try discriminate E; injection E as _ <- _;
             destruct member; reflexivity.
        -- injection E as _ <- _. destruct member; reflexivity.
    + injection E as _ <- _. destruct member; reflexivity.
Qed.

(** What is open is an AGGREGATE or the node of a subaggregate. *)
Lemma get_current_members (context : SDL_CONTEXT) (current : SDL_CURRENT)
  (members : list SDL_MEMBERS) :
  get_current context = Some current ->
  current_members (set_current_members current members) = members
  /\ current_alignment (set_current_members current members)
     = current_alignment current
  /\ is_current_aggr (set_current_members current members)
     = is_current_aggr current
  /\ (is_current_aggr current = false -> current_subaggr current <> None).
Proof.
  unfold get_current. intros H.
  bind_split H as p Htail. destruct p as [front aggr].
  destruct (aggregateDepth context <=? 0); [discriminate H|].
  destruct (aggregateDepth context =? 1).
  - injection H as <-. repeat split. discriminate.
  - bind_split H as node Enode. injection H as <-.
    destruct (open_subaggr_node _ _ _ Enode)
      as (top & type & offset & subaggr & ms & ->).
    repeat split. discriminate.
Qed.

(** Options that only set locals leave the state of the loop alone. *)
Lemma member_options_bitfield (opts : list SDL_OPTION) :
  forall current myMember dims locals,
    forallb bitfield_option opts = true ->
    exists locals',
      member_options (current, myMember, dims, locals) opts
      = Some (current, myMember, dims, locals').
Proof.
  induction opts as [|opt opts IH]; intros current myMember dims locals Hopts.
  - eexists. reflexivity.
  - cbn [forallb] in Hopts. apply Bool.andb_true_iff in Hopts.
    destruct Hopts as [Hopt Hopts]. cbn [member_options member_option].
    unfold bitfield_option in Hopt.
    destruct (opt_option opt); try discriminate Hopt; rewrite bind_Some;
      apply IH; exact Hopts.
Qed.

Lemma split_tail_members (current : SDL_CURRENT) (front : list SDL_MEMBERS)
  (m : SDL_MEMBERS) :
  split_tail (current_members current) = Some (front, m) ->
  set_current_members current (front ++ [m]) = current.
Proof.
  intros H. apply split_tail_inv in H. rewrite <- H.
  destruct current as [myAggr|[| |top type offset subaggr members]];
    try reflexivity.
  cbn [set_current_members current_members]. now rewrite set_agg_members_same.
Qed.

Lemma apply_member_options_bitfield (context : SDL_CONTEXT)
  (current : SDL_CURRENT) :
  forallb bitfield_option (options context) = true ->
  exists locals,
    apply_member_options context current = Some (context, current, locals).
Proof.
  intros Hopts. unfold apply_member_options.
  destruct (options context) as [|opt opts] eqn:Eopts;
    [eexists; reflexivity|].
  cbv zeta.
  destruct (member_options_bitfield (opt :: opts) current
              match split_tail (current_members current) with
              | Some (_, m) => if sdl_isItem m then Some m else None
              | None => None
              end (dimensions context) initial_locals Hopts)
    as (locals & ->).
  rewrite bind_Some. cbv beta iota. rewrite set_dimensions_same.
  exists locals.
  destruct (split_tail (current_members current)) as [[front m]|] eqn:Htail;
    [|reflexivity].
  destruct (sdl_isItem m); [|reflexivity].
  now rewrite (split_tail_members _ _ _ Htail).
Qed.

Lemma bitfield_host_type_cases (subType : Z) :
  In (bitfield_host_type subType SDL_K_TYPE_BITFLD)
    [SDL_K_TYPE_BITFLD; SDL_K_TYPE_BITFLD_B; SDL_K_TYPE_BITFLD_W;
     SDL_K_TYPE_BITFLD_L; SDL_K_TYPE_BITFLD_Q; SDL_K_TYPE_BITFLD_O].
Proof.
  unfold bitfield_host_type.
  destruct (subType =? SDL_K_TYPE_BYTE); [right; left; reflexivity|].
  destruct (subType =? SDL_K_TYPE_WORD); [do 2 right; left; reflexivity|].
  destruct (subType =? SDL_K_TYPE_LONG); [do 3 right; left; reflexivity|].
  destruct (subType =? SDL_K_TYPE_QUAD); [do 4 right; left; reflexivity|].
  destruct (subType =? SDL_K_TYPE_OCTA); [do 5 right; left; reflexivity|].
  left. reflexivity.
Qed.

(** The block made for a new bitfield member: an item with the name as its
    id, the length of the options or 1 when that is 0, and the alignment of
    the aggregate; the status only depends on the length. *)
Lemma new_member_bitfield_result (context : SDL_CONTEXT)
  (current : SDL_CURRENT) (locals : MEMBER_LOCALS) (name : string)
  (aggType : Z) (lineComment startComment middleComment endComment : bool) :
  one_of aggType [SDL_K_TYPE_STRUCT; SDL_K_TYPE_UNION] = false ->
  exists item,
    new_member context current locals name SDL_K_TYPE_BITFLD aggType
      lineComment startComment middleComment endComment
    = Some (Member_Item (is_current_aggr current) SDL_K_TYPE_BITFLD 0 item,
            if loc_length locals <? 0 then report SDL_ZEROLEN SDL_ABORT
            else SDL_NORMAL)
    /\ item_id item = name
    /\ item_length item
       = (if loc_length locals =? 0 then 1 else loc_length locals)
    /\ item_alignment item = current_alignment current
    /\ sdl_isBitfield
         (Member_Item (is_current_aggr current) SDL_K_TYPE_BITFLD 0 item)
       = true.
Proof.
  intros Hagg. unfold new_member. rewrite Hagg.
  change (SDL_K_TYPE_BITFLD =? SDL_K_TYPE_COMMENT) with false.
  change (to_int (Z.abs (to_int SDL_K_TYPE_BITFLD))) with SDL_K_TYPE_BITFLD.
  change (one_of SDL_K_TYPE_BITFLD
            [SDL_K_TYPE_COMMENT; SDL_K_TYPE_STRUCT; SDL_K_TYPE_UNION])
    with false.
  cbv iota beta.
  change (sdl_isUnsigned SDL_K_TYPE_BITFLD) with (false, SDL_K_TYPE_BITFLD).
  cbv iota beta. unfold member_by_datatype.
  change (SDL_K_TYPE_BITFLD =? SDL_K_TYPE_DECIMAL) with false.
  change (SDL_K_TYPE_BITFLD =? SDL_K_TYPE_BITFLD) with true.
  cbv iota beta zeta.
  cbn [item_sizedBitfield set_item_prefix set_item_type
         set_item_sizedBitfield item_length set_item_subType
         set_item_unsigned set_item_mask set_item_length].
  assert (Hstatus :
    ((if loc_length locals =? 0 then 1 else loc_length locals) <? 0)
    = (loc_length locals <? 0)).
  { destruct (Z.eqb_spec (loc_length locals) 0) as [->|_]; reflexivity. }
  rewrite Hstatus.
  pose proof (bitfield_host_type_cases (loc_subType locals)) as Hhost.
  set (host := bitfield_host_type (loc_subType locals) SDL_K_TYPE_BITFLD)
    in *.
  clearbody host. cbn [In] in Hhost.
  destruct (loc_bitfieldSized locals);
    destruct Hhost as [<-|[<-|[<-|[<-|[<-|[<-|[]]]]]]];
    cbn [one_of existsb Z.eqb SDL_K_TYPE_BITFLD SDL_K_TYPE_BITFLD_B
           SDL_K_TYPE_BITFLD_W SDL_K_TYPE_BITFLD_L SDL_K_TYPE_BITFLD_Q
           SDL_K_TYPE_BITFLD_O Pos.eqb orb andb negb];
    rewrite get_tag_base_type by reflexivity;
    rewrite bind_Some; eexists; (split; [reflexivity|]);
    repeat split.
Qed.

(** Setting the origin of the AGGREGATE leaves the open aggregate with its
    members, its alignment and its kind. *)
Lemma checkAndSetOrigin_current (context : SDL_CONTEXT)
  (current : SDL_CURRENT) (top : bool) (type offset : Z) (item : SDL_ITEM) :
  get_current context = Some current ->
  exists context' current',
    _sdl_checkAndSetOrigin context (Member_Item top type offset item)
    = Some context'
    /\ get_current context' = Some current'
    /\ current_members current' = current_members current
    /\ current_aggType current' = current_aggType current
    /\ current_subaggr current' = current_subaggr current.
Proof.
  intros Hcur. unfold _sdl_checkAndSetOrigin.
  assert (Hsame : exists context' current',
            Some context = Some context'
            /\ get_current context' = Some current'
            /\ current_members current' = current_members current
            /\ current_aggType current' = current_aggType current
            /\ current_subaggr current' = current_subaggr current).
  { exists context, current. repeat split. exact Hcur. }
  destruct (aggregates_nextID context >? SDL_K_AGGREGATE_MIN);
    [|exact Hsame].
  pose proof Hcur as Hget. unfold get_current in Hget.
  bind_split Hget as p Htail. destruct p as [front aggr].
  rewrite Htail, bind_Some. cbv beta iota.
  destruct (agg_origin aggr); [exact Hsame|].
  destruct (agg_origin_id aggr) as [origin|]; [|exact Hsame].
  rewrite bind_Some.
  destruct (streq origin (item_id item)); [|exact Hsame].
  exists (set_aggregates context
            (front ++ [set_agg_origin aggr (Some (item_id item))])).
  unfold get_current.
  cbn [aggregates set_aggregates aggregateDepth].
  rewrite split_tail_app, bind_Some. cbv beta iota.
  destruct (aggregateDepth context <=? 0); [discriminate Hget|].
  destruct (aggregateDepth context =? 1).
  - injection Hget as <-. eexists. split; [reflexivity|].
    split; [reflexivity|]. repeat split.
  - bind_split Hget as node Enode. injection Hget as <-.
    cbn [agg_members set_agg_origin]. rewrite Enode, bind_Some.
    eexists. split; [reflexivity|]. split; [reflexivity|]. repeat split.
Qed.

Lemma put_current_get (context context' : SDL_CONTEXT)
  (current : SDL_CURRENT) (members : list SDL_MEMBERS) :
  get_current context = Some current ->
  put_current context (set_current_members current members) = Some context' ->
  get_current context' = Some (set_current_members current members).
Proof.
  intros Hcur Hput.
  destruct (put_get_current_members context current members Hcur)
    as (c & Eput & Eget & _).
  rewrite Eput in Hput. injection Hput as <-. exact Eget.
Qed.

Lemma fillers_counted_current (context context' : SDL_CONTEXT) (n : nat) :
  fillers_counted context context' n ->
  get_current context' = get_current context.
Proof. unfold fillers_counted. intros ->. reflexivity. Qed.

(** C7 (amended): for a member declared as a bitfield in an open aggregate,
    with the length that the options hold (0 when no length was given):
    whenever the dispatcher has a result, the status is [SDL_ZEROLEN]
    ([SDL_ABORT] when the message cannot be recorded) exactly when the
    length is negative and [SDL_NORMAL] otherwise, and the member joins the
    tail of the open aggregate with that length, a length of 0 being
    replaced by 1.  The dispatcher has a result whenever the pending options
    only set the length, the mask, the sign or the sub-type and the
    aggregate has no natural alignment. *)
Theorem bitfield_length_status (context : SDL_CONTEXT) (name : string)
  (aggType : Z) (lineComment startComment middleComment endComment : bool)
  (current : SDL_CURRENT) :
  processingEnabled context = true ->
  one_of aggType [SDL_K_TYPE_STRUCT; SDL_K_TYPE_UNION] = false ->
  get_current context = Some current ->
  let length := pending_length (options context) in
  (forall context' status,
     sdl_aggregate_member context (Some name) SDL_K_TYPE_BITFLD aggType
       lineComment startComment middleComment endComment
     = Some (context', status) ->
     status = (if length <? 0 then report SDL_ZEROLEN SDL_ABORT
               else SDL_NORMAL)
     /\ exists current' front top type offset item,
          get_current context' = Some current'
          /\ current_members current'
             = front ++ [Member_Item top type offset item]
          /\ item_id item = name
          /\ item_length item = (if length =? 0 then 1 else length))
  /\ (forallb bitfield_option (options context) = true ->
      (current_alignment current =? SDL_K_ALIGN) = false ->
      exists context' status,
        sdl_aggregate_member context (Some name) SDL_K_TYPE_BITFLD aggType
          lineComment startComment middleComment endComment
        = Some (context', status)).
Proof.
  intros Hproc Hagg Hcur length. split.
  - intros context' status H. unfold sdl_aggregate_member in H.
    rewrite Hproc, Hcur, bind_Some in H.
    bind_split H as p Eopt. destruct p as [[c1 cur1] locals].
    pose proof (apply_member_options_length _ _ _ _ _ Eopt) as Hlength.
    fold length in Hlength.
    destruct (new_member_bitfield_result c1 cur1 locals name aggType
                lineComment startComment middleComment endComment Hagg)
      as (item0 & Enew & Hid & Hlen & _ & _).
    rewrite Enew, bind_Some in H. cbv beta iota in H.
    bind_split H as c2 Eput. bind_split H as c3 Eorigin.
    bind_split H as cur3 Ecur3. bind_split H as r Edet.
    destruct r as [[c4 member4] memberList4].
    bind_split H as c5 Eput5.
    pose proof (determine_offsets_id_length _ _ _ _ _ _ _ _ Edet) as Hkeep.
    pose proof (determine_offsets_kind _ _ _ _ _ _ _ _ Edet) as Hkind.
    destruct (determine_offsets_frame _ _ _ _ _ _ _ _ Edet)
      as (resized & fillers & _ & _ & _ & Hcount).
    cbn [sdl_isItem] in Hkind. rewrite Hkind in H.
    injection H as <- <-. rewrite Hlength. split; [reflexivity|].
    assert (Hcur4 : get_current c4 = Some cur3).
    { rewrite (fillers_counted_current _ _ _ Hcount). exact Ecur3. }
    pose proof (put_current_get _ _ _ _ Hcur4 Eput5) as Hcur5.
    destruct (get_current_members c4 cur3 (memberList4 ++ [member4]) Hcur4)
      as (Hmembers & _).
    destruct member4 as [top4 type4 offset4 item4| |];
      try discriminate Hkeep.
    cbn [item_id_length] in Hkeep. injection Hkeep as Hid4 Hlen4.
    exists (set_current_members cur3
              (memberList4 ++ [Member_Item top4 type4 offset4 item4])),
      memberList4, top4, type4, offset4, item4.
    split; [exact Hcur5|]. split; [exact Hmembers|].
    split; [congruence|]. rewrite Hlen4, Hlen, Hlength. reflexivity.
  - intros Hopts Halign. apply Z.eqb_neq in Halign.
    unfold sdl_aggregate_member.
    rewrite Hproc, Hcur, bind_Some.
    destruct (apply_member_options_bitfield context current Hopts)
      as (locals & ->).
    rewrite bind_Some. cbv beta iota.
    destruct (new_member_bitfield_result context current locals name aggType
                lineComment startComment middleComment endComment Hagg)
      as (item0 & -> & _ & _ & Hal & Hbit).
    rewrite bind_Some. cbv beta iota.
    rewrite (get_put_current _ _ Hcur), bind_Some.
    cbn [sdl_isComment negb].
    destruct (checkAndSetOrigin_current context current
                (is_current_aggr current) SDL_K_TYPE_BITFLD 0 item0 Hcur)
      as (c3 & cur3 & -> & Ecur3 & Hmem3 & Hagg3 & Hsub3).
    rewrite bind_Some, Ecur3, bind_Some.
    destruct (get_current_members context current [] Hcur)
      as (_ & _ & _ & Hparent).
    destruct (determine_offsets_bitfield_defined c3 (current_members cur3)
                (current_aggType cur3 =? SDL_K_TYPE_UNION)
                (current_subaggr cur3) (is_current_aggr current)
                SDL_K_TYPE_BITFLD 0 item0 Hbit)
      as ([[c4 member4] memberList4] & Edet).
    { rewrite Hal. exact Halign. }
    { rewrite Hsub3. exact Hparent. }
    rewrite Edet, bind_Some. cbv beta iota.
    destruct (determine_offsets_frame _ _ _ _ _ _ _ _ Edet)
      as (resized & fillers & _ & _ & _ & Hcount).
    assert (Hcur4 : get_current c4 = Some cur3).
    { rewrite (fillers_counted_current _ _ _ Hcount). exact Ecur3. }
    destruct (put_get_current_members c4 cur3 (memberList4 ++ [member4])
                Hcur4) as (c5 & -> & _).
    rewrite bind_Some. eexists. eexists. reflexivity.
Qed.

End Dispatcher.

(** * The claims at concrete inputs *)

(** C2 (as stated): the layout computed for [f1 BITFIELD LENGTH 3; f2
    BITFIELD LENGTH 5; f3 BITFIELD LENGTH 1] has [f3] at bit 8 of byte 0 and
    one filler; it is not the layout of the spec. *)
Lemma bitfield_packing_is_not_per_byte :
  exists context status layout,
    bitfield_structure message_recorded backend_normal 0 zero_filled_arm "s"
      [("f1", [length_option 3]); ("f2", [length_option 5]);
       ("f3", [length_option 1])] None
    = Some (context, status)
    /\ aggregate_layout context = Some layout
    /\ ~ spec_bitfield_packing layout.
Proof.
  eexists. eexists. eexists.
  split; [vm_compute; reflexivity|].
  split; [vm_compute; reflexivity|].
  intros (h1 & h2 & h3 & h4 & h5 & id1 & o1 & b1 & id2 & o2 & b2 & H).
  discriminate H.
Qed.

(** C3 at [a BITFIELD OCTAWORD LENGTH 8; b BITFIELD OCTAWORD LENGTH 60
    MASK;]: [b] lies at bit 8 and its mask constant has the value -256, not
    [(2 ^ 60 - 1) << 8]. *)
Lemma mask_constant_wraps_at_64_bits :
  exists context status c,
    bitfield_structure message_recorded backend_normal 0 zero_filled_arm "s"
      octaword_fields None
    = Some (context, status)
    /\ aggregate_layout context
       = Some ([Some ("a", 0, 0, 8, 16); Some ("b", 0, 8, 60, 16);
                Some ("filler_000", 0, 9, 60, 16)], 16)
    /\ In c (constants context)
    /\ const_id c = "b"
    /\ const_tag c = "m"
    /\ const_radix c = SDL_K_RADIX_HEX
    /\ const_value c = -256
    /\ const_value c <> spec_mask 60 8.
Proof.
  eexists. eexists. eexists.
  split; [vm_compute; reflexivity|].
  split; [vm_compute; reflexivity|].
  split; [right; right; left; reflexivity|].
  repeat (split; [reflexivity|]).
  vm_compute. discriminate.
Qed.

(** C5 (as stated): the explicit tag [ABC_] of an all-lowercase host id is
    returned as [ABC], not in lower case. *)
Lemma explicit_tag_keeps_its_case :
  sdl_all_lower (Some "host") = true
  /\ _sdl_get_tag 1 (initial_context [] ["cc"] 8) (Some "ABC_")
       SDL_K_TYPE_BYTE (sdl_all_lower (Some "host"))
     = Some (Some "ABC")
  /\ "ABC" <> str_tolower "ABC".
Proof.
  split; [reflexivity|]. split; [reflexivity|]. vm_compute. discriminate.
Qed.

(** C7 (as stated): a bitfield with LENGTH 0 is accepted with the status
    [SDL_NORMAL] and laid out with the default length 1. *)
Lemma bitfield_of_length_zero_is_accepted :
  exists context,
    pending_length [length_option 0] <= 0
    /\ bitfield_member message_recorded 0
         (opened_structure 0 "s") "f" [length_option 0]
       = Some (context, SDL_NORMAL)
    /\ SDL_NORMAL <> SDL_ZEROLEN
    /\ option_map (map item_layout) (option_map current_members
                                       (get_current context))
       = Some [Some ("f", 0, 0, 1, 1)].
Proof.
  eexists. split; [vm_compute; discriminate|].
  split; [vm_compute; reflexivity|].
  split; [discriminate|]. vm_compute. reflexivity.
Qed.

(** C8 (as stated): [AGGREGATE s STRUCTURE; END t;] has no members and is
    closed with [SDL_MATCHEND], not with [SDL_NULLSTRUCT]. *)
Lemma empty_aggregate_closed_by_another_name :
  exists context,
    option_map current_members
      (get_current (opened_structure 0 "s"))
    = Some []
    /\ sdl_aggregate_compl message_recorded backend_normal 0 zero_filled_arm
         (opened_structure 0 "s") (Some "t")
       = Some (context, SDL_MATCHEND)
    /\ SDL_MATCHEND <> SDL_NULLSTRUCT.
Proof.
  eexists. split; [reflexivity|].
  split; [vm_compute; reflexivity|]. discriminate.
Qed.


(** C3 at [wide_item], 60 bits at bit 8 of an octaword: the mask constant
    of [b] has the low 64 bits of the mask, which fall short of the mask of
    the spec. *)
Lemma mask_constant_of_wide_field :
  _sdl_create_bitfield_constants (initial_context [] ["cc"] 8)
    ([] ++ [Member_Item true SDL_K_TYPE_BITFLD 0 wide_item])
  = bind (_sdl_create_bitfield_constants (initial_context [] ["cc"] 8) [])
      (fun c1 =>
         _sdl_create_bitfield_constants
           (_sdl_queue_constant
              (_sdl_queue_constant c1 (bitfield_size_constant c1 wide_item))
              (mkConstant (item_id wide_item)
                 (prefix_or_empty (item_prefix wide_item))
                 (if sdl_all_lower (Some (item_id wide_item))
                  then "m" else "M")
                 None None SDL_K_RADIX_HEX SDL_K_CONST_NUM
                 (int64_t
                    (uint64_t
                       (Z.shiftl (uint64_t (2 ^ item_length wide_item - 1))
                          (item_bitOffset wide_item))))
                 None (to_int (item_size wide_item))))
           [])
  /\ uint64_t
       (Z.shiftl (uint64_t (2 ^ item_length wide_item - 1))
          (item_bitOffset wide_item))
     < spec_mask (item_length wide_item) (item_bitOffset wide_item).
Proof.
  pose proof (mask_constant_keeps_low_64_bits (initial_context [] ["cc"] 8)
                [] [] true SDL_K_TYPE_BITFLD 0 wide_item eq_refl eq_refl)
    as H.
  cbv zeta in H. destruct H as (Hloop & _ & _ & _ & _ & Hless).
  - vm_compute. split; reflexivity.
  - vm_compute. split; [discriminate | reflexivity].
  - split; [exact Hloop|]. apply Hless. vm_compute. reflexivity.
Defined.

(** C4 at [AGGREGATE s STRUCTURE; f BITFIELD LENGTH 3; /* remark] closed by
    END: the queue of the members ends with the comment. *)
Lemma size_constant_of_closed_structure :
  exists context' status size earlier,
    sdl_aggregate_compl message_recorded backend_normal 0 zero_filled_arm
      (comment_added message_recorded 0 "s" "f" [length_option 3] "remark")
      None
    = Some (context', status)
    /\ constants context'
       = earlier
         ++ [mkConstant
               (current_id
                  (current_or
                     (get_current
                        (comment_added message_recorded 0 "s" "f"
                           [length_option 3] "remark"))))
               (prefix_or_empty
                  (current_prefix
                     (current_or
                        (get_current
                           (comment_added message_recorded 0 "s" "f"
                              [length_option 3] "remark")))))
               (if sdl_all_lower
                     (Some
                        (current_id
                           (current_or
                              (get_current
                                 (comment_added message_recorded 0 "s" "f"
                                    [length_option 3] "remark")))))
                then "s" else "S")
               None None SDL_K_RADIX_DEC SDL_K_CONST_NUM size None
               (to_int
                  (wordSize
                     (comment_added message_recorded 0 "s" "f"
                        [length_option 3] "remark")))]
    /\ closed_size
         (comment_added message_recorded 0 "s" "f" [length_option 3] "remark")
         context'
       = Some size.
Proof.
  destruct (size_constant_on_close message_recorded backend_normal 0
              zero_filled_arm
              (comment_added message_recorded 0 "s" "f" [length_option 3]
                 "remark")
              None
              (current_or
                 (get_current
                    (comment_added message_recorded 0 "s" "f"
                       [length_option 3] "remark"))))
    as [Hconstant Hdefined].
  - vm_compute. reflexivity.
  - vm_compute. reflexivity.
  - destruct (Hdefined
                (dimensions
                   (comment_added message_recorded 0 "s" "f"
                      [length_option 3] "remark")))
      as (context' & status & Hrun).
    + vm_compute. reflexivity.
    + vm_compute. reflexivity.
    + vm_compute. reflexivity.
    + vm_compute. reflexivity.
    + destruct (Hconstant context' status Hrun)
        as (size & earlier & Hqueue & Hsize).
      exists context', status, size, earlier.
      split; [exact Hrun|]. split; [exact Hqueue | exact Hsize].
Defined.

(** C5 at the tag [TAG__] and at the default tag of WORD. *)
Lemma tag_of_word :
  _sdl_get_tag 1 (initial_context [] ["cc"] 8) (Some "TAG__")
    SDL_K_TYPE_WORD true
  = Some (Some (strip_trailing_underscores "TAG__"))
  /\ _sdl_get_tag 1 (initial_context [] ["cc"] 8) None SDL_K_TYPE_WORD true
     = Some (Some (str_tolower "W")).
Proof.
  split.
  - apply (proj1 (get_tag_trims_explicit_lowers_default 0
                    (initial_context [] ["cc"] 8) SDL_K_TYPE_WORD)).
    reflexivity.
  - apply (proj2 (get_tag_trims_explicit_lowers_default 1
                    (initial_context [] ["cc"] 8) SDL_K_TYPE_WORD)).
    reflexivity.
Defined.

(** C7 at [f BITFIELD LENGTH -3] in [AGGREGATE s STRUCTURE;]: the
    dispatcher has a result and the status is [SDL_ZEROLEN]. *)
Lemma bitfield_of_negative_length :
  exists context',
    sdl_aggregate_member message_recorded 0
      (set_options (opened_structure 0 "s") [length_option (-3)])
      (Some "f") SDL_K_TYPE_BITFLD SDL_K_TYPE_NONE false false false false
    = Some (context', SDL_ZEROLEN).
Proof.
  destruct (bitfield_length_status message_recorded 0
              (set_options (opened_structure 0 "s") [length_option (-3)])
              "f" SDL_K_TYPE_NONE false false false false
              (current_or
                 (get_current
                    (set_options (opened_structure 0 "s")
                       [length_option (-3)]))))
    as [Hstatus Hdefined].
  - reflexivity.
  - reflexivity.
  - vm_compute. reflexivity.
  - destruct Hdefined as (context' & status & Hrun).
    + reflexivity.
    + reflexivity.
    + destruct (Hstatus context' status Hrun) as [Hzero _].
      exists context'. rewrite Hrun, Hzero. reflexivity.
Defined.

(** C8 at [AGGREGATE s STRUCTURE; END;]. *)
Lemma empty_structure_closed :
  exists context',
    sdl_aggregate_compl message_recorded backend_normal 0 zero_filled_arm
      (opened_structure 0 "s") None
    = Some (context', SDL_NULLSTRUCT)
    /\ closed_size (opened_structure 0 "s") context' = Some 0.
Proof.
  edestruct (empty_aggregate_is_null_structure message_recorded
               backend_normal 0 zero_filled_arm (opened_structure 0 "s")
               None)
    as (context' & Hrun & Hsize & _).
  - reflexivity.
  - reflexivity.
  - reflexivity.
  - reflexivity.
  - exists context'. split; [exact Hrun | exact Hsize].
Defined.

(** C9 at an END_IFSYMBOL in the state [CondElse] inside an open IFSYMBOL,
    with processing disabled. *)
Lemma end_ifsymbol_inside_ifsymbol :
  exists context',
    sdl_conditional message_recorded
      (set_processingEnabled
         (set_condState (initial_context [] ["cc"] 8) [CondElse; CondIfSymb])
         false)
      SDL_K_COND_END_SYMB ExprNull
    = Some (context', SDL_NORMAL)
    /\ processingEnabled context' = true
    /\ condState context' = [CondIfSymb].
Proof.
  apply (end_ifsymbol_enables_processing message_recorded
           (set_processingEnabled
              (set_condState (initial_context [] ["cc"] 8)
                 [CondElse; CondIfSymb])
              false)
           ExprNull).
  right. right. left. reflexivity.
Defined.


(** * The further properties at concrete inputs *)

(** X1 at the symbol [absent]. *)
Lemma ifsymbol_absent_symbol :
  sdl_conditional message_recorded sample_context SDL_K_COND_SYMB
    (ExprSymbol "absent")
  = Some (SDL_PUSH_COND_STATE sample_context CondIfSymb, SDL_SYMNOTDEF).
Proof.
  apply (ifsymbol_unbound_symbol_reports message_recorded sample_context
           "absent").
  - left. reflexivity.
  - intros value [H|[H|[]]]; discriminate H.
Defined.

(** X2 at the symbol [vms], bound to 1, with processing disabled. *)
Lemma ifsymbol_vms_symbol :
  sdl_conditional message_recorded
    (set_processingEnabled sample_context false) SDL_K_COND_SYMB
    (ExprSymbol "vms")
  = Some (set_processingEnabled
            (SDL_PUSH_COND_STATE
               (set_processingEnabled sample_context false) CondIfSymb)
            (negb (1 =? 0)),
          SDL_NORMAL).
Proof.
  apply (ifsymbol_first_binding_sets_gate message_recorded
           (set_processingEnabled sample_context false) "vms" 1
           [("debug", 0)] []).
  - left. reflexivity.
  - reflexivity.
  - intros v [H|[]]. discriminate H.
Defined.

(** X3 at the symbol [debug], bound to 0, behind an IFSYMBOL. *)
Lemma else_ifsymbol_debug_symbol :
  sdl_conditional message_recorded
    (set_condState sample_context [CondIfSymb]) SDL_K_COND_ELSEIF
    (ExprSymbol "debug")
  = Some (set_processingEnabled
            (SDL_PUSH_COND_STATE
               (SDL_POP_COND_STATE
                  (set_condState sample_context [CondIfSymb]))
               CondElseIf)
            (negb (0 =? 0)),
          SDL_NORMAL).
Proof.
  apply (else_ifsymbol_first_binding_sets_gate message_recorded
           (set_condState sample_context [CondIfSymb]) "debug" 0 []
           [("vms", 1)]).
  - reflexivity.
  - reflexivity.
  - intros v [].
Defined.

(** X4 at an IFSYMBOL right behind an IFSYMBOL. *)
Lemma ifsymbol_behind_ifsymbol :
  sdl_conditional message_recorded
    (set_condState sample_context [CondIfSymb]) SDL_K_COND_SYMB
    (ExprSymbol "vms")
  = Some (set_condState sample_context [CondIfSymb], SDL_INVCONDST).
Proof.
  apply (ifsymbol_inside_branch_refused message_recorded
           (set_condState sample_context [CondIfSymb]) (ExprSymbol "vms")).
  left. reflexivity.
Defined.

(** X5 at IFSYMBOL [debug]. *)
Lemma ifsymbol_debug_frame :
  symbols
    (result_context
       (sdl_conditional message_recorded sample_context SDL_K_COND_SYMB
          (ExprSymbol "debug"))
       sample_context)
  = symbols sample_context.
Proof.
  rewrite (conditional_touches_condition_state_only message_recorded
             sample_context
             (result_context
                (sdl_conditional message_recorded sample_context
                   SDL_K_COND_SYMB (ExprSymbol "debug"))
                sample_context)
             SDL_K_COND_SYMB (ExprSymbol "debug") SDL_NORMAL).
  - reflexivity.
  - reflexivity.
Defined.

(** X6 at IFSYMBOL [debug]. *)
Lemma ifsymbol_debug_stack :
  condState
    (result_context
       (sdl_conditional message_recorded sample_context SDL_K_COND_SYMB
          (ExprSymbol "debug"))
       sample_context)
  = condState sample_context
  \/ condState
       (result_context
          (sdl_conditional message_recorded sample_context SDL_K_COND_SYMB
             (ExprSymbol "debug"))
          sample_context)
     = CondIfSymb :: condState sample_context.
Proof.
  apply (conditional_stack_discipline message_recorded sample_context
           (result_context
              (sdl_conditional message_recorded sample_context
                 SDL_K_COND_SYMB (ExprSymbol "debug"))
              sample_context)
           SDL_K_COND_SYMB (ExprSymbol "debug") SDL_NORMAL).
  reflexivity.
Defined.

(** X7 at IFLANGUAGE CC. *)
Lemma iflanguage_cc :
  sdl_conditional message_recorded
    (set_langCondList sample_context ["CC"]) SDL_K_COND_LANG ExprLangs
  = Some (set_langCondList
            (set_langEnableVec
               (SDL_PUSH_COND_STATE (set_langCondList sample_context ["CC"])
                  CondIfLang)
               [true; false])
            [],
          SDL_NORMAL).
Proof.
  apply (iflanguage_enables_requested_languages message_recorded
           (set_langCondList sample_context ["CC"])).
  - reflexivity.
  - reflexivity.
Defined.

(** X8 at IFLANGUAGE CC; END_IFLANGUAGE CC. *)
Lemma iflanguage_cc_closed :
  exists inside after,
    sdl_conditional message_recorded
      (set_langCondList sample_context ["CC"]) SDL_K_COND_LANG ExprLangs
    = Some (inside, SDL_NORMAL)
    /\ sdl_conditional message_recorded inside SDL_K_COND_END_LANG ExprLangs
       = Some (after, SDL_NORMAL)
    /\ condState after = []
    /\ langEnableVec after = [true; true]
    /\ processingEnabled after = true.
Proof.
  apply (iflanguage_end_iflanguage_restores message_recorded
           (set_langCondList sample_context ["CC"])).
  - reflexivity.
  - reflexivity.
Defined.

(** X9 at IFSYMBOL [debug]; ELSE; END_IFSYMBOL. *)
Lemma ifsymbol_debug_closed :
  exists branch status middle after,
    sdl_conditional message_recorded sample_context SDL_K_COND_SYMB
      (ExprSymbol "debug")
    = Some (branch, status)
    /\ sdl_conditional message_recorded branch SDL_K_COND_ELSE ExprNull
       = Some (middle, SDL_NORMAL)
    /\ processingEnabled middle = negb (processingEnabled branch)
    /\ sdl_conditional message_recorded middle SDL_K_COND_END_SYMB ExprNull
       = Some (after, SDL_NORMAL)
    /\ condState after = []
    /\ processingEnabled after = true.
Proof.
  apply (ifsymbol_else_end_ifsymbol_restores message_recorded sample_context
           "debug").
  left. reflexivity.
Defined.

(** X10 at a DECLAREd type without a tag. *)
Lemma tag_of_untagged_declare :
  _sdl_get_tag 5 (set_declares sample_context [untagged_declare]) None
    SDL_K_DECLARE_MIN false
  = None.
Proof.
  apply (get_tag_of_untagged_declare_never_returns 5
           (set_declares sample_context [untagged_declare])
           SDL_K_DECLARE_MIN false untagged_declare).
  - reflexivity.
  - reflexivity.
  - reflexivity.
Defined.

(** X12 at [flag_member]. *)
Lemma constants_of_flag_member :
  exists context' css,
    _sdl_create_bitfield_constants sample_context [flag_member]
    = Some context'
    /\ Forall2 (fun m cs => member_constants sample_context m = Some cs)
         [flag_member] css
    /\ context'
       = set_constants sample_context
           (constants sample_context ++ List.concat css).
Proof.
  eexists.
  assert (Hrun : _sdl_create_bitfield_constants sample_context [flag_member]
                 = Some (result_or
                           (_sdl_create_bitfield_constants sample_context
                              [flag_member])
                           sample_context))
    by reflexivity.
  destruct (bitfield_constants_follow_member_order [flag_member]
              sample_context _ Hrun) as (css & Hall & Hctx).
  exists css. split; [exact Hrun|]. split; [exact Hall | exact Hctx].
Defined.

(** X13 at [flag_member]. *)
Lemma constants_of_flag_member_defined :
  exists context',
    _sdl_create_bitfield_constants sample_context [flag_member]
    = Some context'.
Proof.
  apply (bitfield_constants_are_produced sample_context [flag_member]).
  intros top type offset item [H|[]] _.
  injection H as _ _ _ <-. cbn. lia.
Defined.


(** X15 at a second bitfield of 6 bits behind a first one. *)
Lemma second_six_bits :
  exists memberList' newMember',
    _sdl_check_bitfieldSizes sample_context [six_bits "a"] 6 (six_bits "b")
    = Some (memberList', newMember')
    /\ Forall2 same_but_host [six_bits "a"] memberList'
    /\ same_but_host (six_bits "b") newMember'.
Proof.
  eexists. eexists.
  match goal with
  | |- ?E /\ _ => assert (Hrun : E) by (vm_compute; reflexivity)
  end.
  split; [exact Hrun|].
  exact (check_bitfieldSizes_changes_hosts_only _ _ _ _ _ _ Hrun).
Defined.

(** X16 at a run of 12 bits in a byte host. *)
Lemma resize_byte_for_12_bits :
  12 <= host_bits (resize_type SDL_K_TYPE_BITFLD_B 12)
  /\ host_bits SDL_K_TYPE_BITFLD_B
     <= host_bits (resize_type SDL_K_TYPE_BITFLD_B 12)
  /\ (resize_type SDL_K_TYPE_BITFLD_B 12 = SDL_K_TYPE_BITFLD_B
      \/ host_bits (resize_type SDL_K_TYPE_BITFLD_B 12) < 2 * 12).
Proof.
  apply (resize_type_fits_runs_up_to_64_bits SDL_K_TYPE_BITFLD_B 12).
  - left. reflexivity.
  - lia.
Defined.

(** X17 at a longword behind [flag_member], which leaves 3 bits unused. *)
Lemma longword_behind_flag :
  exists context' member' memberList' resized fillers,
    _sdl_determine_offsets sample_context long_member [flag_member] false
      None
    = Some (context', member', memberList')
    /\ Forall2 same_but_host [flag_member] resized
    /\ memberList' = resized ++ fillers
    /\ (List.length fillers <= 1)%nat
    /\ fillers_counted sample_context context' (List.length fillers).
Proof.
  eexists. eexists. eexists.
  assert (Hrun : _sdl_determine_offsets sample_context long_member
                   [flag_member] false None
                 = Some (result_or
                           (_sdl_determine_offsets sample_context long_member
                              [flag_member] false None)
                           (sample_context, long_member, [])))
    by reflexivity.
  destruct (determine_offsets_resizes_and_fills_only _ _ _ _ _ _ _ _ Hrun)
    as (resized & fillers & H).
  exists resized, fillers. split; [exact Hrun | exact H].
Defined.


(** X19 at IFSYMBOL [debug], which is bound to 0. *)
Lemma aggregate_behind_ifsymbol_debug :
  exists inside,
    sdl_conditional message_recorded sample_context SDL_K_COND_SYMB
      (ExprSymbol "debug")
    = Some (inside, SDL_NORMAL)
    /\ processingEnabled inside = false
    /\ sdl_aggregate 0 inside "s" SDL_K_TYPE_NONE SDL_K_TYPE_STRUCT
       = Some (inside, SDL_NORMAL)
    /\ sdl_aggregate_member message_recorded 0 inside (Some "f")
         SDL_K_TYPE_BYTE SDL_K_TYPE_NONE false false false false
       = Some (_sdl_reset_options inside, SDL_NORMAL)
    /\ sdl_aggregate_compl message_recorded backend_normal 0 zero_filled_arm inside None
       = Some (_sdl_reset_options inside, SDL_NORMAL)
    /\ aggregates (_sdl_reset_options inside) = []
    /\ constants (_sdl_reset_options inside) = []
    /\ aggregateDepth (_sdl_reset_options inside) = 0.
Proof.
  apply (aggregate_in_false_branch_is_skipped message_recorded
           backend_normal 0 zero_filled_arm sample_context "debug" [] [("vms", 1)] "s"
           SDL_K_TYPE_NONE SDL_K_TYPE_STRUCT (Some "f") SDL_K_TYPE_BYTE
           SDL_K_TYPE_NONE false false false false None).
  - left. reflexivity.
  - reflexivity.
  - intros v [].
Defined.

(** X20 at the first AGGREGATE of a run. *)
Lemma first_aggregate :
  exists context' myAggr,
    sdl_aggregate 0 sample_context "s" SDL_K_TYPE_NONE SDL_K_TYPE_STRUCT
    = Some (context', SDL_NORMAL)
    /\ aggregates context' = [] ++ [myAggr]
    /\ agg_id myAggr = "s"
    /\ agg_members myAggr = []
    /\ agg_typeID myAggr = SDL_K_AGGREGATE_MIN
    /\ aggregates_nextID context' = SDL_K_AGGREGATE_MIN + 1
    /\ Forall (fun a => agg_typeID a < aggregates_nextID context')
         (aggregates context')
    /\ sdl_get_aggregate (aggregates context') (agg_typeID myAggr)
       = Some myAggr
    /\ get_current context' = Some (CurrentAggr myAggr).
Proof.
  apply (aggregate_takes_fresh_type_id 0 sample_context "s" SDL_K_TYPE_NONE
           SDL_K_TYPE_STRUCT).
  - reflexivity.
  - reflexivity.
  - left. reflexivity.
  - constructor.
Defined.

(** X21 at a member without a name in [AGGREGATE s STRUCTURE;]. *)
Lemma nameless_member :
  sdl_aggregate_member message_recorded 0 (opened_structure 0 "s") None
    SDL_K_TYPE_BYTE SDL_K_TYPE_NONE false false false false
  = Some (opened_structure 0 "s", SDL_INVAGGRNAM).
Proof.
  eapply (member_without_name_is_refused message_recorded 0
            (opened_structure 0 "s")).
  - reflexivity.
  - reflexivity.
  - reflexivity.
Defined.

(** X22 at the END of [AGGREGATE s STRUCTURE; f BITFIELD LENGTH 3;]. *)
Lemma end_of_structure :
  exists context' status,
    sdl_aggregate_compl message_recorded backend_normal 0 zero_filled_arm
      (member_added message_recorded 0 "s" "f" [length_option 3]) None
    = Some (context', status)
    /\ aggregateDepth context'
       = aggregateDepth
           (member_added message_recorded 0 "s" "f" [length_option 3])
         - 1
    /\ options context' = [].
Proof.
  eexists. eexists.
  assert (Hrun :
    sdl_aggregate_compl message_recorded backend_normal 0 zero_filled_arm
      (member_added message_recorded 0 "s" "f" [length_option 3]) None
    = Some (result_context
              (sdl_aggregate_compl message_recorded backend_normal 0 zero_filled_arm
                 (member_added message_recorded 0 "s" "f" [length_option 3])
                 None)
              sample_context,
            result_status
              (sdl_aggregate_compl message_recorded backend_normal 0 zero_filled_arm
                 (member_added message_recorded 0 "s" "f" [length_option 3])
                 None)))
    by (vm_compute; reflexivity).
  assert (Hon :
    processingEnabled
      (member_added message_recorded 0 "s" "f" [length_option 3]) = true)
    by (vm_compute; reflexivity).
  destruct (aggregate_compl_closes_one_level message_recorded backend_normal
              0 zero_filled_arm _ _ _ _ Hon Hrun)
    as (_ & Hdepth & Hopts & _).
  split; [exact Hrun|]. split; [exact Hdepth | exact Hopts].
Defined.

(** X23 at a subaggregate opened in [AGGREGATE s STRUCTURE;]. *)
Lemma subaggregate_in_structure :
  exists context' status,
    sdl_aggregate_member message_recorded 0 (opened_structure 0 "s")
      (Some "inner") SDL_K_TYPE_NONE SDL_K_TYPE_STRUCT false false false
      false
    = Some (context', status)
    /\ aggregateDepth context'
       = (if one_of SDL_K_TYPE_STRUCT [SDL_K_TYPE_STRUCT; SDL_K_TYPE_UNION]
          then aggregateDepth (opened_structure 0 "s") + 1
          else aggregateDepth (opened_structure 0 "s"))
    /\ options context' = []
    /\ constants context' = constants (opened_structure 0 "s").
Proof.
  eexists. eexists.
  assert (Hrun :
    sdl_aggregate_member message_recorded 0 (opened_structure 0 "s")
      (Some "inner") SDL_K_TYPE_NONE SDL_K_TYPE_STRUCT false false false
      false
    = Some (result_context
              (sdl_aggregate_member message_recorded 0
                 (opened_structure 0 "s") (Some "inner") SDL_K_TYPE_NONE
                 SDL_K_TYPE_STRUCT false false false false)
              sample_context,
            result_status
              (sdl_aggregate_member message_recorded 0
                 (opened_structure 0 "s") (Some "inner") SDL_K_TYPE_NONE
                 SDL_K_TYPE_STRUCT false false false false)))
    by (vm_compute; reflexivity).
  assert (Hon : processingEnabled (opened_structure 0 "s") = true)
    by (vm_compute; reflexivity).
  split; [exact Hrun|].
  exact (member_opens_level_for_subaggregate_only message_recorded 0 _ _ _
           _ _ _ _ _ _ _ Hon Hrun).
Defined.

(** X24 at a second ITEM [x]. *)
Lemma second_item_x :
  sdl_item message_recorded
    (set_items sample_context [set_item_id empty_item "x"]) SDL_K_ITEM_MIN
    "x" SDL_K_TYPE_BYTE
  = (set_items sample_context [set_item_id empty_item "x"], SDL_K_ITEM_MIN,
     SDL_ABORT).
Proof.
  apply (item_declared_twice_is_refused message_recorded
           (set_items sample_context [set_item_id empty_item "x"])
           SDL_K_ITEM_MIN "x" SDL_K_TYPE_BYTE (set_item_id empty_item "x")).
  - reflexivity.
  - left. reflexivity.
  - reflexivity.
Defined.

(** X25 at the first ITEM of a run. *)
Lemma first_item_x :
  items_well_formed
    (items
       (fst (fst (sdl_item message_recorded sample_context SDL_K_ITEM_MIN "x"
                    SDL_K_TYPE_BYTE))))
    (snd (fst (sdl_item message_recorded sample_context SDL_K_ITEM_MIN "x"
                 SDL_K_TYPE_BYTE)))
  /\ exists found,
       _sdl_get_item
         (items
            (fst (fst (sdl_item message_recorded sample_context
                         SDL_K_ITEM_MIN "x" SDL_K_TYPE_BYTE))))
         "x"
       = Some found
       /\ item_id found = "x".
Proof.
  apply (item_registry_stays_well_formed message_recorded sample_context
           SDL_K_ITEM_MIN "x" SDL_K_TYPE_BYTE).
  - reflexivity.
  - split; [constructor|]. split; constructor.
Defined.

(** X26 at the line [abc] with a line feed behind it. *)
Lemma literal_abc :
  sdl_literal sample_context []
    (String.append (snoc "ab" "c") (String "010" EmptyString))
  = ([] ++ [snoc "ab" "c"], SDL_NORMAL).
Proof.
  apply (literal_line_loses_its_line_ends sample_context [] "ab" "c"
           (String "010" EmptyString)).
  - reflexivity.
  - reflexivity.
  - reflexivity.
Defined.

(** X27 at a line that holds a carriage return and a line feed only. *)
Lemma literal_blank_line :
  sdl_literal sample_context ["abc"] (String "013" (String "010" EmptyString))
  = (["abc"] ++ [EmptyString], SDL_NORMAL).
Proof.
  apply (literal_of_line_ends_only_is_queued_empty sample_context ["abc"]
           (String "013" (String "010" EmptyString))).
  - reflexivity.
  - reflexivity.
Defined.

(** X28 at two lines and back ends that refuse the line [b]. *)
Lemma literal_end_refused_line :
  (snd (sdl_literal_end
          (fun line => if streq line "b" then SDL_ABORT else SDL_NORMAL)
          sample_context ["a"; "b"; "c"])
   = SDL_NORMAL
   /\ fst (sdl_literal_end
             (fun line => if streq line "b" then SDL_ABORT else SDL_NORMAL)
             sample_context ["a"; "b"; "c"])
      = []
   /\ Forall
        (fun line =>
           (if streq line "b" then SDL_ABORT else SDL_NORMAL) = SDL_NORMAL)
        ["a"; "b"; "c"])
  \/ exists front bad,
       ["a"; "b"; "c"]
       = front
         ++ bad
            :: fst (sdl_literal_end
                      (fun line =>
                         if streq line "b" then SDL_ABORT else SDL_NORMAL)
                      sample_context ["a"; "b"; "c"])
       /\ Forall
            (fun line =>
               (if streq line "b" then SDL_ABORT else SDL_NORMAL)
               = SDL_NORMAL)
            front
       /\ (if streq bad "b" then SDL_ABORT else SDL_NORMAL)
          = snd (sdl_literal_end
                   (fun line =>
                      if streq line "b" then SDL_ABORT else SDL_NORMAL)
                   sample_context ["a"; "b"; "c"])
       /\ snd (sdl_literal_end
                 (fun line =>
                    if streq line "b" then SDL_ABORT else SDL_NORMAL)
                 sample_context ["a"; "b"; "c"])
          <> SDL_NORMAL.
Proof.
  apply (literal_end_stops_at_first_failure
           (fun line => if streq line "b" then SDL_ABORT else SDL_NORMAL)
           sample_context ["a"; "b"; "c"]).
  reflexivity.
Defined.

(** X29 at a member [CHARACTER *] of [AGGREGATE s STRUCTURE;]. *)
Lemma member_character_star :
  exists context' status,
    sdl_aggregate_member message_recorded 0 (opened_structure 0 "s")
      (Some "text") SDL_K_TYPE_CHAR_STAR SDL_K_TYPE_NONE false false false
      false
    = Some (context', status)
    /\ status = SDL_INVUNKLEN.
Proof.
  eexists. eexists.
  assert (Hrun :
    sdl_aggregate_member message_recorded 0 (opened_structure 0 "s")
      (Some "text") SDL_K_TYPE_CHAR_STAR SDL_K_TYPE_NONE false false false
      false
    = Some (result_context
              (sdl_aggregate_member message_recorded 0
                 (opened_structure 0 "s") (Some "text") SDL_K_TYPE_CHAR_STAR
                 SDL_K_TYPE_NONE false false false false)
              sample_context,
            result_status
              (sdl_aggregate_member message_recorded 0
                 (opened_structure 0 "s") (Some "text") SDL_K_TYPE_CHAR_STAR
                 SDL_K_TYPE_NONE false false false false)))
    by (vm_compute; reflexivity).
  assert (Hon : processingEnabled (opened_structure 0 "s") = true)
    by (vm_compute; reflexivity).
  split; [exact Hrun|].
  exact (member_of_unknown_length_is_reported message_recorded 0 _ _ "text"
           SDL_K_TYPE_CHAR_STAR SDL_K_TYPE_NONE false false false false _
           Hon eq_refl eq_refl Hrun).
Defined.

(** X30 at a comment in [AGGREGATE s STRUCTURE;]. *)
Lemma comment_in_structure :
  exists context',
    sdl_aggregate_member message_recorded 0 (opened_structure 0 "s")
      (Some "the fields") SDL_K_TYPE_COMMENT SDL_K_TYPE_NONE true false false
      false
    = Some (context', SDL_NORMAL)
    /\ option_map current_members (get_current context')
       = Some [Member_Comment true
                 (mkComment "the fields" false true false false)].
Proof.
  destruct (comment_joins_members_without_layout message_recorded 0
              (opened_structure 0 "s")
              (result_or (get_current (opened_structure 0 "s"))
                 (CurrentSubaggr flag_member))
              "the fields" SDL_K_TYPE_NONE true false false false)
    as (context' & Hrun & Hcur & _).
  - reflexivity.
  - reflexivity.
  - reflexivity.
  - reflexivity.
  - exists context'. split; [exact Hrun|]. rewrite Hcur. reflexivity.
Defined.
